(** * Vulkan renderer: capability negotiation, swap chain and frame loop

    A shallow embedding of [VulkanApp.cpp], [VulkanUtils.h] and
    [Constants.h].  Pure member functions are Rocq functions over the
    values the Vulkan and GLFW calls hand back.  Member functions that
    change the application object or talk to the device are written in a
    small state monad that also records the calls made.

    Conventions
    - [uint32_t] values are [Z] with wrap-around written out ([uint32]).
    - Positions in a [std::vector] and loop counters over one are [nat]:
      every such vector is sized from a [uint32_t] count.
    - An opaque Vulkan handle is [option nat]; [None] is [VK_NULL_HANDLE]. *)

From Stdlib Require Import ZArith List Bool String Lia Arith PeanoNat Sorted.
Import ListNotations.

Local Open Scope Z_scope.

(* ================================================================== *)
(** ** Machine integers *)

Definition UINT32_MAX : Z := 4294967295.

(** Conversion to [uint32_t], and the result of unsigned arithmetic. *)
Definition uint32 (z : Z) : Z := z mod 4294967296.

(** [std::clamp(v, lo, hi)]: [(v < lo) ? lo : (hi < v) ? hi : v]. *)
Definition std_clamp (v lo hi : Z) : Z :=
  if v <? lo then lo else if hi <? v then hi else v.

(* ================================================================== *)
(** ** Vulkan enumerations and structures used by the program *)

Inductive VkResult : Type :=
| VK_SUCCESS
| VK_NOT_READY
| VK_TIMEOUT
| VK_INCOMPLETE
| VK_SUBOPTIMAL_KHR
| VK_ERROR_OUT_OF_DATE_KHR
| VK_ERROR_OUT_OF_HOST_MEMORY
| VK_ERROR_OUT_OF_DEVICE_MEMORY
| VK_ERROR_INITIALIZATION_FAILED
| VK_ERROR_DEVICE_LOST
| VK_ERROR_SURFACE_LOST_KHR
| VK_ERROR_EXTENSION_NOT_PRESENT.

Definition VkResult_eqb (a b : VkResult) : bool :=
  match a, b with
  | VK_SUCCESS, VK_SUCCESS
  | VK_NOT_READY, VK_NOT_READY
  | VK_TIMEOUT, VK_TIMEOUT
  | VK_INCOMPLETE, VK_INCOMPLETE
  | VK_SUBOPTIMAL_KHR, VK_SUBOPTIMAL_KHR
  | VK_ERROR_OUT_OF_DATE_KHR, VK_ERROR_OUT_OF_DATE_KHR
  | VK_ERROR_OUT_OF_HOST_MEMORY, VK_ERROR_OUT_OF_HOST_MEMORY
  | VK_ERROR_OUT_OF_DEVICE_MEMORY, VK_ERROR_OUT_OF_DEVICE_MEMORY
  | VK_ERROR_INITIALIZATION_FAILED, VK_ERROR_INITIALIZATION_FAILED
  | VK_ERROR_DEVICE_LOST, VK_ERROR_DEVICE_LOST
  | VK_ERROR_SURFACE_LOST_KHR, VK_ERROR_SURFACE_LOST_KHR
  | VK_ERROR_EXTENSION_NOT_PRESENT, VK_ERROR_EXTENSION_NOT_PRESENT => true
  | _, _ => false
  end.

Inductive VkPresentModeKHR : Type :=
| VK_PRESENT_MODE_IMMEDIATE_KHR
| VK_PRESENT_MODE_MAILBOX_KHR
| VK_PRESENT_MODE_FIFO_KHR
| VK_PRESENT_MODE_FIFO_RELAXED_KHR
| VK_PRESENT_MODE_SHARED_DEMAND_REFRESH_KHR
| VK_PRESENT_MODE_SHARED_CONTINUOUS_REFRESH_KHR.

Definition is_mailbox (m : VkPresentModeKHR) : bool :=
  match m with VK_PRESENT_MODE_MAILBOX_KHR => true | _ => false end.

Inductive VkPhysicalDeviceType : Type :=
| VK_PHYSICAL_DEVICE_TYPE_OTHER
| VK_PHYSICAL_DEVICE_TYPE_INTEGRATED_GPU
| VK_PHYSICAL_DEVICE_TYPE_DISCRETE_GPU
| VK_PHYSICAL_DEVICE_TYPE_VIRTUAL_GPU
| VK_PHYSICAL_DEVICE_TYPE_CPU.

Definition is_discrete (t : VkPhysicalDeviceType) : bool :=
  match t with VK_PHYSICAL_DEVICE_TYPE_DISCRETE_GPU => true | _ => false end.

Record VkExtent2D : Type := mkExtent { width : Z; height : Z }.

(** [VkFormat] and [VkColorSpaceKHR] are kept as their integer codes. *)
Record VkSurfaceFormatKHR : Type := mkSurfaceFormat { format : Z; colorSpace : Z }.

Definition VK_FORMAT_UNDEFINED : Z := 0.
Definition VK_FORMAT_B8G8R8A8_SRGB : Z := 50.
Definition VK_COLOR_SPACE_SRGB_NONLINEAR_KHR : Z := 0.

Record VkSurfaceCapabilitiesKHR : Type := mkCaps {
  minImageCount  : Z;
  maxImageCount  : Z;
  currentExtent  : VkExtent2D;
  minImageExtent : VkExtent2D;
  maxImageExtent : VkExtent2D
}.

(** [VulkanUtils.h]: [SwapChainSupportDetails]. *)
Record SwapChainSupportDetails : Type := mkSupport {
  capabilities : VkSurfaceCapabilitiesKHR;
  formats      : list VkSurfaceFormatKHR;
  presentModes : list VkPresentModeKHR
}.

(** One entry of [vkGetPhysicalDeviceQueueFamilyProperties], together with
    the answer of [vkGetPhysicalDeviceSurfaceSupportKHR] for its index and
    the application's surface. *)
Record QueueFamily : Type := mkQueueFamily {
  queueFlags     : Z;
  presentSupport : bool
}.

Definition VK_QUEUE_GRAPHICS_BIT : Z := 1.

(** [VulkanUtils.h]: [QueueFamilyIndices]. *)
Record QueueFamilyIndices : Type := mkIndices {
  graphicsFamily : option nat;
  presentFamily  : option nat
}.

Definition has_value {A} (o : option A) : bool :=
  match o with Some _ => true | None => false end.

Definition IsComplete (i : QueueFamilyIndices) : bool :=
  has_value (graphicsFamily i) && has_value (presentFamily i).

(** What the physical-device queries of the program return for one device. *)
Record PhysicalDevice : Type := mkPhysicalDevice {
  deviceType          : VkPhysicalDeviceType;
  maxImageDimension2D : Z;
  geometryShader      : bool;
  queueFamilies       : list QueueFamily;
  availableExtensions : list string;
  swapChainSupport    : SwapChainSupportDetails
}.

(** [Constants.h]. *)
Definition g_maxFramesInFlight : nat := 2.
Definition MAX_FRAMES_IN_FLIGHT : nat := g_maxFramesInFlight.
Definition VK_KHR_SWAPCHAIN_EXTENSION_NAME : string := "VK_KHR_swapchain".
Definition g_vDeviceExtensions : list string := [VK_KHR_SWAPCHAIN_EXTENSION_NAME].
Definition V_EXTENS : list string := g_vDeviceExtensions.

(* ================================================================== *)
(** ** How a call ends *)

Inductive Outcome (A : Type) : Type :=
| Done (a : A)            (* the call returns *)
| Fatal (what : string)   (* an exception or a failed ASSERT leaves the call *)
| Blocked                 (* the call is still waiting *)
| OutOfBounds.            (* a vector is indexed outside its size *)

Arguments Done {A} a.
Arguments Fatal {A} what.
Arguments Blocked {A}.
Arguments OutOfBounds {A}.

(* ================================================================== *)
(** ** Swap chain configuration (pure part) *)

Definition is_preferred_format (f : VkSurfaceFormatKHR) : bool :=
  (format f =? VK_FORMAT_B8G8R8A8_SRGB) && (colorSpace f =? VK_COLOR_SPACE_SRGB_NONLINEAR_KHR).

(** [VulkanApp::ChooseSwapSurfaceFormat]; [None] when [availableFormats[0]]
    is read from an empty vector. *)
Definition ChooseSwapSurfaceFormat (availableFormats : list VkSurfaceFormatKHR)
  : option VkSurfaceFormatKHR :=
  match find is_preferred_format availableFormats with
  | Some f => Some f
  | None => nth_error availableFormats 0
  end.

(** [VulkanApp::ChooseSwapPresentMode]. *)
Fixpoint ChooseSwapPresentMode (availableModes : list VkPresentModeKHR) : VkPresentModeKHR :=
  match availableModes with
  | [] => VK_PRESENT_MODE_FIFO_KHR
  | MODE :: rest => if is_mailbox MODE then MODE else ChooseSwapPresentMode rest
  end.

(** [VulkanApp::ChooseSwapExtent].  [framebufferSize] is what
    [glfwGetFramebufferSize] stores in [width] and [height] (two [int]s);
    it is only read in the second branch. *)
Definition ChooseSwapExtent (framebufferSize : Z * Z) (capabilities : VkSurfaceCapabilitiesKHR)
  : VkExtent2D :=
  if negb (width (currentExtent capabilities) =? UINT32_MAX) then
    currentExtent capabilities
  else
    let '(w, h) := framebufferSize in
    let actualExtent := mkExtent (uint32 w) (uint32 h) in
    mkExtent
      (std_clamp (width actualExtent)
                 (width (minImageExtent capabilities)) (width (maxImageExtent capabilities)))
      (std_clamp (height actualExtent)
                 (height (minImageExtent capabilities)) (height (maxImageExtent capabilities))).

(** The image count requested in [VulkanApp::CreateSwapChain]. *)
Definition requested_image_count (c : VkSurfaceCapabilitiesKHR) : Z :=
  let imageCount := uint32 (minImageCount c + 1) in
  if (0 <? maxImageCount c) && (maxImageCount c <? imageCount)
  then maxImageCount c else imageCount.

(* ================================================================== *)
(** ** Queue families *)

Definition supports_graphics (q : QueueFamily) : bool :=
  negb (Z.land (queueFlags q) VK_QUEUE_GRAPHICS_BIT =? 0).

Definition supports_present (q : QueueFamily) : bool := presentSupport q.

(** The range-for loop of [VulkanApp::FindQueueFamilies]; [i] is the counter
    kept beside the iteration and [indices] the result so far. *)
Fixpoint FindQueueFamilies_loop (queueFamilies : list QueueFamily) (i : nat)
         (indices : QueueFamilyIndices) : QueueFamilyIndices :=
  match queueFamilies with
  | [] => indices
  | queueFamily :: rest =>
      let indices :=
        if supports_present queueFamily
        then mkIndices (graphicsFamily indices) (Some i) else indices in
      let indices :=
        if supports_graphics queueFamily
        then mkIndices (Some i) (presentFamily indices) else indices in
      if IsComplete indices then indices
      else FindQueueFamilies_loop rest (S i) indices
  end.

(** [VulkanApp::FindQueueFamilies]. *)
Definition FindQueueFamilies (device : PhysicalDevice) : QueueFamilyIndices :=
  FindQueueFamilies_loop (queueFamilies device) 0%nat (mkIndices None None).

(* ================================================================== *)
(** ** Device selection *)

(** [VulkanApp::DeviceExtensionSupport]: the required names form a
    [std::set]; every available name is erased from it. *)
Definition erase (name : string) (s : list string) : list string :=
  filter (fun r => negb (String.eqb r name)) s.

Definition DeviceExtensionSupport (device : PhysicalDevice) : bool :=
  let requiredExtensions := fold_left (fun s e => erase e s) (availableExtensions device)
                                      (nodup string_dec V_EXTENS) in
  match requiredExtensions with [] => true | _ => false end.

Definition is_empty {A} (l : list A) : bool :=
  match l with [] => true | _ => false end.

(** [VulkanApp::DeviceSuitable]. *)
Definition DeviceSuitable (device : PhysicalDevice) : bool :=
  let INDICES := FindQueueFamilies device in
  let EXTENSIONS_SUPPORTED := DeviceExtensionSupport device in
  let swapChainSupportAdequate :=
    if EXTENSIONS_SUPPORTED
    then negb (is_empty (formats (swapChainSupport device)))
         && negb (is_empty (presentModes (swapChainSupport device)))
    else false in
  IsComplete INDICES && EXTENSIONS_SUPPORTED && swapChainSupportAdequate.

(** [VulkanApp::RateDevice]; [score] is a [uint32_t]. *)
Definition RateDevice (device : PhysicalDevice) : Z :=
  let score := 0 in
  if negb (geometryShader device) || negb (DeviceSuitable device) then 0
  else
    let score := if is_discrete (deviceType device) then uint32 (score + 1000) else score in
    let score := uint32 (score + maxImageDimension2D device) in
    score.

(** [std::multimap<uint32_t, V>::insert]: keys stay sorted and a new
    element goes after the elements with an equal key. *)
Fixpoint multimap_insert {V} (k : Z) (v : V) (m : list (Z * V)) : list (Z * V) :=
  match m with
  | [] => [(k, v)]
  | (k', v') :: rest =>
      if k <? k' then (k, v) :: m else (k', v') :: multimap_insert k v rest
  end.

(** [candidates.rbegin()]. *)
Definition rbegin {V} (m : list (Z * V)) : option (Z * V) := last (map Some m) None.

(** Modelled from the spec: [DMC::UTILS::ReportError], behind the [ASSERT]
    macro, is declared in [Sandbox/TestBench/DMC.h], which is not among the
    sources.  The specification makes a failed check fatal: the process
    cannot proceed. *)
Definition ASSERT (condition : bool) (message : string) : Outcome unit :=
  if condition then Done tt else Fatal message.

(** What the two calls of [vkEnumeratePhysicalDevices] answer: the result
    of the call that asks for the count, and the result of the call that
    fills the vector together with the vector as that call leaves it.  The
    vector is made with [deviceCount] entries, so the count given by the
    first call is its length. *)
Record PhysicalDevices : Type := mkPhysicalDevices {
  count_result     : VkResult;
  enumerate_result : VkResult;
  enumerated       : list PhysicalDevice
}.

(** [VulkanApp::PickPhysicalDevice]; the result is the value stored in
    [m_physicalDevice].  [NDEBUG] says whether [assert] is compiled out. *)
Definition PickPhysicalDevice (NDEBUG : bool) (instance : PhysicalDevices)
  : Outcome PhysicalDevice :=
  let retCode := count_result instance in
  let deviceCount := List.length (enumerated instance) in
  if negb NDEBUG && negb (VkResult_eqb retCode VK_SUCCESS) then Fatal "assert(retCode == VK_SUCCESS)"
  else
  match ASSERT (negb (deviceCount =? 0)%nat) "Failed to find GPU with Vulkan support" with
  | Done _ =>
      let devices := enumerated instance in
      let retCode := enumerate_result instance in
      match ASSERT (VkResult_eqb retCode VK_SUCCESS) "No physical devices available!" with
      | Done _ =>
          let candidates :=
            fold_left (fun c device => multimap_insert (RateDevice device) device c)
                      devices [] in
          match rbegin candidates with
          | Some (score, device) =>
              match ASSERT (0 <? score) "Failed to find suitable GPU!" with
              | Done _ => Done device
              | Fatal what => Fatal what
              | Blocked => Blocked
              | OutOfBounds => OutOfBounds
              end
          | None => OutOfBounds
          end
      | Fatal what => Fatal what
      | Blocked => Blocked
      | OutOfBounds => OutOfBounds
      end
  | Fatal what => Fatal what
  | Blocked => Blocked
  | OutOfBounds => OutOfBounds
  end.

(* ================================================================== *)
(** ** The application object, the device and the environment *)

Local Close Scope Z_scope.

Definition Handle : Type := option nat.
Definition VK_NULL_HANDLE : Handle := None.

Definition Handle_eqb (a b : Handle) : bool :=
  match a, b with
  | Some x, Some y => Nat.eqb x y
  | None, None => true
  | _, _ => false
  end.

(** [std::vector::resize(n, value)]. *)
Definition resize {A} (n : nat) (value : A) (v : list A) : list A :=
  firstn n v ++ repeat value (n - List.length v).

(** [v[i] = x] for [i] inside the vector. *)
Fixpoint assign {A} (i : nat) (x : A) (v : list A) : list A :=
  match v, i with
  | [], _ => []
  | _ :: rest, O => x :: rest
  | y :: rest, S i' => y :: assign i' x rest
  end.

(** The data members of [VulkanApp] used after the logical device exists. *)
Record VulkanApp : Type := mkApp {
  m_physicalDevice            : PhysicalDevice;
  m_graphicsQueue             : Handle;
  m_presentQueue              : Handle;
  m_currentSwapChain          : Handle;
  m_oldSwapChain              : Handle;
  m_vSwapChainImages          : list Handle;
  m_swapChainImageFormat      : Z;
  m_swapChainExtent           : VkExtent2D;
  m_vSwapChainImageViews      : list Handle;
  m_renderPass                : Handle;
  m_pipelineLayout            : Handle;
  m_graphicsPipeline          : Handle;
  m_vSwapChainFramebuffers    : list Handle;
  m_commandPool               : Handle;
  m_vCommandBuffers           : list Handle;
  m_vImageAvailableSemaphores : list Handle;
  m_vRenderFinishedSemaphores : list Handle;
  m_vFences                   : list Handle;
  m_vImagesInFlight           : list Handle;
  m_currentFrame              : nat;
  m_framebufferResized        : bool
}.

(** Assignments to data members. *)

Definition set_m_currentSwapChain x (a : VulkanApp) : VulkanApp :=
  mkApp (m_physicalDevice a) (m_graphicsQueue a) (m_presentQueue a) x (m_oldSwapChain a)
        (m_vSwapChainImages a) (m_swapChainImageFormat a) (m_swapChainExtent a)
        (m_vSwapChainImageViews a) (m_renderPass a) (m_pipelineLayout a)
        (m_graphicsPipeline a) (m_vSwapChainFramebuffers a) (m_commandPool a)
        (m_vCommandBuffers a) (m_vImageAvailableSemaphores a)
        (m_vRenderFinishedSemaphores a) (m_vFences a) (m_vImagesInFlight a)
        (m_currentFrame a) (m_framebufferResized a).

Definition set_m_vSwapChainImages x (a : VulkanApp) : VulkanApp :=
  mkApp (m_physicalDevice a) (m_graphicsQueue a) (m_presentQueue a) (m_currentSwapChain a)
        (m_oldSwapChain a) x (m_swapChainImageFormat a) (m_swapChainExtent a)
        (m_vSwapChainImageViews a) (m_renderPass a) (m_pipelineLayout a)
        (m_graphicsPipeline a) (m_vSwapChainFramebuffers a) (m_commandPool a)
        (m_vCommandBuffers a) (m_vImageAvailableSemaphores a)
        (m_vRenderFinishedSemaphores a) (m_vFences a) (m_vImagesInFlight a)
        (m_currentFrame a) (m_framebufferResized a).

Definition set_m_swapChainImageFormat x (a : VulkanApp) : VulkanApp :=
  mkApp (m_physicalDevice a) (m_graphicsQueue a) (m_presentQueue a) (m_currentSwapChain a)
        (m_oldSwapChain a) (m_vSwapChainImages a) x (m_swapChainExtent a)
        (m_vSwapChainImageViews a) (m_renderPass a) (m_pipelineLayout a)
        (m_graphicsPipeline a) (m_vSwapChainFramebuffers a) (m_commandPool a)
        (m_vCommandBuffers a) (m_vImageAvailableSemaphores a)
        (m_vRenderFinishedSemaphores a) (m_vFences a) (m_vImagesInFlight a)
        (m_currentFrame a) (m_framebufferResized a).

Definition set_m_swapChainExtent x (a : VulkanApp) : VulkanApp :=
  mkApp (m_physicalDevice a) (m_graphicsQueue a) (m_presentQueue a) (m_currentSwapChain a)
        (m_oldSwapChain a) (m_vSwapChainImages a) (m_swapChainImageFormat a) x
        (m_vSwapChainImageViews a) (m_renderPass a) (m_pipelineLayout a)
        (m_graphicsPipeline a) (m_vSwapChainFramebuffers a) (m_commandPool a)
        (m_vCommandBuffers a) (m_vImageAvailableSemaphores a)
        (m_vRenderFinishedSemaphores a) (m_vFences a) (m_vImagesInFlight a)
        (m_currentFrame a) (m_framebufferResized a).

Definition set_m_vSwapChainImageViews x (a : VulkanApp) : VulkanApp :=
  mkApp (m_physicalDevice a) (m_graphicsQueue a) (m_presentQueue a) (m_currentSwapChain a)
        (m_oldSwapChain a) (m_vSwapChainImages a) (m_swapChainImageFormat a)
        (m_swapChainExtent a) x (m_renderPass a) (m_pipelineLayout a)
        (m_graphicsPipeline a) (m_vSwapChainFramebuffers a) (m_commandPool a)
        (m_vCommandBuffers a) (m_vImageAvailableSemaphores a)
        (m_vRenderFinishedSemaphores a) (m_vFences a) (m_vImagesInFlight a)
        (m_currentFrame a) (m_framebufferResized a).

Definition set_m_renderPass x (a : VulkanApp) : VulkanApp :=
  mkApp (m_physicalDevice a) (m_graphicsQueue a) (m_presentQueue a) (m_currentSwapChain a)
        (m_oldSwapChain a) (m_vSwapChainImages a) (m_swapChainImageFormat a)
        (m_swapChainExtent a) (m_vSwapChainImageViews a) x (m_pipelineLayout a)
        (m_graphicsPipeline a) (m_vSwapChainFramebuffers a) (m_commandPool a)
        (m_vCommandBuffers a) (m_vImageAvailableSemaphores a)
        (m_vRenderFinishedSemaphores a) (m_vFences a) (m_vImagesInFlight a)
        (m_currentFrame a) (m_framebufferResized a).

Definition set_m_pipelineLayout x (a : VulkanApp) : VulkanApp :=
  mkApp (m_physicalDevice a) (m_graphicsQueue a) (m_presentQueue a) (m_currentSwapChain a)
        (m_oldSwapChain a) (m_vSwapChainImages a) (m_swapChainImageFormat a)
        (m_swapChainExtent a) (m_vSwapChainImageViews a) (m_renderPass a) x
        (m_graphicsPipeline a) (m_vSwapChainFramebuffers a) (m_commandPool a)
        (m_vCommandBuffers a) (m_vImageAvailableSemaphores a)
        (m_vRenderFinishedSemaphores a) (m_vFences a) (m_vImagesInFlight a)
        (m_currentFrame a) (m_framebufferResized a).

Definition set_m_graphicsPipeline x (a : VulkanApp) : VulkanApp :=
  mkApp (m_physicalDevice a) (m_graphicsQueue a) (m_presentQueue a) (m_currentSwapChain a)
        (m_oldSwapChain a) (m_vSwapChainImages a) (m_swapChainImageFormat a)
        (m_swapChainExtent a) (m_vSwapChainImageViews a) (m_renderPass a)
        (m_pipelineLayout a) x (m_vSwapChainFramebuffers a) (m_commandPool a)
        (m_vCommandBuffers a) (m_vImageAvailableSemaphores a)
        (m_vRenderFinishedSemaphores a) (m_vFences a) (m_vImagesInFlight a)
        (m_currentFrame a) (m_framebufferResized a).

Definition set_m_vSwapChainFramebuffers x (a : VulkanApp) : VulkanApp :=
  mkApp (m_physicalDevice a) (m_graphicsQueue a) (m_presentQueue a) (m_currentSwapChain a)
        (m_oldSwapChain a) (m_vSwapChainImages a) (m_swapChainImageFormat a)
        (m_swapChainExtent a) (m_vSwapChainImageViews a) (m_renderPass a)
        (m_pipelineLayout a) (m_graphicsPipeline a) x (m_commandPool a)
        (m_vCommandBuffers a) (m_vImageAvailableSemaphores a)
        (m_vRenderFinishedSemaphores a) (m_vFences a) (m_vImagesInFlight a)
        (m_currentFrame a) (m_framebufferResized a).

Definition set_m_vCommandBuffers x (a : VulkanApp) : VulkanApp :=
  mkApp (m_physicalDevice a) (m_graphicsQueue a) (m_presentQueue a) (m_currentSwapChain a)
        (m_oldSwapChain a) (m_vSwapChainImages a) (m_swapChainImageFormat a)
        (m_swapChainExtent a) (m_vSwapChainImageViews a) (m_renderPass a)
        (m_pipelineLayout a) (m_graphicsPipeline a) (m_vSwapChainFramebuffers a)
        (m_commandPool a) x (m_vImageAvailableSemaphores a)
        (m_vRenderFinishedSemaphores a) (m_vFences a) (m_vImagesInFlight a)
        (m_currentFrame a) (m_framebufferResized a).

Definition set_m_vImageAvailableSemaphores x (a : VulkanApp) : VulkanApp :=
  mkApp (m_physicalDevice a) (m_graphicsQueue a) (m_presentQueue a) (m_currentSwapChain a)
        (m_oldSwapChain a) (m_vSwapChainImages a) (m_swapChainImageFormat a)
        (m_swapChainExtent a) (m_vSwapChainImageViews a) (m_renderPass a)
        (m_pipelineLayout a) (m_graphicsPipeline a) (m_vSwapChainFramebuffers a)
        (m_commandPool a) (m_vCommandBuffers a) x (m_vRenderFinishedSemaphores a)
        (m_vFences a) (m_vImagesInFlight a) (m_currentFrame a) (m_framebufferResized a).

Definition set_m_vRenderFinishedSemaphores x (a : VulkanApp) : VulkanApp :=
  mkApp (m_physicalDevice a) (m_graphicsQueue a) (m_presentQueue a) (m_currentSwapChain a)
        (m_oldSwapChain a) (m_vSwapChainImages a) (m_swapChainImageFormat a)
        (m_swapChainExtent a) (m_vSwapChainImageViews a) (m_renderPass a)
        (m_pipelineLayout a) (m_graphicsPipeline a) (m_vSwapChainFramebuffers a)
        (m_commandPool a) (m_vCommandBuffers a) (m_vImageAvailableSemaphores a) x
        (m_vFences a) (m_vImagesInFlight a) (m_currentFrame a) (m_framebufferResized a).

Definition set_m_vFences x (a : VulkanApp) : VulkanApp :=
  mkApp (m_physicalDevice a) (m_graphicsQueue a) (m_presentQueue a) (m_currentSwapChain a)
        (m_oldSwapChain a) (m_vSwapChainImages a) (m_swapChainImageFormat a)
        (m_swapChainExtent a) (m_vSwapChainImageViews a) (m_renderPass a)
        (m_pipelineLayout a) (m_graphicsPipeline a) (m_vSwapChainFramebuffers a)
        (m_commandPool a) (m_vCommandBuffers a) (m_vImageAvailableSemaphores a)
        (m_vRenderFinishedSemaphores a) x (m_vImagesInFlight a) (m_currentFrame a)
        (m_framebufferResized a).

Definition set_m_vImagesInFlight x (a : VulkanApp) : VulkanApp :=
  mkApp (m_physicalDevice a) (m_graphicsQueue a) (m_presentQueue a) (m_currentSwapChain a)
        (m_oldSwapChain a) (m_vSwapChainImages a) (m_swapChainImageFormat a)
        (m_swapChainExtent a) (m_vSwapChainImageViews a) (m_renderPass a)
        (m_pipelineLayout a) (m_graphicsPipeline a) (m_vSwapChainFramebuffers a)
        (m_commandPool a) (m_vCommandBuffers a) (m_vImageAvailableSemaphores a)
        (m_vRenderFinishedSemaphores a) (m_vFences a) x (m_currentFrame a)
        (m_framebufferResized a).

Definition set_m_currentFrame x (a : VulkanApp) : VulkanApp :=
  mkApp (m_physicalDevice a) (m_graphicsQueue a) (m_presentQueue a) (m_currentSwapChain a)
        (m_oldSwapChain a) (m_vSwapChainImages a) (m_swapChainImageFormat a)
        (m_swapChainExtent a) (m_vSwapChainImageViews a) (m_renderPass a)
        (m_pipelineLayout a) (m_graphicsPipeline a) (m_vSwapChainFramebuffers a)
        (m_commandPool a) (m_vCommandBuffers a) (m_vImageAvailableSemaphores a)
        (m_vRenderFinishedSemaphores a) (m_vFences a) (m_vImagesInFlight a) x
        (m_framebufferResized a).

Definition set_m_framebufferResized x (a : VulkanApp) : VulkanApp :=
  mkApp (m_physicalDevice a) (m_graphicsQueue a) (m_presentQueue a) (m_currentSwapChain a)
        (m_oldSwapChain a) (m_vSwapChainImages a) (m_swapChainImageFormat a)
        (m_swapChainExtent a) (m_vSwapChainImageViews a) (m_renderPass a)
        (m_pipelineLayout a) (m_graphicsPipeline a) (m_vSwapChainFramebuffers a)
        (m_commandPool a) (m_vCommandBuffers a) (m_vImageAvailableSemaphores a)
        (m_vRenderFinishedSemaphores a) (m_vFences a) (m_vImagesInFlight a)
        (m_currentFrame a) x.

(** The device as the program can observe it: which fences are signalled
    and which queue submissions have not finished executing.  A fence
    handle is the position of the fence in [fences]. *)
Record Device : Type := mkDevice {
  fences  : list bool;
  pending : list (Handle * nat);   (* queue, fence signalled on completion *)
  next_id : nat                    (* handles given out so far *)
}.

Inductive VkObject : Type :=
| Swapchain | ImageView | RenderPass | ShaderModule | PipelineLayout | Pipeline
| Framebuffer | CommandBuffers | Semaphore | Fence.

Inductive Member : Type :=
| mDrawFrame | mRecreateSwapChain | mCleanupSwapChain | mCreateSwapChain
| mCreateImageViews | mCreateRenderPass | mCreateGraphicsPipeline
| mCreateFramebuffers | mCreateCommandBuffers | mCreateSyncObjects.

(** The calls a run makes, in order, with what they were given and what
    they answered. *)
Inductive Event : Type :=
| EvMember (f : Member)
| EvWindowShouldClose (answer : bool)
| EvPollEvents
| EvWaitEvents
| EvResizeCallBack
| EvGetFramebufferSize (w h : Z)
| EvDeviceWaitIdle
| EvQueueWaitIdle (queue : Handle)
| EvWaitForFences (fence : Handle)
| EvResetFences (fence : Handle)
| EvAcquireNextImage (chain semaphore : Handle) (result : VkResult) (imageIndex : nat)
| EvQueueSubmit (queue commandBuffer fence : Handle) (result : VkResult)
| EvQueuePresent (queue chain : Handle) (imageIndex : nat) (result : VkResult)
| EvQuerySwapChainSupport
| EvCreate (kind : VkObject) (oldSwapchain : Handle) (result : VkResult) (h : Handle)
| EvDestroy (kind : VkObject) (h : Handle)
| EvGetSwapchainImages (chain : Handle) (count : nat)
| EvAllocateCommandBuffers (pool : Handle) (count : nat) (result : VkResult)
| EvFreeCommandBuffers (pool : Handle) (count : nat)
| EvReadFile (filename : string) (opened : bool)
| EvBeginCommandBuffer (commandBuffer : Handle) (result : VkResult)
| EvCmdBeginRenderPass (commandBuffer renderPass framebuffer : Handle)
| EvCmdBindPipeline (commandBuffer pipeline : Handle)
| EvCmdDraw (commandBuffer : Handle)
| EvCmdEndRenderPass (commandBuffer : Handle)
| EvEndCommandBuffer (commandBuffer : Handle) (result : VkResult).

(** What the world outside the program answers.  Calls are numbered in the
    order they are made; answer [t] is the one given to call number [t]. *)
Record Env : Type := mkEnv {
  gpu_completes     : nat -> list nat;   (* fences whose work finishes just before call t *)
  should_close      : nat -> bool;
  resize_event      : nat -> bool;       (* the resize callback runs during this event call *)
  framebuffer_size  : nat -> Z * Z;
  acquire_answer    : nat -> VkResult * nat;
  submit_answer     : nat -> VkResult;
  present_answer    : nat -> VkResult;
  create_answer     : nat -> VkResult;
  surface_support   : nat -> SwapChainSupportDetails;
  swapchain_images  : nat -> nat;
  file_opens        : nat -> bool
}.

Record State : Type := mkState {
  app    : VulkanApp;
  device : Device;
  clock  : nat
}.

(** A run: how it ended, the state it left, the calls it made and the
    device states it went through, one after every change and every call. *)
Record Run (A : Type) : Type := mkRun {
  outcome : Outcome A;
  final   : State;
  calls   : list Event;
  history : list Device
}.

Arguments mkRun {A}.
Arguments outcome {A}.
Arguments final {A}.
Arguments calls {A}.
Arguments history {A}.

Definition M (A : Type) : Type := State -> Run A.

Definition ret {A} (a : A) : M A := fun s => mkRun (Done a) s [] [].

Definition stop {A B} (o : Outcome A) : Outcome B :=
  match o with
  | Done _ => Blocked
  | Fatal what => Fatal what
  | Blocked => Blocked
  | OutOfBounds => OutOfBounds
  end.

Definition bind {A B} (m : M A) (k : A -> M B) : M B :=
  fun s =>
    let r := m s in
    match outcome r with
    | Done a =>
        let r' := k a (final r) in
        mkRun (outcome r') (final r') (calls r ++ calls r') (history r ++ history r')
    | o => mkRun (stop o) (final r) (calls r) (history r)
    end.

Declare Scope vk_scope.
Delimit Scope vk_scope with vk.
Notation "x <- m ;; k" := (bind m (fun x => k))
  (at level 61, m at next level, right associativity) : vk_scope.
Notation "' pat <- m ;; k" := (bind m (fun x => match x with pat => k end))
  (at level 61, pat pattern, m at next level, right associativity) : vk_scope.
Notation "m ;; k" := (bind m (fun _ => k))
  (at level 61, right associativity) : vk_scope.
Local Open Scope vk_scope.

(** [throw std::runtime_error(what)]. *)
Definition throw {A} (what : string) : M A := fun s => mkRun (Fatal what) s [] [].

Definition blocked {A} : M A := fun s => mkRun Blocked s [] [].

Definition lift {A} (o : Outcome A) : M A := fun s => mkRun o s [] [].

(** Reading and writing data members. *)
Definition member {A} (f : VulkanApp -> A) : M A := fun s => ret (f (app s)) s.

Definition store (f : VulkanApp -> VulkanApp) : M unit :=
  fun s => ret tt (mkState (f (app s)) (device s) (clock s)).

(** [v[i]]. *)
Definition at_index {A} (v : list A) (i : nat) : M A :=
  match nth_error v i with
  | Some x => ret x
  | None => lift OutOfBounds
  end.

(** [optional::value()]. *)
Definition value {A} (o : option A) : M A :=
  match o with
  | Some x => ret x
  | None => throw "bad optional access"
  end.

Definition log (e : Event) : M unit := fun s => mkRun (Done tt) s [e] [].

(** Entering a member function. *)
Definition enter (f : Member) : M unit := log (EvMember f).

Fixpoint for_each {A} (v : list A) (body : A -> M unit) : M unit :=
  match v with
  | [] => ret tt
  | x :: rest => body x ;; for_each rest body
  end.

(** [for (i = from; i < from + n; i++) body(i)]. *)
Fixpoint for_range (from n : nat) (body : nat -> M unit) : M unit :=
  match n with
  | O => ret tt
  | S n' => body from ;; for_range (S from) n' body
  end.

(* ------------------------------------------------------------------ *)
(** *** The device *)

(** The submissions selected by [p] finish: their fences become signalled. *)
Definition finish (p : Handle * nat -> bool) (d : Device) : Device :=
  mkDevice
    (fold_left (fun fs e => assign (snd e) true fs) (filter p (pending d)) (fences d))
    (filter (fun e => negb (p e)) (pending d))
    (next_id d).

Definition signals (f : nat) (e : Handle * nat) : bool := Nat.eqb (snd e) f.
Definition on_queue (q : Handle) (e : Handle * nat) : bool := Handle_eqb (fst e) q.

Definition signalled (d : Device) (f : nat) : bool :=
  match nth_error (fences d) f with Some b => b | None => false end.

Definition is_pending (d : Device) (f : nat) : bool := existsb (signals f) (pending d).

(** Frames whose submitted work has not finished, and fences that are not
    signalled. *)
Definition outstanding (d : Device) : nat := List.length (pending d).
Definition unsignalled (d : Device) : nat := List.length (filter negb (fences d)).

Section Calls.

Variable env : Env.

(** The device moves on by itself between two calls of the program. *)
Definition gpu_step (s : State) : State :=
  mkState (app s)
          (fold_left (fun d f => finish (signals f) d) (gpu_completes env (clock s)) (device s))
          (S (clock s)).

(** One call into Vulkan or GLFW.  [f] gets the state at the time of the
    call and the number of the call. *)
Definition external {A} (f : nat -> State -> Outcome A * State * list Event) : M A :=
  fun s =>
    let s1 := gpu_step s in
    let '(o, s2, es) := f (clock s) s1 in
    mkRun o s2 es [device s1; device s2].

Definition with_device (s : State) (d : Device) : State := mkState (app s) d (clock s).

(** [vkWaitForFences(m_device, 1, &fence, VK_TRUE, UINT64_MAX)]: returns
    once the fence is signalled, which happens when the submission that
    signals it finishes.  A fence that nothing will signal is waited for
    for ever. *)
Definition vkWaitForFences (fence : Handle) : M unit :=
  external (fun _ s =>
    match fence with
    | Some f =>
        if signalled (device s) f then (Done tt, s, [EvWaitForFences fence])
        else if is_pending (device s) f
             then (Done tt, with_device s (finish (signals f) (device s)), [EvWaitForFences fence])
             else (Blocked, s, [EvWaitForFences fence])
    | None => (Blocked, s, [EvWaitForFences fence])
    end).

Definition vkResetFences (fence : Handle) : M unit :=
  external (fun _ s =>
    match fence with
    | Some f =>
        (Done tt,
         with_device s (mkDevice (assign f false (fences (device s)))
                                 (pending (device s)) (next_id (device s))),
         [EvResetFences fence])
    | None => (Done tt, s, [EvResetFences fence])
    end).

Definition vkQueueSubmit (queue commandBuffer fence : Handle) : M VkResult :=
  external (fun t s =>
    let result := submit_answer env t in
    let d := device s in
    let d' :=
      match result, fence with
      | VK_SUCCESS, Some f => mkDevice (fences d) (pending d ++ [(queue, f)]) (next_id d)
      | _, _ => d
      end in
    (Done result, with_device s d', [EvQueueSubmit queue commandBuffer fence result])).

Definition vkDeviceWaitIdle : M unit :=
  external (fun _ s =>
    (Done tt, with_device s (finish (fun _ => true) (device s)), [EvDeviceWaitIdle])).

Definition vkQueueWaitIdle (queue : Handle) : M unit :=
  external (fun _ s =>
    (Done tt, with_device s (finish (on_queue queue) (device s)), [EvQueueWaitIdle queue])).

Definition vkAcquireNextImageKHR (chain semaphore : Handle) : M (VkResult * nat) :=
  external (fun t s =>
    let '(result, imageIndex) := acquire_answer env t in
    (Done (result, imageIndex), s, [EvAcquireNextImage chain semaphore result imageIndex])).

Definition vkQueuePresentKHR (queue chain : Handle) (imageIndex : nat) : M VkResult :=
  external (fun t s =>
    let result := present_answer env t in
    (Done result, s, [EvQueuePresent queue chain imageIndex result])).

(** [vkCreate...]: on success a new handle is written. *)
Definition vkCreate (kind : VkObject) (oldSwapchain : Handle) : M (VkResult * Handle) :=
  external (fun t s =>
    let result := create_answer env t in
    let d := device s in
    match result with
    | VK_SUCCESS =>
        let h := Some (next_id d) in
        (Done (result, h),
         with_device s (mkDevice (fences d) (pending d) (S (next_id d))),
         [EvCreate kind oldSwapchain result h])
    | _ => (Done (result, VK_NULL_HANDLE), s, [EvCreate kind oldSwapchain result VK_NULL_HANDLE])
    end).

(** [vkCreateFence] with [VK_FENCE_CREATE_SIGNALED_BIT]. *)
Definition vkCreateFence : M (VkResult * Handle) :=
  external (fun t s =>
    let result := create_answer env t in
    let d := device s in
    match result with
    | VK_SUCCESS =>
        let h := Some (List.length (fences d)) in
        (Done (result, h),
         with_device s (mkDevice (fences d ++ [true]) (pending d) (next_id d)),
         [EvCreate Fence VK_NULL_HANDLE result h])
    | _ => (Done (result, VK_NULL_HANDLE), s, [EvCreate Fence VK_NULL_HANDLE result VK_NULL_HANDLE])
    end).

(** Calls that change nothing the program observes. *)
Definition plain {A} (answer : nat -> A) (e : A -> Event) : M A :=
  external (fun t s => (Done (answer t), s, [e (answer t)])).

Definition call (e : Event) : M unit :=
  external (fun _ s => (Done tt, s, [e])).

Definition vkDestroy (kind : VkObject) (h : Handle) : M unit := call (EvDestroy kind h).

(** Handles [next_id], ..., [next_id + n - 1]. *)
Definition fresh (n : nat) (d : Device) : list Handle := map Some (seq (next_id d) n).

Definition take (n : nat) (d : Device) : Device :=
  mkDevice (fences d) (pending d) (next_id d + n).

(** [vkGetSwapchainImagesKHR]: first the count, then the handles. *)
Definition vkGetSwapchainImagesKHR_count (chain : Handle) : M nat :=
  external (fun t s =>
    (Done (swapchain_images env t), s, [EvGetSwapchainImages chain (swapchain_images env t)])).

Definition vkGetSwapchainImagesKHR (chain : Handle) (imageCount : nat) : M (list Handle) :=
  external (fun _ s =>
    (Done (fresh imageCount (device s)), with_device s (take imageCount (device s)),
     [EvGetSwapchainImages chain imageCount])).

Definition vkAllocateCommandBuffers (pool : Handle) (count : nat) : M (VkResult * list Handle) :=
  external (fun t s =>
    let result := create_answer env t in
    match result with
    | VK_SUCCESS =>
        (Done (result, fresh count (device s)), with_device s (take count (device s)),
         [EvAllocateCommandBuffers pool count result])
    | _ => (Done (result, []), s, [EvAllocateCommandBuffers pool count result])
    end).

Definition vkBeginCommandBuffer (commandBuffer : Handle) : M VkResult :=
  plain (create_answer env) (EvBeginCommandBuffer commandBuffer).

Definition vkEndCommandBuffer (commandBuffer : Handle) : M VkResult :=
  plain (create_answer env) (EvEndCommandBuffer commandBuffer).

Definition glfwWindowShouldClose : M bool := plain (should_close env) EvWindowShouldClose.

Definition glfwGetFramebufferSize : M (Z * Z) :=
  plain (framebuffer_size env) (fun wh => EvGetFramebufferSize (fst wh) (snd wh)).

(** [VulkanApp::FrameBufferResizeCallBack]. *)
Definition FrameBufferResizeCallBack (a : VulkanApp) : VulkanApp :=
  set_m_framebufferResized true a.

(** [glfwPollEvents] and [glfwWaitEvents] run the callbacks of the events
    that arrived. *)
Definition process_events (e : Event) : M unit :=
  external (fun t s =>
    if resize_event env t
    then (Done tt, mkState (FrameBufferResizeCallBack (app s)) (device s) (clock s),
          [e; EvResizeCallBack])
    else (Done tt, s, [e])).

Definition glfwPollEvents : M unit := process_events EvPollEvents.
Definition glfwWaitEvents : M unit := process_events EvWaitEvents.

End Calls.

(* ================================================================== *)
(** ** Member functions of [VulkanApp] *)

Section Members.

Variable env : Env.

Definition succeeded (r : VkResult) : bool := VkResult_eqb r VK_SUCCESS.

(** [QuerySwapChainSupport(m_physicalDevice)] asks the surface again. *)
Definition QuerySwapChainSupport : M SwapChainSupportDetails :=
  plain env (surface_support env) (fun _ => EvQuerySwapChainSupport).

(** [ReadFile] of [VulkanUtils.h], as far as the program depends on it. *)
Definition ReadFile (filename : string) : M unit :=
  opened <- plain env (file_opens env) (EvReadFile filename) ;;
  if opened then ret tt else throw "Failed to open file!".

Definition CreateShaderModule : M Handle :=
  '(result, shaderModule) <- vkCreate env ShaderModule VK_NULL_HANDLE ;;
  if succeeded result then ret shaderModule
  else throw "Failed to create shader module!".

(** [VulkanApp::CreateSwapChain]. *)
Definition CreateSwapChain : M unit :=
  enter mCreateSwapChain ;;
  SWAP_CHAIN_SUPPORT <- QuerySwapChainSupport ;;
  surfaceFormat <-
    match ChooseSwapSurfaceFormat (formats SWAP_CHAIN_SUPPORT) with
    | Some f => ret f
    | None => lift OutOfBounds
    end ;;
  let presentMode := ChooseSwapPresentMode (presentModes SWAP_CHAIN_SUPPORT) in
  framebufferSize <-
    (if width (currentExtent (capabilities SWAP_CHAIN_SUPPORT)) =? UINT32_MAX
     then glfwGetFramebufferSize env else ret (0, 0))%Z ;;
  let extent := ChooseSwapExtent framebufferSize (capabilities SWAP_CHAIN_SUPPORT) in
  let imageCount := requested_image_count (capabilities SWAP_CHAIN_SUPPORT) in
  physicalDevice <- member m_physicalDevice ;;
  let indices := FindQueueFamilies physicalDevice in
  value (graphicsFamily indices) ;;
  value (presentFamily indices) ;;
  oldSwapchain <- member m_oldSwapChain ;;
  '(retcode, chain) <- vkCreate env Swapchain oldSwapchain ;;
  (if succeeded retcode then store (set_m_currentSwapChain chain) else ret tt) ;;
  lift (ASSERT (succeeded retcode) "Failed to create swap chain!") ;;
  current <- member m_currentSwapChain ;;
  imageCount <- vkGetSwapchainImagesKHR_count env current ;;
  store (fun a => set_m_vSwapChainImages
                    (resize imageCount VK_NULL_HANDLE (m_vSwapChainImages a)) a) ;;
  images <- vkGetSwapchainImagesKHR env current imageCount ;;
  store (set_m_vSwapChainImages images) ;;
  store (set_m_swapChainImageFormat (format surfaceFormat)) ;;
  store (set_m_swapChainExtent extent).

(** [VulkanApp::CreateImageViews]. *)
Definition CreateImageViews : M unit :=
  enter mCreateImageViews ;;
  store (fun a => set_m_vSwapChainImageViews
                    (resize (List.length (m_vSwapChainImages a)) VK_NULL_HANDLE
                            (m_vSwapChainImageViews a)) a) ;;
  views <- member m_vSwapChainImageViews ;;
  for_range 0 (List.length views) (fun i =>
    images <- member m_vSwapChainImages ;;
    at_index images i ;;
    '(result, view) <- vkCreate env ImageView VK_NULL_HANDLE ;;
    (if succeeded result
     then store (fun a => set_m_vSwapChainImageViews (assign i view (m_vSwapChainImageViews a)) a)
     else ret tt) ;;
    if succeeded result then ret tt else throw "Failed to create image views!").

(** [VulkanApp::CreateRenderPass]. *)
Definition CreateRenderPass : M unit :=
  enter mCreateRenderPass ;;
  '(result, renderPass) <- vkCreate env RenderPass VK_NULL_HANDLE ;;
  (if succeeded result then store (set_m_renderPass renderPass) else ret tt) ;;
  if succeeded result then ret tt else throw "Failed to create render pass!".

(** [VulkanApp::CreateGraphicsPipeline]. *)
Definition CreateGraphicsPipeline : M unit :=
  enter mCreateGraphicsPipeline ;;
  ReadFile "shaders/vert.spv" ;;
  ReadFile "shaders/frag.spv" ;;
  vertShaderModule <- CreateShaderModule ;;
  fragShaderModule <- CreateShaderModule ;;
  '(result, layout) <- vkCreate env PipelineLayout VK_NULL_HANDLE ;;
  (if succeeded result then store (set_m_pipelineLayout layout) else ret tt) ;;
  (if succeeded result then ret tt else throw "Failed to create pipeline layout!") ;;
  '(result, pipeline) <- vkCreate env Pipeline VK_NULL_HANDLE ;;
  (if succeeded result then store (set_m_graphicsPipeline pipeline) else ret tt) ;;
  (if succeeded result then ret tt else throw "Failed to create graphics pipeline!") ;;
  vkDestroy env ShaderModule fragShaderModule ;;
  vkDestroy env ShaderModule vertShaderModule.

(** [VulkanApp::CreateFramebuffers]. *)
Definition CreateFramebuffers : M unit :=
  enter mCreateFramebuffers ;;
  store (fun a => set_m_vSwapChainFramebuffers
                    (resize (List.length (m_vSwapChainImageViews a)) VK_NULL_HANDLE
                            (m_vSwapChainFramebuffers a)) a) ;;
  views <- member m_vSwapChainImageViews ;;
  for_range 0 (List.length views) (fun i =>
    views <- member m_vSwapChainImageViews ;;
    at_index views i ;;
    '(result, framebuffer) <- vkCreate env Framebuffer VK_NULL_HANDLE ;;
    (if succeeded result
     then store (fun a => set_m_vSwapChainFramebuffers
                            (assign i framebuffer (m_vSwapChainFramebuffers a)) a)
     else ret tt) ;;
    if succeeded result then ret tt else throw "Failed to create framebuffer!").

(** [VulkanApp::CreateCommandBuffers]. *)
Definition CreateCommandBuffers : M unit :=
  enter mCreateCommandBuffers ;;
  store (fun a => set_m_vCommandBuffers
                    (resize (List.length (m_vSwapChainFramebuffers a)) VK_NULL_HANDLE
                            (m_vCommandBuffers a)) a) ;;
  commandPool <- member m_commandPool ;;
  buffers <- member m_vCommandBuffers ;;
  '(result, allocated) <- vkAllocateCommandBuffers env commandPool (List.length buffers) ;;
  (if succeeded result then store (set_m_vCommandBuffers allocated) else ret tt) ;;
  (if succeeded result then ret tt else throw "Failed to allocate command buffers!") ;;
  buffers <- member m_vCommandBuffers ;;
  for_range 0 (List.length buffers) (fun i =>
    buffers <- member m_vCommandBuffers ;;
    commandBuffer <- at_index buffers i ;;
    result <- vkBeginCommandBuffer env commandBuffer ;;
    (if succeeded result then ret tt
     else throw "Failed to begin recording command buffer!") ;;
    renderPass <- member m_renderPass ;;
    framebuffers <- member m_vSwapChainFramebuffers ;;
    framebuffer <- at_index framebuffers i ;;
    call env (EvCmdBeginRenderPass commandBuffer renderPass framebuffer) ;;
    pipeline <- member m_graphicsPipeline ;;
    call env (EvCmdBindPipeline commandBuffer pipeline) ;;
    call env (EvCmdDraw commandBuffer) ;;
    call env (EvCmdEndRenderPass commandBuffer) ;;
    result <- vkEndCommandBuffer env commandBuffer ;;
    if succeeded result then ret tt else throw "Failed to record command buffer!").

(** [VulkanApp::CreateSyncObjects]. *)
Definition CreateSyncObjects : M unit :=
  enter mCreateSyncObjects ;;
  store (fun a => set_m_vImageAvailableSemaphores
                    (resize MAX_FRAMES_IN_FLIGHT VK_NULL_HANDLE (m_vImageAvailableSemaphores a)) a) ;;
  store (fun a => set_m_vRenderFinishedSemaphores
                    (resize MAX_FRAMES_IN_FLIGHT VK_NULL_HANDLE (m_vRenderFinishedSemaphores a)) a) ;;
  store (fun a => set_m_vFences (resize MAX_FRAMES_IN_FLIGHT VK_NULL_HANDLE (m_vFences a)) a) ;;
  store (fun a => set_m_vImagesInFlight
                    (resize (List.length (m_vSwapChainImageViews a)) VK_NULL_HANDLE
                            (m_vImagesInFlight a)) a) ;;
  for_range 0 MAX_FRAMES_IN_FLIGHT (fun i =>
    '(result, semaphore) <- vkCreate env Semaphore VK_NULL_HANDLE ;;
    (if succeeded result
     then store (fun a => set_m_vImageAvailableSemaphores
                            (assign i semaphore (m_vImageAvailableSemaphores a)) a)
     else ret tt) ;;
    if negb (succeeded result) then throw "Failed to create semaphores for a frame!"
    else
    '(result, semaphore) <- vkCreate env Semaphore VK_NULL_HANDLE ;;
    (if succeeded result
     then store (fun a => set_m_vRenderFinishedSemaphores
                            (assign i semaphore (m_vRenderFinishedSemaphores a)) a)
     else ret tt) ;;
    if negb (succeeded result) then throw "Failed to create semaphores for a frame!"
    else
    '(result, fence) <- vkCreateFence env ;;
    (if succeeded result
     then store (fun a => set_m_vFences (assign i fence (m_vFences a)) a)
     else ret tt) ;;
    if negb (succeeded result) then throw "Failed to create semaphores for a frame!"
    else ret tt).

(** [VulkanApp::CleanupSwapChain]. *)
Definition CleanupSwapChain : M unit :=
  enter mCleanupSwapChain ;;
  framebuffers <- member m_vSwapChainFramebuffers ;;
  for_each framebuffers (fun framebuffer => vkDestroy env Framebuffer framebuffer) ;;
  commandPool <- member m_commandPool ;;
  buffers <- member m_vCommandBuffers ;;
  call env (EvFreeCommandBuffers commandPool (List.length buffers)) ;;
  graphicsPipeline <- member m_graphicsPipeline ;;
  vkDestroy env Pipeline graphicsPipeline ;;
  pipelineLayout <- member m_pipelineLayout ;;
  vkDestroy env PipelineLayout pipelineLayout ;;
  renderPass <- member m_renderPass ;;
  vkDestroy env RenderPass renderPass ;;
  views <- member m_vSwapChainImageViews ;;
  for_each views (fun view => vkDestroy env ImageView view) ;;
  oldSwapChain <- member m_oldSwapChain ;;
  vkDestroy env Swapchain oldSwapChain ;;
  currentSwapChain <- member m_currentSwapChain ;;
  vkDestroy env Swapchain currentSwapChain.

(** The [while (width == 0 || height == 0)] loop of
    [VulkanApp::RecreateSwapChain]; [fuel] bounds the number of rounds
    looked at, and the loop is still waiting when it runs out. *)
Fixpoint wait_while_minimised (fuel : nat) (width height : Z) : M unit :=
  if ((width =? 0) || (height =? 0))%Z then
    match fuel with
    | O => blocked
    | S fuel' =>
        '(width, height) <- glfwGetFramebufferSize env ;;
        glfwWaitEvents env ;;
        wait_while_minimised fuel' width height
    end
  else ret tt.

(** [VulkanApp::RecreateSwapChain]. *)
Definition RecreateSwapChain (fuel : nat) : M unit :=
  enter mRecreateSwapChain ;;
  '(width, height) <- glfwGetFramebufferSize env ;;
  wait_while_minimised fuel width height ;;
  vkDeviceWaitIdle env ;;
  CleanupSwapChain ;;
  CreateSwapChain ;;
  CreateImageViews ;;
  CreateRenderPass ;;
  CreateGraphicsPipeline ;;
  CreateFramebuffers ;;
  CreateCommandBuffers.

Definition is_null (h : Handle) : bool := Handle_eqb h VK_NULL_HANDLE.

(** [VulkanApp::DrawFrame]. *)
Definition DrawFrame (fuel : nat) : M unit :=
  enter mDrawFrame ;;
  currentFrame <- member m_currentFrame ;;
  vFences <- member m_vFences ;;
  fence <- at_index vFences currentFrame ;;
  vkWaitForFences env fence ;;
  semaphores <- member m_vImageAvailableSemaphores ;;
  imageAvailable <- at_index semaphores currentFrame ;;
  chain <- member m_currentSwapChain ;;
  '(result, imageIndex) <- vkAcquireNextImageKHR env chain imageAvailable ;;
  if VkResult_eqb result VK_ERROR_OUT_OF_DATE_KHR then
    RecreateSwapChain fuel
  else
  if negb (VkResult_eqb result VK_SUCCESS) && negb (VkResult_eqb result VK_SUBOPTIMAL_KHR) then
    throw "Failed to acquire swap chain image!"
  else
  inFlight <- member m_vImagesInFlight ;;
  imageFence <- at_index inFlight imageIndex ;;
  (if negb (is_null imageFence) then vkWaitForFences env imageFence else ret tt) ;;
  store (fun a => set_m_vImagesInFlight (assign imageIndex fence (m_vImagesInFlight a)) a) ;;
  buffers <- member m_vCommandBuffers ;;
  commandBuffer <- at_index buffers imageIndex ;;
  semaphores <- member m_vRenderFinishedSemaphores ;;
  renderFinished <- at_index semaphores currentFrame ;;
  vkResetFences env fence ;;
  graphicsQueue <- member m_graphicsQueue ;;
  submitted <- vkQueueSubmit env graphicsQueue commandBuffer fence ;;
  (if succeeded submitted then ret tt else throw "Failed to submit draw command buffer!") ;;
  inFlight <- member m_vImagesInFlight ;;
  imageFence <- at_index inFlight imageIndex ;;
  (if negb (is_null imageFence) then vkWaitForFences env imageFence else ret tt) ;;
  presentQueue <- member m_presentQueue ;;
  result <- vkQueuePresentKHR env presentQueue chain imageIndex ;;
  framebufferResized <- member m_framebufferResized ;;
  (if VkResult_eqb result VK_ERROR_OUT_OF_DATE_KHR || VkResult_eqb result VK_SUBOPTIMAL_KHR
      || framebufferResized
   then store (set_m_framebufferResized false) ;; RecreateSwapChain fuel
   else if negb (succeeded result) then throw "Failed to present swap chain image!"
   else ret tt) ;;
  vkQueueWaitIdle env presentQueue ;;
  store (set_m_currentFrame ((currentFrame + 1) mod MAX_FRAMES_IN_FLIGHT)).

(** [VulkanApp::MainLoop], cut after [n] rounds of the loop. *)
Fixpoint MainLoop (fuel n : nat) : M unit :=
  match n with
  | O => blocked
  | S n' =>
      close <- glfwWindowShouldClose env ;;
      if close then vkDeviceWaitIdle env
      else glfwPollEvents env ;; DrawFrame fuel ;; MainLoop fuel n'
  end.

End Members.

(* ================================================================== *)
(** ** Notions used to state the properties *)

(** Position of the first, and of the last, element satisfying [p]. *)
Fixpoint first_index {A} (p : A -> bool) (l : list A) : option nat :=
  match l with
  | [] => None
  | x :: rest => if p x then Some 0 else option_map S (first_index p rest)
  end.

Fixpoint last_index {A} (p : A -> bool) (l : list A) : option nat :=
  match l with
  | [] => None
  | x :: rest =>
      match last_index p rest with
      | Some k => Some (S k)
      | None => if p x then Some 0 else None
      end
  end.

(** How many queue families the scan looks at: up to and including the
    first position at which both roles have been seen, or all of them. *)
Definition scanned (l : list QueueFamily) : nat :=
  match first_index supports_graphics l, first_index supports_present l with
  | Some a, Some b => S (Nat.max a b)
  | _, _ => List.length l
  end.

(** The same count when the scan starts with some roles already seen. *)
Fixpoint scan_len (hg hp : bool) (l : list QueueFamily) : nat :=
  match l with
  | [] => 0
  | q :: rest =>
      let hg' := hg || supports_graphics q in
      let hp' := hp || supports_present q in
      if hg' && hp' then 1 else S (scan_len hg' hp' rest)
  end.

Definition with_families (l : list QueueFamily) (d : PhysicalDevice) : PhysicalDevice :=
  mkPhysicalDevice (deviceType d) (maxImageDimension2D d) (geometryShader d) l
                   (availableExtensions d) (swapChainSupport d).

(** [r] is [v] brought into the range from [lo] to [hi]. *)
Definition clamped (v lo hi r : Z) : Prop :=
  (lo <= r <= hi)%Z /\ ((lo <= v <= hi)%Z -> r = v) /\
  ((v < lo)%Z -> r = lo) /\ ((hi < v)%Z -> r = hi).

Definition INT_MAX : Z := 2147483647.

(** Device scoring. *)
Definition usable (d : PhysicalDevice) : bool := geometryShader d && DeviceSuitable d.

Definition bonus (d : PhysicalDevice) : Z :=
  if is_discrete (deviceType d) then 1000%Z else 0%Z.

(** Sample data. *)
Definition sample_caps : VkSurfaceCapabilitiesKHR :=
  mkCaps 2 8 (mkExtent UINT32_MAX UINT32_MAX) (mkExtent 1 1) (mkExtent 4096 4096).

Definition fixed_caps : VkSurfaceCapabilitiesKHR :=
  mkCaps 2 8 (mkExtent 800 600) (mkExtent 1 1) (mkExtent 4096 4096).

Definition sample_support : SwapChainSupportDetails :=
  mkSupport sample_caps [mkSurfaceFormat 50 0] [VK_PRESENT_MODE_FIFO_KHR].

Definition present_only : QueueFamily := mkQueueFamily 4 true.
Definition graphics_only : QueueFamily := mkQueueFamily 1 false.
Definition graphics_and_present : QueueFamily := mkQueueFamily 1 true.

Definition sample_device (t : VkPhysicalDeviceType) (maxDim : Z) : PhysicalDevice :=
  mkPhysicalDevice t maxDim true [graphics_and_present] [VK_KHR_SWAPCHAIN_EXTENSION_NAME]
                   sample_support.

Definition device_A : PhysicalDevice :=
  sample_device VK_PHYSICAL_DEVICE_TYPE_INTEGRATED_GPU 4096.
Definition device_B : PhysicalDevice :=
  sample_device VK_PHYSICAL_DEVICE_TYPE_DISCRETE_GPU 2048.
Definition device_wrap : PhysicalDevice :=
  sample_device VK_PHYSICAL_DEVICE_TYPE_DISCRETE_GPU UINT32_MAX.

(** Order of the keys of a [std::multimap]. *)
Definition key_le {V} (a b : Z * V) : Prop := (fst a <= fst b)%Z.

(* ------------------------------------------------------------------ *)
(** *** Runs *)

(** [Q] holds of what a run made, went through and left. *)
Definition post {A} (r : Run A)
           (Q : list Event -> list Device -> Outcome A -> State -> Prop) : Prop :=
  Q (calls r) (history r) (outcome r) (final r).

(** Every submission still executing has its own fence, and that fence is
    not signalled. *)
Definition consistent (d : Device) : Prop :=
  NoDup (map snd (pending d)) /\
  forall e, In e (pending d) -> nth_error (fences d) (snd e) = Some false.

(** [d'] comes after [d] when only submissions finished in between: no
    fence was created or reset and nothing was submitted. *)
Definition advances (d d' : Device) : Prop :=
  List.length (fences d') = List.length (fences d) /\
  (forall f, signalled d f = true -> signalled d' f = true) /\
  (forall e, In e (pending d') -> In e (pending d)) /\
  (consistent d -> consistent d') /\
  (forall f, is_pending d f = false -> nth_error (fences d') f = nth_error (fences d) f).

(** A computation that only lets the device advance, makes calls in [phi]
    and keeps the data members related by [K]. *)
Definition quiet {A} (phi : Event -> Prop) (K : VulkanApp -> VulkanApp -> Prop)
           (m : M A) : Prop :=
  forall s,
    Forall phi (calls (m s)) /\
    K (app s) (app (final (m s))) /\
    advances (device s) (device (final (m s))) /\
    Forall (advances (device s)) (history (m s)).

(** The members the frame loop depends on and a rebuild leaves alone. *)
Definition same_slots (a a' : VulkanApp) : Prop :=
  m_vFences a' = m_vFences a /\
  m_vImagesInFlight a' = m_vImagesInFlight a /\
  m_currentFrame a' = m_currentFrame a /\
  m_vImageAvailableSemaphores a' = m_vImageAvailableSemaphores a /\
  m_vRenderFinishedSemaphores a' = m_vRenderFinishedSemaphores a /\
  m_graphicsQueue a' = m_graphicsQueue a /\
  m_presentQueue a' = m_presentQueue a /\
  m_oldSwapChain a' = m_oldSwapChain a.

(** The same, and the swap chain is still the same one. *)
Definition same_chain (a a' : VulkanApp) : Prop :=
  same_slots a a' /\ m_currentSwapChain a' = m_currentSwapChain a.

(** Kinds of calls. *)
Definition is_rebuild (e : Event) : bool :=
  match e with EvMember mRecreateSwapChain => true | _ => false end.

Definition is_submit (e : Event) : bool :=
  match e with EvQueueSubmit _ _ _ _ => true | _ => false end.

Definition is_present (e : Event) : bool :=
  match e with EvQueuePresent _ _ _ _ => true | _ => false end.

Definition is_acquire (e : Event) : bool :=
  match e with EvAcquireNextImage _ _ _ _ => true | _ => false end.

Definition is_reset (e : Event) : bool :=
  match e with EvResetFences _ => true | _ => false end.

Definition creates_swapchain (e : Event) : bool :=
  match e with EvCreate Swapchain _ _ _ => true | _ => false end.

Definition destroys_swapchain (h : Handle) (e : Event) : bool :=
  match e with EvDestroy Swapchain h' => Handle_eqb h h' | _ => false end.

(** Calls that build a part of the swap chain or of what hangs on it. *)
Definition is_construction (e : Event) : bool :=
  match e with
  | EvCreate _ _ _ _ | EvGetSwapchainImages _ _ | EvAllocateCommandBuffers _ _ _
  | EvBeginCommandBuffer _ _ | EvCmdBeginRenderPass _ _ _ | EvCmdBindPipeline _ _
  | EvCmdDraw _ | EvCmdEndRenderPass _ | EvEndCommandBuffer _ _
  | EvMember mCreateSwapChain | EvMember mCreateImageViews | EvMember mCreateRenderPass
  | EvMember mCreateGraphicsPipeline | EvMember mCreateFramebuffers
  | EvMember mCreateCommandBuffers => true
  | _ => false
  end.

(** Calls that take it down. *)
Definition is_teardown (e : Event) : bool :=
  match e with
  | EvDestroy _ _ | EvFreeCommandBuffers _ _ | EvMember mCleanupSwapChain => true
  | _ => false
  end.

(** What a rebuild does while it waits for the window to get an area. *)
Definition is_polling (e : Event) : bool :=
  match e with
  | EvMember mRecreateSwapChain | EvGetFramebufferSize _ _ | EvWaitEvents
  | EvResizeCallBack => true
  | _ => false
  end.

(** The calls of the frame itself: a rebuild makes none of them. *)
Definition is_frame_call (e : Event) : bool :=
  match e with
  | EvMember mDrawFrame | EvMember mRecreateSwapChain | EvWaitForFences _
  | EvResetFences _ | EvAcquireNextImage _ _ _ _ | EvQueueSubmit _ _ _ _
  | EvQueuePresent _ _ _ _ | EvQueueWaitIdle _ | EvPollEvents
  | EvWindowShouldClose _ => true
  | _ => false
  end.

Definition count (p : Event -> bool) (l : list Event) : nat := List.length (filter p l).

(** A framebuffer size with an area was seen. *)
Definition saw_area (l : list Event) : Prop :=
  exists w h, In (EvGetFramebufferSize w h) l /\ w <> 0%Z /\ h <> 0%Z.

(** Where a frame stands, as far as its fence goes: no frame was begun,
    [DrawFrame] was just entered, the fence of the slot was waited for,
    the fence was just reset, or the order was broken. *)
Inductive Phase : Type :=
| NoFrame
| Entered
| Waited (fence : Handle)
| JustReset (fence : Handle)
| Broken.

(** The order the calls of a frame have to keep: the first call of
    [DrawFrame] waits for a fence; only that fence is reset; the call
    after a reset is the submission that signals the same fence; and
    nothing is submitted but after such a reset. *)
Definition follow (p : Phase) (e : Event) : Phase :=
  match p with
  | Broken => Broken
  | Entered =>
      match e with
      | EvWaitForFences f => Waited f
      | _ => Broken
      end
  | JustReset f =>
      match e with
      | EvQueueSubmit _ _ f' _ => if Handle_eqb f f' then Waited f else Broken
      | _ => Broken
      end
  | Waited f =>
      match e with
      | EvMember mDrawFrame => Entered
      | EvResetFences f' => if Handle_eqb f f' then JustReset f else Broken
      | EvQueueSubmit _ _ _ _ => Broken
      | _ => Waited f
      end
  | NoFrame =>
      match e with
      | EvMember mDrawFrame => Entered
      | EvResetFences _ | EvQueueSubmit _ _ _ _ => Broken
      | _ => NoFrame
      end
  end.

Definition settled (p : Phase) : bool :=
  match p with
  | NoFrame | Waited _ => true
  | _ => false
  end.

(** The calls keep the order, and the last frame is not left between a
    reset and its submission. *)
Definition in_order (l : list Event) : Prop := settled (fold_left follow l NoFrame) = true.

(** The state the frame loop runs in: two fences, one per frame slot. *)
Definition frame_ready (s : State) : Prop :=
  m_currentFrame (app s) < MAX_FRAMES_IN_FLIGHT /\
  m_vFences (app s) = [Some 0; Some 1] /\
  List.length (fences (device s)) = MAX_FRAMES_IN_FLIGHT /\
  consistent (device s).

Definition bounded (d : Device) : Prop :=
  outstanding d <= MAX_FRAMES_IN_FLIGHT /\ unsignalled d <= MAX_FRAMES_IN_FLIGHT.

(** A device with the two fences of the frame slots, and a fence of it
    that no submission is going to signal. *)
Definition sound (d : Device) : Prop :=
  List.length (fences d) = MAX_FRAMES_IN_FLIGHT /\ consistent d.

Definition idle (d : Device) (f : nat) : Prop := is_pending d f = false.

(** The state [InitVulkan] is in when it reaches [CreateSyncObjects]: no
    fence exists and nothing has been submitted. *)
Definition before_sync_objects (s : State) : Prop :=
  fences (device s) = [] /\ pending (device s) = [] /\
  m_vFences (app s) = [] /\ m_vImageAvailableSemaphores (app s) = [] /\
  m_vRenderFinishedSemaphores (app s) = [] /\ m_currentFrame (app s) = 0.

(** A device with [k] fences, all signalled, and no submission. *)
Definition at_rest (k : nat) (d : Device) : Prop :=
  fences d = repeat true k /\ pending d = [].

(** Calls that are not the frame's own and do not create a swap chain. *)
Definition calm (e : Event) : bool := negb (is_frame_call e) && negb (creates_swapchain e).

Definition not_frame (e : Event) : Prop := is_frame_call e = false.
Definition is_calm (e : Event) : Prop := calm e = true.

(** The resize callback, and computations that do not run it and leave the
    resize flag as it is. *)
Definition is_resize_callback (e : Event) : bool :=
  match e with EvResizeCallBack => true | _ => false end.

Definition no_callback (e : Event) : Prop := is_resize_callback e = false.

Definition same_flag (a a' : VulkanApp) : Prop :=
  m_framebufferResized a' = m_framebufferResized a.

(** The resize flag is up after a computation exactly when it was up
    before it or the resize callback ran during it. *)
Definition tracks_flag {A} (m : M A) : Prop :=
  forall s,
    m_framebufferResized (app (final (m s))) = true <->
    m_framebufferResized (app s) = true \/ In EvResizeCallBack (calls (m s)).

Section Phases.

Variable env : Env.

(** [VulkanApp::RecreateSwapChain] up to the end of [CleanupSwapChain], and
    from [CreateSwapChain] on. *)
Definition teardown_phase (fuel : nat) : M unit :=
  enter mRecreateSwapChain ;;
  '(width, height) <- glfwGetFramebufferSize env ;;
  wait_while_minimised env fuel width height ;;
  vkDeviceWaitIdle env ;;
  CleanupSwapChain env.

Definition build_phase : M unit :=
  CreateSwapChain env ;;
  CreateImageViews env ;;
  CreateRenderPass env ;;
  CreateGraphicsPipeline env ;;
  CreateFramebuffers env ;;
  CreateCommandBuffers env.

End Phases.

(** The data members are what they were. *)
Definition unchanged (a b : VulkanApp) : Prop := b = a.

(* ------------------------------------------------------------------ *)
(** *** Sample runs *)

(** A world in which every call succeeds, the window is 800 by 600 and the
    device finishes work only when it is waited for. *)
Definition calm_env : Env :=
  mkEnv (fun _ => []) (fun _ => false) (fun _ => false) (fun _ => (800, 600)%Z)
        (fun t => (VK_SUCCESS, t mod 2)) (fun _ => VK_SUCCESS) (fun _ => VK_SUCCESS)
        (fun _ => VK_SUCCESS) (fun _ => sample_support) (fun _ => 2) (fun _ => true).

Definition with_acquire (f : nat -> VkResult * nat) (e : Env) : Env :=
  mkEnv (gpu_completes e) (should_close e) (resize_event e) (framebuffer_size e) f
        (submit_answer e) (present_answer e) (create_answer e) (surface_support e)
        (swapchain_images e) (file_opens e).

Definition with_present (f : nat -> VkResult) (e : Env) : Env :=
  mkEnv (gpu_completes e) (should_close e) (resize_event e) (framebuffer_size e)
        (acquire_answer e) (submit_answer e) f (create_answer e) (surface_support e)
        (swapchain_images e) (file_opens e).

Definition with_framebuffer_size (f : nat -> Z * Z) (e : Env) : Env :=
  mkEnv (gpu_completes e) (should_close e) (resize_event e) f (acquire_answer e)
        (submit_answer e) (present_answer e) (create_answer e) (surface_support e)
        (swapchain_images e) (file_opens e).

Definition with_swapchain_images (f : nat -> nat) (e : Env) : Env :=
  mkEnv (gpu_completes e) (should_close e) (resize_event e) (framebuffer_size e)
        (acquire_answer e) (submit_answer e) (present_answer e) (create_answer e)
        (surface_support e) f (file_opens e).


(** The window is minimised for the first four looks at its size. *)
Definition minimised_env : Env :=
  with_framebuffer_size (fun t => if t <? 8 then (0, 600)%Z else (800, 600)%Z) calm_env.

(** Presentation loses the device. *)
Definition lost_env : Env := with_present (fun _ => VK_ERROR_DEVICE_LOST) calm_env.

(** Presentation is suboptimal, the rebuilt chain has three images and the
    third one is acquired next. *)
Definition growing_env : Env :=
  with_swapchain_images (fun _ => 3)
    (with_acquire (fun t => if t <? 10 then (VK_SUCCESS, 0) else (VK_SUCCESS, 2))
       (with_present (fun _ => VK_SUBOPTIMAL_KHR) calm_env)).

(** The application when [InitVulkan] reaches [CreateSyncObjects], with a
    swap chain of two images. *)
Definition sample_app : VulkanApp :=
  mkApp device_A (Some 0) (Some 0) (Some 100) VK_NULL_HANDLE [Some 101; Some 102]
        VK_FORMAT_B8G8R8A8_SRGB (mkExtent 800 600) [Some 103; Some 104] (Some 105)
        (Some 106) (Some 107) [Some 108; Some 109] (Some 110) [Some 111; Some 112]
        [] [] [] [] 0 false.

Definition sample_start : State := mkState sample_app (mkDevice [] [] 200) 0.

(** The state after [CreateSyncObjects] in the calm world. *)
Definition sample_ready : State := final (CreateSyncObjects calm_env sample_start).

Definition resized (s : State) : State :=
  mkState (set_m_framebufferResized true (app s)) (device s) (clock s).

Section Stages.

Variable env : Env.

(** [VulkanApp::DrawFrame] from the presentation result on, from the second
    wait for the image on, and from the accepted acquisition on.  Lemma
    [DrawFrame_stages] shows that they are the ends of [DrawFrame]. *)
Definition frame_after_present (fuel currentFrame : nat) (presentQueue : Handle)
           (result : VkResult) : M unit :=
  framebufferResized <- member m_framebufferResized ;;
  (if VkResult_eqb result VK_ERROR_OUT_OF_DATE_KHR || VkResult_eqb result VK_SUBOPTIMAL_KHR
      || framebufferResized
   then store (set_m_framebufferResized false) ;; RecreateSwapChain env fuel
   else if negb (succeeded result) then throw "Failed to present swap chain image!"
   else ret tt) ;;
  vkQueueWaitIdle env presentQueue ;;
  store (set_m_currentFrame ((currentFrame + 1) mod MAX_FRAMES_IN_FLIGHT)).

Definition frame_after_submit (fuel currentFrame : nat) (chain : Handle)
           (imageIndex : nat) : M unit :=
  inFlight <- member m_vImagesInFlight ;;
  imageFence <- at_index inFlight imageIndex ;;
  (if negb (is_null imageFence) then vkWaitForFences env imageFence else ret tt) ;;
  presentQueue <- member m_presentQueue ;;
  result <- vkQueuePresentKHR env presentQueue chain imageIndex ;;
  frame_after_present fuel currentFrame presentQueue result.

Definition frame_after_acquire (fuel currentFrame : nat) (fence chain : Handle)
           (imageIndex : nat) : M unit :=
  inFlight <- member m_vImagesInFlight ;;
  imageFence <- at_index inFlight imageIndex ;;
  (if negb (is_null imageFence) then vkWaitForFences env imageFence else ret tt) ;;
  store (fun a => set_m_vImagesInFlight (assign imageIndex fence (m_vImagesInFlight a)) a) ;;
  buffers <- member m_vCommandBuffers ;;
  commandBuffer <- at_index buffers imageIndex ;;
  semaphores <- member m_vRenderFinishedSemaphores ;;
  renderFinished <- at_index semaphores currentFrame ;;
  vkResetFences env fence ;;
  graphicsQueue <- member m_graphicsQueue ;;
  submitted <- vkQueueSubmit env graphicsQueue commandBuffer fence ;;
  (if succeeded submitted then ret tt else throw "Failed to submit draw command buffer!") ;;
  frame_after_submit fuel currentFrame chain imageIndex.

(** What [DrawFrame] does with the answer of the acquisition. *)
Definition frame_on_acquired (fuel currentFrame : nat) (fence chain : Handle)
           (answer : VkResult * nat) : M unit :=
  let '(result, imageIndex) := answer in
  if VkResult_eqb result VK_ERROR_OUT_OF_DATE_KHR then
    RecreateSwapChain env fuel
  else
  if negb (VkResult_eqb result VK_SUCCESS) && negb (VkResult_eqb result VK_SUBOPTIMAL_KHR) then
    throw "Failed to acquire swap chain image!"
  else frame_after_acquire fuel currentFrame fence chain imageIndex.

End Stages.

(* ================================================================== *)
(** ** Validation layers and the queues of the logical device *)

(** [Constants.h]. *)
Definition g_vLayers : list string := ["VK_LAYER_KHRONOS_validation"%string].
Definition V_LAYERS : list string := g_vLayers.

(** What [vkEnumerateInstanceLayerProperties] answers: the count given by
    the first call, and the result of the second call with the layer names
    it leaves in the vector. *)
Record InstanceLayers : Type := mkInstanceLayers {
  layerCount         : nat;
  enumerate_layers   : VkResult;
  layers_written     : list string
}.

(** The inner loop of [VulkanApp::CheckValidationLayerSupport]:
    [strcmp(layerName, layerProperties.layerName) == 0] over the available
    layers, left at the first match. *)
Fixpoint layerFound (layerName : string) (availableLayers : list string) : bool :=
  match availableLayers with
  | [] => false
  | layerProperties :: rest =>
      if String.eqb layerName layerProperties then true else layerFound layerName rest
  end.

(** Its outer loop, which returns [false] at the first layer not found. *)
Fixpoint CheckValidationLayerSupport_loop (layers availableLayers : list string) : bool :=
  match layers with
  | [] => true
  | layerName :: rest =>
      if negb (layerFound layerName availableLayers) then false
      else CheckValidationLayerSupport_loop rest availableLayers
  end.

(** [VulkanApp::CheckValidationLayerSupport].  The vector is made of
    [layerCount] value-initialised entries, whose names are empty.  The
    second enumeration is the argument of [assert]: with [NDEBUG] it is not
    evaluated and the vector stays as it was made. *)
Definition CheckValidationLayerSupport (NDEBUG : bool) (instance : InstanceLayers)
  : Outcome bool :=
  let availableLayers := repeat EmptyString (layerCount instance) in
  if NDEBUG then Done (CheckValidationLayerSupport_loop V_LAYERS availableLayers)
  else
    let availableLayers := layers_written instance in
    if negb (VkResult_eqb (enumerate_layers instance) VK_SUCCESS)
    then Fatal "assert(vkEnumerateInstanceLayerProperties(&layerCount, availableLayers.data()) == VK_SUCCESS)"
    else Done (CheckValidationLayerSupport_loop V_LAYERS availableLayers).

(** [std::set<uint32_t>::insert]: the elements are kept in increasing order
    and an element already there is not added. *)
Fixpoint set_insert (x : nat) (s : list nat) : list nat :=
  match s with
  | [] => [x]
  | y :: rest =>
      if (x <? y)%nat then x :: s
      else if (x =? y)%nat then s
      else y :: set_insert x rest
  end.

(** The queue families [VulkanApp::CreateLogicalDevice] asks a queue from:
    [uniqueQueueFamilies], in the order the loop over the set visits them,
    which is the order of [queueCreateInfos]. *)
Definition uniqueQueueFamilies (indices : QueueFamilyIndices) : Outcome (list nat) :=
  match graphicsFamily indices with
  | None => Fatal "bad optional access"
  | Some graphics =>
      match presentFamily indices with
      | None => Fatal "bad optional access"
      | Some present => Done (set_insert present (set_insert graphics []))
      end
  end.

(* ------------------------------------------------------------------ *)
(** *** Further notions for the runs *)

Definition is_destroy (e : Event) : bool :=
  match e with EvDestroy _ _ => true | _ => false end.

Definition is_create (e : Event) : bool :=
  match e with EvCreate _ _ _ _ => true | _ => false end.

(** The vectors that hang on the swap chain have one entry per image. *)
Definition chain_aligned (a : VulkanApp) : Prop :=
  List.length (m_vSwapChainImageViews a) = List.length (m_vSwapChainImages a) /\
  List.length (m_vSwapChainFramebuffers a) = List.length (m_vSwapChainImages a) /\
  List.length (m_vCommandBuffers a) = List.length (m_vSwapChainImages a).

(** At most one submission is executing. *)
Definition single (d : Device) : Prop := outstanding d <= 1.

(** Every presentation in the calls [l] comes right after the wait for a
    fence, itself right after the successful submission that signals that
    fence. *)
Definition presents_after_wait (l : list Event) : Prop :=
  forall pre e post,
    l = pre ++ e :: post -> is_present e = true ->
    exists pre' queue commandBuffer f,
      pre = pre' ++ [EvQueueSubmit queue commandBuffer (Some f) VK_SUCCESS;
                     EvWaitForFences (Some f)].

Definition is_size_query (e : Event) : bool :=
  match e with EvGetFramebufferSize _ _ => true | _ => false end.

Definition with_submit (f : nat -> VkResult) (e : Env) : Env :=
  mkEnv (gpu_completes e) (should_close e) (resize_event e) (framebuffer_size e)
        (acquire_answer e) f (present_answer e) (create_answer e) (surface_support e)
        (swapchain_images e) (file_opens e).

Definition with_should_close (f : nat -> bool) (e : Env) : Env :=
  mkEnv (gpu_completes e) f (resize_event e) (framebuffer_size e)
        (acquire_answer e) (submit_answer e) (present_answer e) (create_answer e)
        (surface_support e) (swapchain_images e) (file_opens e).

Definition with_create (f : nat -> VkResult) (e : Env) : Env :=
  mkEnv (gpu_completes e) (should_close e) (resize_event e) (framebuffer_size e)
        (acquire_answer e) (submit_answer e) (present_answer e) f (surface_support e)
        (swapchain_images e) (file_opens e).

(* ================================================================== *)
(** * Properties *)

(* ------------------------------------------------------------------ *)
(** ** Choices for the swap chain *)

Lemma VkResult_eqb_eq (a b : VkResult) : VkResult_eqb a b = true <-> a = b.
Proof. destruct a, b; simpl; split; intro H; try reflexivity; discriminate H. Qed.

Lemma ChooseSwapPresentMode_spec (modes : list VkPresentModeKHR) :
  ChooseSwapPresentMode modes =
  if existsb is_mailbox modes then VK_PRESENT_MODE_MAILBOX_KHR else VK_PRESENT_MODE_FIFO_KHR.
Proof.
  induction modes as [|m rest IH]; simpl; [reflexivity|].
  destruct m; simpl; auto.
Qed.

Lemma existsb_is_mailbox modes :
  existsb is_mailbox modes = true <-> In VK_PRESENT_MODE_MAILBOX_KHR modes.
Proof.
  rewrite existsb_exists. split.
  - intros [m [Hin Hm]]. destruct m; try discriminate. exact Hin.
  - intro Hin. exists VK_PRESENT_MODE_MAILBOX_KHR. split; [exact Hin | reflexivity].
Qed.

(** C9.  For every list of available present modes, empty or not,
    [ChooseSwapPresentMode] returns the mailbox mode when the list contains
    it and the FIFO mode otherwise. *)
Theorem ChooseSwapPresentMode_prefers_mailbox :
  forall modes : list VkPresentModeKHR,
    (In VK_PRESENT_MODE_MAILBOX_KHR modes /\
     ChooseSwapPresentMode modes = VK_PRESENT_MODE_MAILBOX_KHR) \/
    (~ In VK_PRESENT_MODE_MAILBOX_KHR modes /\
     ChooseSwapPresentMode modes = VK_PRESENT_MODE_FIFO_KHR).
Proof.
  intro modes. rewrite ChooseSwapPresentMode_spec.
  destruct (existsb is_mailbox modes) eqn:E.
  - left. split; [now apply existsb_is_mailbox | reflexivity].
  - right. split; [|reflexivity].
    intro Hin. apply existsb_is_mailbox in Hin. congruence.
Qed.

Lemma std_clamp_clamped v lo hi : (lo <= hi)%Z -> clamped v lo hi (std_clamp v lo hi).
Proof.
  intro Hle. unfold clamped, std_clamp.
  destruct (Z.ltb_spec v lo); [lia|].
  destruct (Z.ltb_spec hi v); lia.
Qed.

Lemma uint32_small z : (0 <= z <= INT_MAX)%Z -> uint32 z = z.
Proof. unfold uint32, INT_MAX. intro H. apply Z.mod_small. lia. Qed.

Lemma ChooseSwapExtent_current fb caps :
  width (currentExtent caps) <> UINT32_MAX -> ChooseSwapExtent fb caps = currentExtent caps.
Proof.
  intro H. unfold ChooseSwapExtent.
  destruct (Z.eqb_spec (width (currentExtent caps)) UINT32_MAX); [contradiction|reflexivity].
Qed.

Lemma ChooseSwapExtent_sentinel w h caps :
  width (currentExtent caps) = UINT32_MAX ->
  ChooseSwapExtent (w, h) caps =
  mkExtent (std_clamp (uint32 w) (width (minImageExtent caps)) (width (maxImageExtent caps)))
           (std_clamp (uint32 h) (height (minImageExtent caps)) (height (maxImageExtent caps))).
Proof.
  intro H. unfold ChooseSwapExtent. rewrite H. reflexivity.
Qed.

(** C3 (as the code has it).  With a current extent that is not the
    sentinel, [ChooseSwapExtent] returns it unchanged; with the sentinel
    it returns the framebuffer size with each component brought between
    the smallest and the largest extent of the surface.  For the bounds
    (1,1) and (4096,4096) and a framebuffer of 7000 by 5 the result is
    (4096,5): the height 5 lies inside its bounds and stays. *)
Theorem ChooseSwapExtent_clamps :
  (forall fb caps,
      width (currentExtent caps) <> UINT32_MAX ->
      ChooseSwapExtent fb caps = currentExtent caps) /\
  (forall w h caps,
      width (currentExtent caps) = UINT32_MAX ->
      (0 <= w <= INT_MAX)%Z -> (0 <= h <= INT_MAX)%Z ->
      (width (minImageExtent caps) <= width (maxImageExtent caps))%Z ->
      (height (minImageExtent caps) <= height (maxImageExtent caps))%Z ->
      clamped w (width (minImageExtent caps)) (width (maxImageExtent caps))
              (width (ChooseSwapExtent (w, h) caps)) /\
      clamped h (height (minImageExtent caps)) (height (maxImageExtent caps))
              (height (ChooseSwapExtent (w, h) caps))) /\
  ChooseSwapExtent (7000, 5)%Z sample_caps = mkExtent 4096 5.
Proof.
  split; [exact ChooseSwapExtent_current|]. split; [|reflexivity].
  intros w h caps Hs Hw Hh Hlw Hlh.
  rewrite (ChooseSwapExtent_sentinel w h caps Hs). simpl.
  rewrite (uint32_small w Hw), (uint32_small h Hh).
  split; apply std_clamp_clamped; assumption.
Qed.

Lemma ChooseSwapExtent_clamps_witness :
  ChooseSwapExtent (123, 456)%Z fixed_caps = mkExtent 800 600 /\
  clamped 7000 1 4096 (width (ChooseSwapExtent (7000, 5)%Z sample_caps)) /\
  clamped 5 1 4096 (height (ChooseSwapExtent (7000, 5)%Z sample_caps)).
Proof.
  split.
  - apply (proj1 ChooseSwapExtent_clamps (123, 456)%Z fixed_caps). discriminate.
  - apply (proj1 (proj2 ChooseSwapExtent_clamps) 7000%Z 5%Z sample_caps).
    + reflexivity.
    + unfold INT_MAX; lia.
    + unfold INT_MAX; lia.
    + simpl; lia.
    + simpl; lia.
Defined.

Lemma ChooseSwapExtent_example_is_not_4096_1 :
  width (currentExtent sample_caps) = UINT32_MAX /\
  minImageExtent sample_caps = mkExtent 1 1 /\
  maxImageExtent sample_caps = mkExtent 4096 4096 /\
  ChooseSwapExtent (7000, 5)%Z sample_caps <> mkExtent 4096 1.
Proof. repeat split. discriminate. Qed.

(* ------------------------------------------------------------------ *)
(** ** Queue families *)

Lemma FindQueueFamilies_loop_spec :
  forall l i acc,
    IsComplete acc = false ->
    FindQueueFamilies_loop l i acc =
    let n := scan_len (has_value (graphicsFamily acc)) (has_value (presentFamily acc)) l in
    mkIndices
      (match last_index supports_graphics (firstn n l) with
       | Some k => Some (i + k) | None => graphicsFamily acc end)
      (match last_index supports_present (firstn n l) with
       | Some k => Some (i + k) | None => presentFamily acc end).
Proof.
  induction l as [|q rest IH]; intros i [g p] Hinc.
  - reflexivity.
  - cbn [FindQueueFamilies_loop scan_len graphicsFamily presentFamily].
    unfold IsComplete in Hinc. cbn [graphicsFamily presentFamily] in Hinc.
    destruct (supports_present q) eqn:Hp, (supports_graphics q) eqn:Hg;
      destruct g as [g|], p as [p|]; cbn in Hinc; try discriminate Hinc;
      cbn [has_value orb andb IsComplete graphicsFamily presentFamily firstn last_index];
      rewrite ?Hp, ?Hg, ?Nat.add_0_r; try reflexivity;
      (rewrite IH by reflexivity);
      cbn [has_value graphicsFamily presentFamily firstn last_index];
      rewrite ?Hp, ?Hg;
      repeat match goal with
             | |- context [last_index ?f ?x] => destruct (last_index f x)
             end;
      rewrite ?Nat.add_0_r, ?Nat.add_succ_r; reflexivity.
Qed.

Lemma first_index_existsb {A} (p : A -> bool) l :
  has_value (first_index p l) = existsb p l.
Proof.
  induction l as [|x r IH]; simpl; [reflexivity|].
  destruct (p x); simpl; [reflexivity|].
  rewrite <- IH. destruct (first_index p r); reflexivity.
Qed.

Lemma first_index_lt {A} (p : A -> bool) l k :
  first_index p l = Some k -> k < List.length l.
Proof.
  revert k. induction l as [|x r IH]; simpl; intros k H; [discriminate|].
  destruct (p x).
  - inversion H; lia.
  - destruct (first_index p r) as [j|]; simpl in H; [|discriminate].
    inversion H. specialize (IH j eq_refl). lia.
Qed.

(** Meaning of [first_index] and [last_index]. *)
Lemma first_index_spec {A} (p : A -> bool) l k :
  first_index p l = Some k <->
  (exists x, nth_error l k = Some x /\ p x = true) /\
  (forall j x, j < k -> nth_error l j = Some x -> p x = false).
Proof.
  revert k. induction l as [|y r IH]; intro k; simpl.
  - split; [discriminate|]. intros [[x [H _]] _]. destruct k; discriminate.
  - destruct (p y) eqn:Hy.
    + split.
      * intro H; inversion H; subst. split; [exists y; auto|]. intros j x Hj; lia.
      * intros [[x [Hx Hpx]] Hmin]. destruct k; [reflexivity|].
        specialize (Hmin 0 y (Nat.lt_0_succ k) eq_refl). congruence.
    + split.
      * intro H. destruct (first_index p r) as [j|]; simpl in H; [|discriminate].
        inversion H; subst. destruct (proj1 (IH j) eq_refl) as [Hex Hmin].
        split; [exact Hex|]. intros [|j'] x Hj Hx; simpl in Hx.
        -- congruence.
        -- apply (Hmin j' x); [lia|exact Hx].
      * intros [[x [Hx Hpx]] Hmin]. destruct k as [|k]; simpl in Hx; [congruence|].
        assert (E : first_index p r = Some k).
        { apply IH. split; [exists x; auto|]. intros j z Hj Hz.
          apply (Hmin (S j) z); [lia|exact Hz]. }
        rewrite E. reflexivity.
Qed.

Lemma last_index_existsb {A} (p : A -> bool) l :
  has_value (last_index p l) = existsb p l.
Proof.
  induction l as [|x r IH]; simpl; [reflexivity|].
  rewrite <- IH. destruct (last_index p r); simpl; [now rewrite orb_true_r|].
  destruct (p x); reflexivity.
Qed.

Lemma last_index_none {A} (p : A -> bool) l j x :
  last_index p l = None -> nth_error l j = Some x -> p x = false.
Proof.
  intros Hnone Hx.
  pose proof (last_index_existsb p l) as E. rewrite Hnone in E. simpl in E.
  destruct (p x) eqn:Hpx; [|reflexivity].
  assert (existsb p l = true) as E'.
  { apply existsb_exists. exists x. split; [eapply nth_error_In; eauto|exact Hpx]. }
  congruence.
Qed.

Lemma last_index_spec {A} (p : A -> bool) l k :
  last_index p l = Some k <->
  (exists x, nth_error l k = Some x /\ p x = true) /\
  (forall j x, k < j -> nth_error l j = Some x -> p x = false).
Proof.
  revert k. induction l as [|y r IH]; intro k; simpl.
  - split; [discriminate|]. intros [[x [H _]] _]. destruct k; discriminate.
  - destruct (last_index p r) as [m|] eqn:E.
    + destruct (proj1 (IH m) eq_refl) as [Hex Hmax]. split.
      * intro H; inversion H; subst. split; [exact Hex|].
        intros [|j] x Hj Hx; [lia|]. apply (Hmax j x); [lia|exact Hx].
      * intros [[x [Hx Hpx]] Hlast]. destruct k as [|k].
        -- destruct Hex as [z [Hz Hpz]].
           specialize (Hlast (S m) z (Nat.lt_0_succ m) Hz). congruence.
        -- assert (Hmk : Some m = Some k).
           { apply IH. split; [exists x; auto|].
             intros j z Hj Hz. apply (Hlast (S j) z); [lia|exact Hz]. }
           inversion Hmk; reflexivity.
    + destruct (p y) eqn:Hy.
      * split.
        -- intro H; inversion H; subst. split; [exists y; auto|].
           intros [|j] x Hj Hx; [lia|]. simpl in Hx. eapply last_index_none; eauto.
        -- intros [[x [Hx Hpx]] _]. destruct k as [|k]; [reflexivity|].
           simpl in Hx. rewrite (last_index_none _ _ _ _ E Hx) in Hpx. discriminate.
      * split; [discriminate|].
        intros [[x [Hx Hpx]] _]. destruct k as [|k]; simpl in Hx.
        -- congruence.
        -- rewrite (last_index_none _ _ _ _ E Hx) in Hpx. discriminate.
Qed.

Lemma scan_len_spec hg hp l :
  hg && hp = false ->
  scan_len hg hp l =
  match (if hg then Some 0 else option_map S (first_index supports_graphics l)),
        (if hp then Some 0 else option_map S (first_index supports_present l)) with
  | Some a, Some b => Nat.max a b
  | _, _ => List.length l
  end.
Proof.
  revert hg hp. induction l as [|q r IH]; intros hg hp Hno.
  - destruct hg, hp; try discriminate; reflexivity.
  - cbn [scan_len first_index].
    destruct hg, hp; try discriminate Hno; cbn [orb andb];
      destruct (supports_graphics q) eqn:Hg, (supports_present q) eqn:Hp;
      cbn [orb andb option_map]; try reflexivity;
      rewrite IH by reflexivity;
      destruct (first_index supports_graphics r), (first_index supports_present r);
      cbn [option_map List.length]; try reflexivity; lia.
Qed.

Lemma scan_len_scanned l : scan_len false false l = scanned l.
Proof.
  rewrite scan_len_spec by reflexivity. unfold scanned.
  destruct (first_index supports_graphics l), (first_index supports_present l);
    cbn [option_map]; try reflexivity.
Qed.

Lemma FindQueueFamilies_spec (device : PhysicalDevice) :
  let l := queueFamilies device in
  FindQueueFamilies device =
  mkIndices (last_index supports_graphics (firstn (scanned l) l))
            (last_index supports_present (firstn (scanned l) l)).
Proof.
  unfold FindQueueFamilies. rewrite FindQueueFamilies_loop_spec by reflexivity.
  cbn [has_value graphicsFamily presentFamily]. rewrite scan_len_scanned.
  cbn zeta. f_equal;
  match goal with |- context [last_index ?f ?x] => destruct (last_index f x) end; reflexivity.
Qed.

Lemma existsb_firstn_first_index {A} (p : A -> bool) l n k :
  first_index p l = Some k -> k < n -> existsb p (firstn n l) = true.
Proof.
  revert n k. induction l as [|x r IH]; intros n k H Hlt; simpl in H; [discriminate|].
  destruct n; [lia|]. simpl. destruct (p x); [reflexivity|]. simpl.
  destruct (first_index p r) as [j|] eqn:E; simpl in H; [|discriminate].
  inversion H; subst. apply (IH n j); [reflexivity|lia].
Qed.

Lemma FindQueueFamilies_complete (device : PhysicalDevice) :
  IsComplete (FindQueueFamilies device) =
  existsb supports_graphics (queueFamilies device) &&
  existsb supports_present (queueFamilies device).
Proof.
  rewrite FindQueueFamilies_spec. cbv zeta. unfold IsComplete.
  cbn [graphicsFamily presentFamily].
  rewrite !last_index_existsb. unfold scanned.
  set (l := queueFamilies device).
  rewrite <- (first_index_existsb supports_graphics l).
  rewrite <- (first_index_existsb supports_present l).
  destruct (first_index supports_graphics l) as [a|] eqn:Ea;
    destruct (first_index supports_present l) as [b|] eqn:Eb;
    cbn [has_value andb].
  - rewrite (existsb_firstn_first_index _ _ _ _ Ea) by lia.
    rewrite (existsb_firstn_first_index _ _ _ _ Eb) by lia. reflexivity.
  - rewrite firstn_all. rewrite <- (first_index_existsb supports_present), Eb.
    apply andb_false_r.
  - rewrite firstn_all. rewrite <- (first_index_existsb supports_graphics), Ea.
    reflexivity.
  - rewrite firstn_all. rewrite <- (first_index_existsb supports_graphics), Ea.
    reflexivity.
Qed.

Lemma first_index_app {A} (p : A -> bool) l l' k :
  first_index p l = Some k -> first_index p (l ++ l') = Some k.
Proof.
  revert k. induction l as [|x r IH]; intros k H; simpl in *; [discriminate|].
  destruct (p x); [exact H|].
  destruct (first_index p r) as [j|]; simpl in H; [|discriminate].
  rewrite (IH j eq_refl). exact H.
Qed.

Lemma first_index_firstn {A} (p : A -> bool) l n k :
  first_index p l = Some k -> k < n -> first_index p (firstn n l) = Some k.
Proof.
  revert n k. induction l as [|x r IH]; intros n k H Hlt; simpl in H; [discriminate|].
  destruct n; [lia|]. simpl. destruct (p x); [exact H|].
  destruct (first_index p r) as [j|] eqn:E; simpl in H; [|discriminate].
  inversion H; subst. rewrite (IH n j eq_refl) by lia. reflexivity.
Qed.

Lemma FindQueueFamilies_stops (device : PhysicalDevice) (rest : list QueueFamily) :
  let l := queueFamilies device in
  IsComplete (FindQueueFamilies device) = true ->
  FindQueueFamilies (with_families (firstn (scanned l) l ++ rest) device) =
  FindQueueFamilies device.
Proof.
  intros l Hc. rewrite FindQueueFamilies_complete in Hc.
  apply andb_true_iff in Hc. destruct Hc as [Hg Hp].
  rewrite <- first_index_existsb in Hg, Hp. fold l in Hg, Hp.
  rewrite !FindQueueFamilies_spec. cbv zeta. cbn [queueFamilies with_families]. fold l.
  destruct (first_index supports_graphics l) as [a|] eqn:Ea; [|discriminate].
  destruct (first_index supports_present l) as [b|] eqn:Eb; [|discriminate].
  assert (Hn : scanned l = S (Nat.max a b)) by (unfold scanned; rewrite Ea, Eb; reflexivity).
  assert (Hlen : S (Nat.max a b) <= List.length l).
  { apply first_index_lt in Ea. apply first_index_lt in Eb. lia. }
  assert (Hn' : scanned (firstn (scanned l) l ++ rest) = S (Nat.max a b)).
  { unfold scanned at 1.
    rewrite (first_index_app _ _ rest a), (first_index_app _ _ rest b); [reflexivity| |].
    - rewrite Hn. apply first_index_firstn; [exact Eb|lia].
    - rewrite Hn. apply first_index_firstn; [exact Ea|lia]. }
  rewrite Hn'. rewrite Hn.
  rewrite firstn_app. rewrite length_firstn.
  replace (S (Nat.max a b) - Nat.min (S (Nat.max a b)) (List.length l)) with 0 by lia.
  rewrite firstn_O, app_nil_r, firstn_firstn, Nat.min_id. reflexivity.
Qed.

Lemma last_index_le_first {A} (p : A -> bool) l a :
  first_index p l = Some a -> last_index p (firstn (S a) l) = Some a.
Proof.
  intro H. apply last_index_spec. apply first_index_spec in H.
  destruct H as [[x [Hx Hpx]] _]. split.
  - exists x. split; [|exact Hpx]. rewrite nth_error_firstn.
    destruct (Nat.ltb_spec a (S a)); [exact Hx|lia].
  - intros j z Hj Hz. rewrite nth_error_firstn in Hz.
    destruct (Nat.ltb_spec j (S a)); [lia|discriminate].
Qed.

(* ------------------------------------------------------------------ *)
(** ** Rating and picking the device *)

Lemma RateDevice_unusable d : usable d = false -> RateDevice d = 0%Z.
Proof.
  unfold usable, RateDevice. intro H.
  destruct (geometryShader d), (DeviceSuitable d); simpl in *; try reflexivity; discriminate.
Qed.

Lemma RateDevice_usable d :
  usable d = true -> RateDevice d = uint32 (maxImageDimension2D d + bonus d).
Proof.
  unfold usable, RateDevice, bonus. intro H.
  apply andb_true_iff in H. destruct H as [-> ->]. simpl.
  destruct (is_discrete (deviceType d)).
  - unfold uint32. rewrite Zplus_mod_idemp_l. f_equal. lia.
  - f_equal. lia.
Qed.

Lemma RateDevice_range d : (0 <= RateDevice d < 4294967296)%Z.
Proof.
  destruct (usable d) eqn:E.
  - rewrite (RateDevice_usable d E). unfold uint32. apply Z.mod_pos_bound. lia.
  - rewrite (RateDevice_unusable d E). lia.
Qed.


Lemma multimap_insert_In {V} (k : Z) (v : V) m x :
  In x (multimap_insert k v m) <-> x = (k, v) \/ In x m.
Proof.
  induction m as [|[k' v'] r IH]; simpl.
  - intuition.
  - destruct (k <? k')%Z; simpl; rewrite ?IH; intuition.
Qed.

Lemma multimap_insert_sorted {V} (k : Z) (v : V) m :
  StronglySorted key_le m -> StronglySorted key_le (multimap_insert k v m).
Proof.
  induction 1 as [|[k' v'] r Hs IH Hall]; simpl.
  - constructor; constructor.
  - destruct (Z.ltb_spec k k').
    + constructor; [constructor; assumption|].
      constructor; [unfold key_le; simpl; lia|].
      eapply Forall_impl; [|exact Hall]. unfold key_le; simpl; intros; lia.
    + constructor; [exact IH|].
      apply Forall_forall. intros x Hx. apply multimap_insert_In in Hx.
      destruct Hx as [->|Hx]; [unfold key_le; simpl; lia|].
      rewrite Forall_forall in Hall. apply Hall, Hx.
Qed.

Lemma rbegin_sorted {V} (m : list (Z * V)) :
  StronglySorted key_le m ->
  match rbegin m with
  | Some x => In x m /\ forall y, In y m -> key_le y x
  | None => m = []
  end.
Proof.
  unfold rbegin. induction 1 as [|x r Hs IH Hall]; [reflexivity|].
  simpl. destruct r as [|x' r'].
  - simpl. split; [left; reflexivity|]. intros y [<-|[]]. unfold key_le; lia.
  - simpl in IH |- *.
    destruct (last (map Some (x' :: r')) None) as [z|] eqn:E;
      simpl in E; rewrite E in *.
    + destruct IH as [Hin Hmax]. split; [right; exact Hin|].
      intros y [<-|Hy]; [|apply Hmax, Hy].
      rewrite Forall_forall in Hall. apply Hall. exact Hin.
    + discriminate IH.
Qed.

Lemma candidates_spec (devices : list PhysicalDevice) (c0 : list (Z * PhysicalDevice)) :
  StronglySorted key_le c0 ->
  let c := fold_left (fun c device => multimap_insert (RateDevice device) device c) devices c0 in
  StronglySorted key_le c /\
  forall x, In x c <-> In x c0 \/ exists d, In d devices /\ x = (RateDevice d, d).
Proof.
  revert c0. induction devices as [|d r IH]; intros c0 Hs; simpl.
  - split; [exact Hs|]. intro x. split; [auto|]. intros [H|[d [[] _]]]; exact H.
  - destruct (IH _ (multimap_insert_sorted (RateDevice d) d c0 Hs)) as [Hs' Hin].
    split; [exact Hs'|]. intro x. rewrite Hin, multimap_insert_In. split.
    + intros [[->|H]|[d' [Hd' ->]]]; eauto.
    + intros [H|[d' [[<-|Hd'] ->]]]; eauto.
Qed.

Lemma PickPhysicalDevice_selects (NDEBUG : bool) (instance : PhysicalDevices) :
  NDEBUG = true \/ count_result instance = VK_SUCCESS ->
  enumerate_result instance = VK_SUCCESS ->
  match PickPhysicalDevice NDEBUG instance with
  | Done best =>
      In best (enumerated instance) /\ (0 < RateDevice best)%Z /\
      forall d, In d (enumerated instance) -> (RateDevice d <= RateDevice best)%Z
  | Fatal what =>
      (forall d, In d (enumerated instance) -> RateDevice d = 0%Z) /\
      what = (if is_empty (enumerated instance)
              then "Failed to find GPU with Vulkan support"
              else "Failed to find suitable GPU!")%string
  | _ => False
  end.
Proof.
  intros Hcount Hok. unfold PickPhysicalDevice. cbv zeta. rewrite Hok.
  replace (negb NDEBUG && negb (VkResult_eqb (count_result instance) VK_SUCCESS)) with false
    by (destruct Hcount as [-> | ->]; [reflexivity|now rewrite andb_false_r]).
  cbn [VkResult_eqb].
  destruct (enumerated instance) as [|d0 r] eqn:Hdev.
  - simpl. split; [intros d []|reflexivity].
  - cbn [List.length Nat.eqb negb ASSERT is_empty].
    destruct (candidates_spec (d0 :: r) [] (SSorted_nil _)) as [Hs Hin].
    cbv zeta in Hs, Hin.
    pose proof (rbegin_sorted _ Hs) as Hr.
    destruct (rbegin _) as [[score device]|].
    + destruct Hr as [Hmem Hmax].
      apply Hin in Hmem. destruct Hmem as [[]|[d [Hd Heq]]].
      inversion Heq; subst score device.
      assert (Hall : forall d', In d' (d0 :: r) -> (RateDevice d' <= RateDevice d)%Z).
      { intros d' Hd'. apply (Hmax (RateDevice d', d')). apply Hin. right. eauto. }
      unfold ASSERT. destruct (Z.ltb_spec 0 (RateDevice d)).
      * auto.
      * split; [|reflexivity].
        intros d' Hd'. pose proof (Hall d' Hd'). pose proof (RateDevice_range d'). lia.
    + exfalso. assert (Hmem : In (RateDevice d0, d0)
        (fold_left (fun c device => multimap_insert (RateDevice device) device c) (d0 :: r) [])).
      { apply Hin. right. exists d0. split; [left; reflexivity|reflexivity]. }
      rewrite Hr in Hmem. exact Hmem.
Qed.

(** C6.  [RateDevice] adds the score up in a [uint32_t], and the sum can
    wrap around.  A usable discrete device that reports [UINT32_MAX] as its
    largest 2D image dimension scores 999 and not the dimension plus 1000;
    [PickPhysicalDevice] then stores an integrated device of dimension 4096
    in its place, whichever of the two is enumerated first.  The same
    happens to every usable discrete device whose dimension is above
    [UINT32_MAX - 1000]: its score is the sum less 2^32, which is below
    1000. *)
Theorem RateDevice_wraps :
  usable device_wrap = true /\
  deviceType device_wrap = VK_PHYSICAL_DEVICE_TYPE_DISCRETE_GPU /\
  maxImageDimension2D device_wrap = UINT32_MAX /\
  RateDevice device_wrap = 999%Z /\
  RateDevice device_wrap <> (maxImageDimension2D device_wrap + 1000)%Z /\
  usable device_A = true /\
  RateDevice device_A = 4096%Z /\
  (forall NDEBUG,
     PickPhysicalDevice NDEBUG
       (mkPhysicalDevices VK_SUCCESS VK_SUCCESS [device_wrap; device_A]) = Done device_A /\
     PickPhysicalDevice NDEBUG
       (mkPhysicalDevices VK_SUCCESS VK_SUCCESS [device_A; device_wrap]) = Done device_A) /\
  (forall d,
     usable d = true -> is_discrete (deviceType d) = true ->
     (UINT32_MAX - 1000 < maxImageDimension2D d <= UINT32_MAX)%Z ->
     RateDevice d = (maxImageDimension2D d + 1000 - 4294967296)%Z /\
     (RateDevice d < 1000)%Z).
Proof.
  split; [reflexivity|]. split; [reflexivity|]. split; [reflexivity|].
  split; [reflexivity|]. split; [discriminate|]. split; [reflexivity|].
  split; [reflexivity|]. split; [intros [|]; split; reflexivity|].
  intros d Hu Hd Hmax. rewrite (RateDevice_usable d Hu).
  unfold bonus. rewrite Hd. unfold UINT32_MAX in Hmax.
  assert (E : uint32 (maxImageDimension2D d + 1000) =
              (maxImageDimension2D d + 1000 - 4294967296)%Z).
  { unfold uint32. symmetry. apply (Z.mod_unique _ _ 1%Z); lia. }
  rewrite E. split; [reflexivity|lia].
Qed.

(* ------------------------------------------------------------------ *)
(** ** Vectors, the device and runs *)

(** *** Vectors *)

Lemma length_assign {A} i (x : A) v : List.length (assign i x v) = List.length v.
Proof.
  revert i. induction v as [|y r IH]; intros [|i]; simpl; try reflexivity.
  now rewrite IH.
Qed.

Lemma nth_error_assign_eq {A} i (x : A) v :
  i < List.length v -> nth_error (assign i x v) i = Some x.
Proof.
  revert i. induction v as [|y r IH]; intros [|i] H; simpl in *; try lia; try reflexivity.
  apply IH. lia.
Qed.

Lemma nth_error_assign_ne {A} i j (x : A) v :
  i <> j -> nth_error (assign i x v) j = nth_error v j.
Proof.
  revert i j. induction v as [|y r IH]; intros [|i] [|j] H; simpl; try reflexivity.
  - contradiction.
  - apply IH. congruence.
Qed.

Lemma length_resize {A} n (x : A) v : List.length (resize n x v) = n.
Proof.
  unfold resize. rewrite length_app, length_firstn, repeat_length. lia.
Qed.

(** *** The device *)

Lemma signalled_true d f : signalled d f = true <-> nth_error (fences d) f = Some true.
Proof.
  unfold signalled. destruct (nth_error (fences d) f) as [[|]|]; split; congruence.
Qed.

Lemma finish_fences_length es fs :
  List.length (fold_left (fun fs (e : Handle * nat) => assign (snd e) true fs) es fs)
  = List.length fs.
Proof.
  revert fs. induction es as [|e r IH]; intro fs; simpl; [reflexivity|].
  rewrite IH. apply length_assign.
Qed.

Lemma finish_fences_true es fs i :
  nth_error fs i = Some true ->
  nth_error (fold_left (fun fs (e : Handle * nat) => assign (snd e) true fs) es fs) i = Some true.
Proof.
  revert fs. induction es as [|e r IH]; intros fs H; simpl; [exact H|].
  apply IH. destruct (Nat.eq_dec (snd e) i) as [->|Hne].
  - apply nth_error_assign_eq. apply nth_error_Some. congruence.
  - rewrite nth_error_assign_ne by exact Hne. exact H.
Qed.

Lemma finish_fences_other es fs i :
  (forall e, In e es -> snd e <> i) ->
  nth_error (fold_left (fun fs (e : Handle * nat) => assign (snd e) true fs) es fs) i
  = nth_error fs i.
Proof.
  revert fs. induction es as [|e r IH]; intros fs H; simpl; [reflexivity|].
  rewrite IH by (intros e' He'; apply H; right; exact He').
  apply nth_error_assign_ne. apply H. left. reflexivity.
Qed.

Lemma finish_fences_hit es fs i :
  (exists e, In e es /\ snd e = i) -> i < List.length fs ->
  nth_error (fold_left (fun fs (e : Handle * nat) => assign (snd e) true fs) es fs) i
  = Some true.
Proof.
  revert fs. induction es as [|e r IH]; intros fs [e' [Hin He']] Hlt; simpl.
  - destruct Hin.
  - destruct (Nat.eq_dec (snd e) i) as [Heq|Hne].
    + apply finish_fences_true. rewrite Heq. apply nth_error_assign_eq. exact Hlt.
    + destruct Hin as [->|Hin]; [contradiction|].
      apply IH; [eauto|]. rewrite length_assign. exact Hlt.
Qed.

Lemma NoDup_map_filter {A B} (f : A -> B) (p : A -> bool) l :
  NoDup (map f l) -> NoDup (map f (filter p l)).
Proof.
  induction l as [|x r IH]; simpl; intro H; [constructor|].
  inversion H as [|? ? Hnot Hr]; subst.
  destruct (p x); simpl; [|auto].
  constructor; [|auto].
  intro Hin. apply Hnot. apply in_map_iff in Hin. destruct Hin as [y [Hy Hin]].
  apply filter_In in Hin. apply in_map_iff. exists y. tauto.
Qed.

Lemma NoDup_map_inj {A B} (f : A -> B) l x y :
  NoDup (map f l) -> In x l -> In y l -> f x = f y -> x = y.
Proof.
  induction l as [|z r IH]; simpl; intros H Hx Hy Heq; [contradiction|].
  inversion H as [|? ? Hnot Hr]; subst.
  destruct Hx as [->|Hx], Hy as [->|Hy]; auto.
  - exfalso. apply Hnot. rewrite Heq. now apply in_map.
  - exfalso. apply Hnot. rewrite <- Heq. now apply in_map.
Qed.

Lemma advances_refl d : advances d d.
Proof. unfold advances. split; [reflexivity|]. split; [auto|]. split; [auto|]. split; auto. Qed.

Lemma is_pending_false d f :
  is_pending d f = false <-> ~ In f (map snd (pending d)).
Proof.
  unfold is_pending. split.
  - intros E Hin. apply in_map_iff in Hin. destruct Hin as [e [He Hin]].
    assert (existsb (signals f) (pending d) = true).
    { apply existsb_exists. exists e. split; [exact Hin|].
      unfold signals. now apply Nat.eqb_eq. }
    congruence.
  - intro Hn. destruct (existsb (signals f) (pending d)) eqn:E; [|reflexivity].
    exfalso. apply Hn. apply existsb_exists in E. destruct E as [e [He Hf]].
    unfold signals in Hf. apply Nat.eqb_eq in Hf. subst f. now apply in_map.
Qed.

Lemma is_pending_subset d d' f :
  (forall e, In e (pending d') -> In e (pending d)) ->
  is_pending d f = false -> is_pending d' f = false.
Proof.
  intros Hsub Hf. apply is_pending_false. apply is_pending_false in Hf.
  intro Hin. apply Hf. apply in_map_iff in Hin. destruct Hin as [e [He Hin]].
  apply in_map_iff. exists e. auto.
Qed.

Lemma advances_trans d1 d2 d3 : advances d1 d2 -> advances d2 d3 -> advances d1 d3.
Proof.
  unfold advances. intros [L1 [S1 [P1 [K1 U1]]]] [L2 [S2 [P2 [K2 U2]]]].
  split; [congruence|]. split; [auto|]. split; [auto|]. split; [auto|].
  intros f Hf. rewrite U2; [apply U1, Hf|].
  eapply is_pending_subset; eauto.
Qed.

Lemma finish_advances p d : advances d (finish p d).
Proof.
  unfold advances, finish. cbn [fences pending].
  split; [apply finish_fences_length|].
  split.
  { intros f Hf. apply signalled_true. cbn [fences].
    apply finish_fences_true. now apply signalled_true. }
  split.
  { intros e He. apply filter_In in He. tauto. }
  split.
  { intros [Hnd Hun]. split; cbn [fences pending].
    - apply NoDup_map_filter. exact Hnd.
    - intros e He. apply filter_In in He. destruct He as [He Hp].
      rewrite finish_fences_other; [apply Hun, He|].
      intros e' He' Heq. apply filter_In in He'. destruct He' as [He' Hp'].
      assert (e' = e) by (eapply NoDup_map_inj; eauto). subst e'.
      rewrite Hp' in Hp. discriminate. }
  intros f Hf. apply finish_fences_other.
  intros e He Heq. apply filter_In in He. destruct He as [He _].
  apply is_pending_false in Hf. apply Hf. subst f. now apply in_map.
Qed.

Lemma take_advances n d : advances d (take n d).
Proof.
  unfold advances, take, consistent. cbn.
  split; [reflexivity|]. split; [auto|]. split; [auto|]. split; auto.
Qed.

Lemma next_id_advances d n : advances d (mkDevice (fences d) (pending d) n).
Proof.
  unfold advances, consistent. cbn.
  split; [reflexivity|]. split; [auto|]. split; [auto|]. split; auto.
Qed.

Lemma gpu_completes_advances l d :
  advances d (fold_left (fun d f => finish (signals f) d) l d).
Proof.
  revert d. induction l as [|f r IH]; intro d; simpl; [apply advances_refl|].
  eapply advances_trans; [apply finish_advances|apply IH].
Qed.

Lemma gpu_step_advances env s : advances (device s) (device (gpu_step env s)).
Proof. apply gpu_completes_advances. Qed.

(** *** Runs *)

Lemma post_bind {A B} (m : M A) (k : A -> M B) s Q :
  post (m s) (fun c h o s' =>
    match o with
    | Done a => post (k a s') (fun c' h' o' s'' => Q (c ++ c') (h ++ h') o' s'')
    | Fatal w => Q c h (Fatal w) s'
    | Blocked => Q c h Blocked s'
    | OutOfBounds => Q c h OutOfBounds s'
    end) ->
  post (bind m k s) Q.
Proof.
  unfold post, bind. destruct (outcome (m s)); simpl; auto.
Qed.

Lemma post_external env {A} (f : nat -> State -> Outcome A * State * list Event) s Q :
  (forall s1, app s1 = app s -> clock s1 = S (clock s) ->
              advances (device s) (device s1) ->
              Q (snd (f (clock s) s1)) [device s1; device (snd (fst (f (clock s) s1)))]
                (fst (fst (f (clock s) s1))) (snd (fst (f (clock s) s1)))) ->
  post (external env f s) Q.
Proof.
  intro H. unfold post, external.
  specialize (H (gpu_step env s) eq_refl eq_refl (gpu_step_advances env s)).
  destruct (f (clock s) (gpu_step env s)) as [[o s2] es]. exact H.
Qed.

Section Quiet.

Variable phi : Event -> Prop.
Variable K : VulkanApp -> VulkanApp -> Prop.
Hypothesis K_refl : forall a, K a a.
Hypothesis K_trans : forall a b c, K a b -> K b c -> K a c.

Lemma quiet_ret {A} (a : A) : quiet phi K (ret a).
Proof. intro s. simpl. auto using advances_refl. Qed.

Lemma quiet_throw {A} w : quiet phi K (@throw A w).
Proof. intro s. simpl. auto using advances_refl. Qed.

Lemma quiet_blocked {A} : quiet phi K (@blocked A).
Proof. intro s. simpl. auto using advances_refl. Qed.

Lemma quiet_lift {A} (o : Outcome A) : quiet phi K (lift o).
Proof. intro s. simpl. auto using advances_refl. Qed.

Lemma quiet_member {A} (f : VulkanApp -> A) : quiet phi K (member f).
Proof. intro s. simpl. auto using advances_refl. Qed.

Lemma quiet_at_index {A} (v : list A) i : quiet phi K (at_index v i).
Proof. unfold at_index. destruct (nth_error v i); [apply quiet_ret|apply quiet_lift]. Qed.

Lemma quiet_value {A} (o : option A) : quiet phi K (value o).
Proof. destruct o; [apply quiet_ret|apply quiet_throw]. Qed.

Lemma quiet_log e : phi e -> quiet phi K (log e).
Proof. intros He s. simpl. auto using advances_refl. Qed.

Lemma quiet_store f : (forall a, K a (f a)) -> quiet phi K (store f).
Proof. intros Hf s. simpl. auto using advances_refl. Qed.

Lemma quiet_bind {A B} (m : M A) (k : A -> M B) :
  quiet phi K m -> (forall a, quiet phi K (k a)) -> quiet phi K (bind m k).
Proof.
  intros Hm Hk s. destruct (Hm s) as [Hc [Hk1 [Ha Hh]]].
  unfold bind. destruct (outcome (m s)) as [a| | |]; simpl; auto.
  destruct (Hk a (final (m s))) as [Hc' [Hk2 [Ha' Hh']]].
  split; [apply Forall_app; auto|].
  split; [eauto|].
  split; [eapply advances_trans; eauto|].
  apply Forall_app. split; [exact Hh|].
  eapply Forall_impl; [|exact Hh']. intros d Hd. eapply advances_trans; eauto.
Qed.

Lemma quiet_external env {A} (f : nat -> State -> Outcome A * State * list Event) :
  (forall t s, Forall phi (snd (f t s)) /\ K (app s) (app (snd (fst (f t s)))) /\
               advances (device s) (device (snd (fst (f t s))))) ->
  quiet phi K (external env f).
Proof.
  intros Hf s. unfold external.
  pose proof (gpu_step_advances env s) as Hg.
  specialize (Hf (clock s) (gpu_step env s)).
  destruct (f (clock s) (gpu_step env s)) as [[o s2] es]. simpl in *.
  destruct Hf as [Hphi [HK Hadv]].
  assert (Hadv' : advances (device s) (device s2)) by (eapply advances_trans; eauto).
  split; [exact Hphi|]. split; [exact HK|]. split; [exact Hadv'|].
  constructor; [exact Hg|]. constructor; [exact Hadv'|constructor].
Qed.

Lemma quiet_for_each {A} (v : list A) body :
  (forall x, quiet phi K (body x)) -> quiet phi K (for_each v body).
Proof.
  intro Hb. induction v as [|x r IH]; simpl; [apply quiet_ret|].
  apply quiet_bind; auto.
Qed.

Lemma quiet_for_range from n body :
  (forall i, quiet phi K (body i)) -> quiet phi K (for_range from n body).
Proof.
  intro Hb. revert from. induction n as [|n IH]; intro from; simpl; [apply quiet_ret|].
  apply quiet_bind; auto.
Qed.

Lemma quiet_call env e : phi e -> quiet phi K (call env e).
Proof.
  intro He. apply quiet_external. intros t s. simpl.
  auto using advances_refl.
Qed.

Lemma quiet_plain env {A} (answer : nat -> A) e :
  (forall a, phi (e a)) -> quiet phi K (plain env answer e).
Proof.
  intro He. apply quiet_external. intros t s. simpl.
  auto using advances_refl.
Qed.

Lemma quiet_vkCreate env kind old :
  (forall r h, phi (EvCreate kind old r h)) -> quiet phi K (vkCreate env kind old).
Proof.
  intro He. apply quiet_external. intros t s.
  destruct (create_answer env t); simpl; auto using advances_refl, next_id_advances.
Qed.

Lemma quiet_vkDeviceWaitIdle env : phi EvDeviceWaitIdle -> quiet phi K (vkDeviceWaitIdle env).
Proof.
  intro He. apply quiet_external. intros t s. simpl. auto using finish_advances.
Qed.

Lemma quiet_images_count env chain :
  (forall n, phi (EvGetSwapchainImages chain n)) ->
  quiet phi K (vkGetSwapchainImagesKHR_count env chain).
Proof.
  intro He. apply quiet_external. intros t s. simpl. auto using advances_refl.
Qed.

Lemma quiet_images env chain n :
  phi (EvGetSwapchainImages chain n) -> quiet phi K (vkGetSwapchainImagesKHR env chain n).
Proof.
  intro He. apply quiet_external. intros t s. simpl. auto using take_advances.
Qed.

Lemma quiet_allocate env pool n :
  (forall r, phi (EvAllocateCommandBuffers pool n r)) ->
  quiet phi K (vkAllocateCommandBuffers env pool n).
Proof.
  intro He. apply quiet_external. intros t s.
  destruct (create_answer env t); simpl; auto using advances_refl, take_advances.
Qed.

End Quiet.

(* ------------------------------------------------------------------ *)
(** ** Quiet member functions *)

Lemma same_slots_refl a : same_slots a a.
Proof. unfold same_slots. repeat split. Qed.

Lemma same_slots_trans a b c : same_slots a b -> same_slots b c -> same_slots a c.
Proof. unfold same_slots. intuition congruence. Qed.

Lemma same_chain_refl a : same_chain a a.
Proof. split; [apply same_slots_refl|reflexivity]. Qed.

Lemma same_chain_trans a b c : same_chain a b -> same_chain b c -> same_chain a c.
Proof.
  intros [H1 E1] [H2 E2]. split; [eapply same_slots_trans; eauto|congruence].
Qed.

Ltac quiet_side :=
  first [ reflexivity
        | intros; reflexivity
        | intros; unfold same_chain, same_slots; cbn; repeat split; reflexivity ].

Ltac quiet_go Hr Ht :=
  repeat first
    [ apply quiet_bind; [ exact Ht | | intros ? ]
    | apply quiet_ret; exact Hr
    | apply quiet_throw; exact Hr
    | apply quiet_blocked; exact Hr
    | apply quiet_lift; exact Hr
    | apply quiet_member; exact Hr
    | apply quiet_at_index; exact Hr
    | apply quiet_value; exact Hr
    | apply quiet_for_each; [ exact Hr | exact Ht | intros ? ]
    | apply quiet_for_range; [ exact Hr | exact Ht | intros ? ]
    | first [ apply quiet_log | apply quiet_store | apply quiet_call | apply quiet_plain
            | apply quiet_vkCreate | apply quiet_vkDeviceWaitIdle | apply quiet_images_count
            | apply quiet_images | apply quiet_allocate ];
      first [ exact Hr | exact Ht | quiet_side ]
    | match goal with
      | |- quiet _ _ (if ?b then _ else _) => destruct b
      | |- quiet _ _ (match ?x with _ => _ end) => destruct x
      end
    | progress cbv zeta ].


Lemma CleanupSwapChain_quiet env : quiet is_calm same_chain (CleanupSwapChain env).
Proof.
  unfold CleanupSwapChain, enter, vkDestroy, is_calm.
  quiet_go same_chain_refl same_chain_trans.
Qed.

Lemma wait_while_minimised_quiet env fuel w h :
  quiet is_calm same_chain (wait_while_minimised env fuel w h).
Proof.
  revert w h. induction fuel as [|fuel IH]; intros w h; simpl;
    destruct ((w =? 0)%Z || (h =? 0)%Z);
    unfold glfwGetFramebufferSize, glfwWaitEvents, is_calm;
    quiet_go same_chain_refl same_chain_trans.
  - apply quiet_external. intros t s.
    destruct (resize_event env t); cbn;
      (split; [repeat constructor|]);
      (split; [unfold same_chain, same_slots; cbn; repeat split|apply advances_refl]).
  - apply IH.
Qed.

Lemma CreateSwapChain_quiet env : quiet not_frame same_slots (CreateSwapChain env).
Proof.
  unfold CreateSwapChain, enter, QuerySwapChainSupport, glfwGetFramebufferSize, ASSERT, not_frame.
  quiet_go same_slots_refl same_slots_trans.
Qed.

Lemma CreateImageViews_quiet env : quiet not_frame same_slots (CreateImageViews env).
Proof.
  unfold CreateImageViews, enter, not_frame.
  quiet_go same_slots_refl same_slots_trans.
Qed.

Lemma CreateRenderPass_quiet env : quiet not_frame same_slots (CreateRenderPass env).
Proof.
  unfold CreateRenderPass, enter, not_frame.
  quiet_go same_slots_refl same_slots_trans.
Qed.

Lemma CreateGraphicsPipeline_quiet env :
  quiet not_frame same_slots (CreateGraphicsPipeline env).
Proof.
  unfold CreateGraphicsPipeline, ReadFile, CreateShaderModule, vkDestroy, enter, not_frame.
  quiet_go same_slots_refl same_slots_trans.
Qed.

Lemma CreateFramebuffers_quiet env : quiet not_frame same_slots (CreateFramebuffers env).
Proof.
  unfold CreateFramebuffers, enter, not_frame.
  quiet_go same_slots_refl same_slots_trans.
Qed.

Lemma CreateCommandBuffers_quiet env : quiet not_frame same_slots (CreateCommandBuffers env).
Proof.
  unfold CreateCommandBuffers, vkBeginCommandBuffer, vkEndCommandBuffer, enter, not_frame.
  quiet_go same_slots_refl same_slots_trans.
Qed.

(* ------------------------------------------------------------------ *)
(** ** The rebuild *)

Lemma bind_assoc {A B C} (m : M A) (k : A -> M B) (h : B -> M C) s :
  bind (bind m k) h s = bind m (fun a => bind (k a) h) s.
Proof.
  unfold bind. destruct (outcome (m s)) as [a| | |]; cbn; try reflexivity.
  destruct (outcome (k a (final (m s)))) as [b| | |]; cbn; try reflexivity.
  rewrite !app_assoc. reflexivity.
Qed.

Lemma bind_ext {A B} (m : M A) (k k' : A -> M B) s :
  (forall a s', k a s' = k' a s') -> bind m k s = bind m k' s.
Proof.
  intro H. unfold bind. destruct (outcome (m s)); try reflexivity.
  rewrite H. reflexivity.
Qed.

Lemma calls_bind {A B} (m : M A) (k : A -> M B) s :
  calls (bind m k s) =
  calls (m s) ++ match outcome (m s) with
                 | Done a => calls (k a (final (m s)))
                 | _ => []
                 end.
Proof.
  unfold bind. destruct (outcome (m s)); cbn; rewrite ?app_nil_r; reflexivity.
Qed.

Lemma RecreateSwapChain_phases env fuel s :
  RecreateSwapChain env fuel s =
  bind (teardown_phase env fuel) (fun _ => build_phase env) s.
Proof.
  unfold RecreateSwapChain, teardown_phase, build_phase.
  rewrite bind_assoc. apply bind_ext. intros [] s1.
  rewrite bind_assoc. apply bind_ext. intros [w h] s2.
  rewrite bind_assoc. apply bind_ext. intros [] s3.
  rewrite bind_assoc. apply bind_ext. intros [] s4.
  reflexivity.
Qed.

Lemma calm_not_frame e : is_calm e -> not_frame e.
Proof.
  unfold is_calm, not_frame, calm. intro H. apply andb_true_iff in H.
  destruct H as [H _]. now apply negb_true_iff.
Qed.

Lemma same_chain_slots a b : same_chain a b -> same_slots a b.
Proof. now intros [H _]. Qed.

Lemma build_phase_quiet env : quiet not_frame same_slots (build_phase env).
Proof.
  unfold build_phase.
  apply quiet_bind; [exact same_slots_trans|apply CreateSwapChain_quiet|intros _].
  apply quiet_bind; [exact same_slots_trans|apply CreateImageViews_quiet|intros _].
  apply quiet_bind; [exact same_slots_trans|apply CreateRenderPass_quiet|intros _].
  apply quiet_bind; [exact same_slots_trans|apply CreateGraphicsPipeline_quiet|intros _].
  apply quiet_bind; [exact same_slots_trans|apply CreateFramebuffers_quiet|intros _].
  apply CreateCommandBuffers_quiet.
Qed.

(** The part of the teardown after the entry into [RecreateSwapChain]. *)
Lemma teardown_rest_quiet env fuel :
  quiet is_calm same_chain
        ('(width, height) <- glfwGetFramebufferSize env ;;
         wait_while_minimised env fuel width height ;;
         vkDeviceWaitIdle env ;;
         CleanupSwapChain env).
Proof.
  apply quiet_bind; [exact same_chain_trans| |intros [w h]].
  { unfold glfwGetFramebufferSize, is_calm.
    quiet_go same_chain_refl same_chain_trans. }
  apply quiet_bind; [exact same_chain_trans| |intros ?].
  { apply wait_while_minimised_quiet. }
  apply quiet_bind; [exact same_chain_trans| |intros ?].
  { unfold is_calm. quiet_go same_chain_refl same_chain_trans. }
  apply CleanupSwapChain_quiet.
Qed.

Lemma teardown_phase_calls env fuel s :
  exists rest,
    calls (teardown_phase env fuel s) = EvMember mRecreateSwapChain :: rest /\
    Forall is_calm rest /\
    same_chain (app s) (app (final (teardown_phase env fuel s))) /\
    advances (device s) (device (final (teardown_phase env fuel s))) /\
    Forall (advances (device s)) (history (teardown_phase env fuel s)).
Proof.
  unfold teardown_phase.
  destruct (teardown_rest_quiet env fuel s) as [Hc [Hk [Ha Hh]]].
  set (rest := ('(width, height) <- glfwGetFramebufferSize env ;;
         wait_while_minimised env fuel width height ;;
         vkDeviceWaitIdle env ;;
         CleanupSwapChain env)) in *.
  exists (calls (rest s)).
  unfold bind at 1. cbn.
  destruct (outcome (rest s)); cbn; auto.
Qed.

(* ------------------------------------------------------------------ *)
(** ** Polling while the window has no area *)

Lemma bind_done {A B} (m : M A) (k : A -> M B) s b :
  outcome (bind m k s) = Done b ->
  exists a, outcome (m s) = Done a /\ outcome (k a (final (m s))) = Done b.
Proof.
  unfold bind. destruct (outcome (m s)) as [a| | |]; cbn; try discriminate.
  intro H. exists a. auto.
Qed.

Lemma no_area_test w h : ((w =? 0)%Z || (h =? 0)%Z) = false <-> (w <> 0%Z /\ h <> 0%Z).
Proof.
  rewrite orb_false_iff. rewrite !Z.eqb_neq. tauto.
Qed.

Lemma bind_run {A B} (m : M A) (k : A -> M B) s a :
  outcome (m s) = Done a ->
  bind m k s =
  mkRun (outcome (k a (final (m s)))) (final (k a (final (m s))))
        (calls (m s) ++ calls (k a (final (m s))))
        (history (m s) ++ history (k a (final (m s)))).
Proof. intro H. unfold bind. rewrite H. reflexivity. Qed.

Lemma process_events_done env e s : outcome (process_events env e s) = Done tt.
Proof. unfold process_events, external. destruct (resize_event env (clock s)); reflexivity. Qed.

Lemma process_events_calls env e s :
  calls (process_events env e s) = [e] \/
  calls (process_events env e s) = [e; EvResizeCallBack].
Proof. unfold process_events, external. destruct (resize_event env (clock s)); cbn; auto. Qed.

Lemma wait_while_minimised_round env fuel w h s :
  ((w =? 0)%Z || (h =? 0)%Z) = true ->
  let w' := fst (framebuffer_size env (clock s)) in
  let h' := snd (framebuffer_size env (clock s)) in
  let pe := process_events env EvWaitEvents (gpu_step env s) in
  let r := wait_while_minimised env fuel w' h' (final pe) in
  wait_while_minimised env (S fuel) w h s =
  mkRun (outcome r) (final r)
        (EvGetFramebufferSize w' h' :: calls pe ++ calls r)
        (device (gpu_step env s) :: device (gpu_step env s) :: history pe ++ history r).
Proof.
  intros E. cbv zeta. cbn [wait_while_minimised]. rewrite E.
  unfold glfwGetFramebufferSize, plain, glfwWaitEvents.
  unfold bind at 1. cbn [external outcome final calls history fst snd].
  destruct (framebuffer_size env (clock s)) as [w' h']. cbn [fst snd].
  rewrite (bind_run _ _ _ tt (process_events_done env EvWaitEvents (gpu_step env s))).
  cbn. reflexivity.
Qed.

Lemma wait_while_minimised_skip env fuel w h s :
  ((w =? 0)%Z || (h =? 0)%Z) = false ->
  wait_while_minimised env fuel w h s = ret tt s.
Proof. intro E. destruct fuel; cbn [wait_while_minimised]; rewrite E; reflexivity. Qed.

Lemma wait_while_minimised_polls env fuel :
  forall w h s,
    let r := wait_while_minimised env fuel w h s in
    Forall (fun e => is_polling e = true) (calls r) /\
    (outcome r = Done tt \/ outcome r = Blocked) /\
    (outcome r = Done tt -> (w <> 0%Z /\ h <> 0%Z) \/ saw_area (calls r)) /\
    ((w <> 0%Z /\ h <> 0%Z) \/ saw_area (calls r) -> outcome r = Done tt).
Proof.
  induction fuel as [|fuel IH]; intros w h s;
    destruct ((w =? 0)%Z || (h =? 0)%Z) eqn:E.
  - cbn [wait_while_minimised]. rewrite E. cbn.
    split; [constructor|]. split; [auto|]. split; [discriminate|].
    intros [Ha|[w' [h' [[] _]]]].
    apply no_area_test in Ha. congruence.
  - rewrite (wait_while_minimised_skip _ _ _ _ _ E). cbn. apply no_area_test in E. auto.
  - cbv zeta. rewrite (wait_while_minimised_round _ _ _ _ _ E). cbv zeta.
    set (w' := fst (framebuffer_size env (clock s))).
    set (h' := snd (framebuffer_size env (clock s))).
    set (pe := process_events env EvWaitEvents (gpu_step env s)).
    specialize (IH w' h' (final pe)). cbv zeta in IH.
    set (r := wait_while_minimised env fuel w' h' (final pe)) in *.
    destruct IH as [Hpoll [Hout [Hdone Hprog]]].
    cbn [outcome calls].
    assert (Hpe : Forall (fun e => is_polling e = true) (calls pe)).
    { destruct (process_events_calls env EvWaitEvents (gpu_step env s)) as [Hc|Hc];
        subst pe; rewrite Hc; repeat constructor. }
    assert (Hnoarea : forall x y, In (EvGetFramebufferSize x y) (calls pe) -> False).
    { intros x y Hin.
      destruct (process_events_calls env EvWaitEvents (gpu_step env s)) as [Hc|Hc];
        subst pe; rewrite Hc in Hin; cbn in Hin; intuition discriminate. }
    split.
    { constructor; [reflexivity|]. rewrite Forall_app. split; assumption. }
    split; [exact Hout|].
    split.
    + intro Hd. right. destruct (Hdone Hd) as [Ha|[x [y [Hin Ha]]]].
      * exists w', h'. split; [left; reflexivity|exact Ha].
      * exists x, y. split; [|exact Ha]. right. apply in_or_app. right. exact Hin.
    + intros [Ha|[x [y [Hin Ha]]]].
      * apply no_area_test in Ha. congruence.
      * apply Hprog. cbn in Hin. destruct Hin as [Heq|Hin].
        -- inversion Heq; subst. left. exact Ha.
        -- apply in_app_or in Hin. destruct Hin as [Hin|Hin].
           ++ exfalso. eapply Hnoarea; eauto.
           ++ right. exists x, y. auto.
  - rewrite (wait_while_minimised_skip _ _ _ _ _ E). cbn. apply no_area_test in E. auto.
Qed.

(* ------------------------------------------------------------------ *)
(** ** What a rebuild calls, and in which order *)

Lemma split_at_first {A} (p : A -> bool) (P X pre post : list A) e :
  Forall (fun x => p x = true) P ->
  pre ++ e :: post = P ++ X -> p e = false ->
  exists pre', pre = P ++ pre' /\ X = pre' ++ e :: post.
Proof.
  intros HP. revert pre. induction HP as [|x P Hx HP IH]; intros pre Heq He.
  - exists pre. auto.
  - destruct pre as [|y pre]; cbn in Heq.
    + inversion Heq; subst. congruence.
    + inversion Heq; subst. destruct (IH pre H1 He) as [pre' [-> ->]].
      exists pre'. auto.
Qed.

Lemma saw_area_app_l l l' : saw_area l -> saw_area (l ++ l').
Proof. intros [w [h [Hin Ha]]]. exists w, h. split; [apply in_or_app; auto|exact Ha]. Qed.

Lemma bind_blocked {A B} (m : M A) (k : A -> M B) s :
  outcome (m s) = Blocked ->
  bind m k s = mkRun Blocked (final (m s)) (calls (m s)) (history (m s)).
Proof. intro H. unfold bind. rewrite H. reflexivity. Qed.

Lemma RecreateSwapChain_run env fuel s :
  let w0 := fst (framebuffer_size env (clock s)) in
  let h0 := snd (framebuffer_size env (clock s)) in
  let L := wait_while_minimised env fuel w0 h0 (gpu_step env s) in
  exists X,
    calls (RecreateSwapChain env fuel s) =
      EvMember mRecreateSwapChain :: EvGetFramebufferSize w0 h0 :: calls L ++ X /\
    (outcome L = Blocked -> X = [] /\ outcome (RecreateSwapChain env fuel s) = Blocked) /\
    (outcome L = Done tt -> exists X', X = EvDeviceWaitIdle :: X').
Proof.
  intros w0 h0 L. unfold RecreateSwapChain.
  rewrite (bind_run (enter mRecreateSwapChain) _ s tt eq_refl).
  rewrite (bind_run (glfwGetFramebufferSize env) _ _ (framebuffer_size env (clock s)) eq_refl).
  cbn [enter log glfwGetFramebufferSize plain external outcome final calls history fst snd].
  fold w0 h0.
  destruct (framebuffer_size env (clock s)) as [w h]. cbn [fst snd] in *. subst w0 h0.
  destruct (wait_while_minimised_polls env fuel w h (gpu_step env s)) as [_ [Hout _]].
  fold L in Hout. destruct Hout as [EL|EL].
  - rewrite (bind_run _ _ _ tt EL). fold L.
    rewrite (bind_run (vkDeviceWaitIdle env) _ _ tt eq_refl).
    cbn [vkDeviceWaitIdle external outcome final calls history].
    eexists. split; [cbn; reflexivity|]. rewrite EL.
    split; [discriminate|]. intros _. eexists. reflexivity.
  - rewrite (bind_blocked _ _ _ EL). fold L. cbn [outcome final calls history].
    exists []. rewrite app_nil_r. split; [reflexivity|]. rewrite EL.
    split; [auto|discriminate].
Qed.

Lemma RecreateSwapChain_polls_first_aux env fuel s :
  let r := RecreateSwapChain env fuel s in
  (forall pre e post,
      calls r = pre ++ e :: post -> is_polling e = false -> saw_area pre) /\
  (saw_area (calls r) -> In EvDeviceWaitIdle (calls r)) /\
  (~ saw_area (calls r) ->
   outcome r = Blocked /\ Forall (fun e => is_polling e = true) (calls r)).
Proof.
  cbv zeta.
  destruct (RecreateSwapChain_run env fuel s) as [X [Hcalls [Hblocked Hdone]]].
  set (w0 := fst (framebuffer_size env (clock s))) in *.
  set (h0 := snd (framebuffer_size env (clock s))) in *.
  set (L := wait_while_minimised env fuel w0 h0 (gpu_step env s)) in *.
  destruct (wait_while_minimised_polls env fuel w0 h0 (gpu_step env s))
    as [Hpoll [Hout [Harea Hprog]]]. fold L in Hpoll, Hout, Harea, Hprog.
  set (P := EvMember mRecreateSwapChain :: EvGetFramebufferSize w0 h0 :: calls L).
  assert (HP : Forall (fun e => is_polling e = true) P).
  { subst P. repeat (constructor; [reflexivity|]). exact Hpoll. }
  assert (HcP : calls (RecreateSwapChain env fuel s) = P ++ X) by (rewrite Hcalls; reflexivity).
  assert (HsawP : outcome L = Done tt -> saw_area P).
  { intro Hd. destruct (Harea Hd) as [Ha|[w [h [Hin Ha]]]].
    - exists w0, h0. split; [right; left; reflexivity|exact Ha].
    - exists w, h. split; [right; right; exact Hin|exact Ha]. }
  assert (HPsaw : saw_area P -> outcome L = Done tt).
  { intros [w [h [Hin Ha]]]. apply Hprog. destruct Hin as [Heq|[Heq|Hin]].
    - discriminate.
    - inversion Heq; subst. left. exact Ha.
    - right. exists w, h. auto. }
  split; [|split].
  - intros pre e post Heq He. rewrite HcP in Heq.
    destruct (split_at_first is_polling P X pre post e HP (eq_sym Heq) He) as [pre' [-> HX]].
    apply saw_area_app_l. apply HsawP.
    destruct Hout as [Hd|Hb]; [exact Hd|].
    destruct (Hblocked Hb) as [HXnil _]. rewrite HXnil in HX.
    destruct pre'; discriminate.
  - intros [w [h [Hin Ha]]]. rewrite HcP in Hin |- *.
    apply in_or_app. right.
    assert (Hd : outcome L = Done tt).
    { apply in_app_or in Hin. destruct Hin as [Hin|Hin].
      - apply HPsaw. exists w, h. auto.
      - destruct Hout as [Hd|Hb]; [exact Hd|].
        destruct (Hblocked Hb) as [HXnil _]. rewrite HXnil in Hin. destruct Hin. }
    destruct (Hdone Hd) as [X' ->]. left. reflexivity.
  - intro Hno.
    assert (Hb : outcome L = Blocked).
    { destruct Hout as [Hd|Hb]; [|exact Hb]. exfalso. apply Hno.
      rewrite HcP. apply saw_area_app_l. apply HsawP, Hd. }
    destruct (Hblocked Hb) as [HXnil Ho]. split; [exact Ho|].
    rewrite HcP, HXnil, app_nil_r. exact HP.
Qed.

Lemma polling_is_neither e :
  is_polling e = true -> is_construction e = false /\ is_teardown e = false.
Proof. destruct e as [[]| | | | | | | | | | | | | | | | | | | | | | | | |]; cbn; intro H; try discriminate H; auto. Qed.

(* ------------------------------------------------------------------ *)
(** ** The order of teardown and construction *)

Lemma RecreateSwapChain_spec env fuel s :
  exists rest,
    calls (RecreateSwapChain env fuel s) = EvMember mRecreateSwapChain :: rest /\
    Forall not_frame rest /\
    same_slots (app s) (app (final (RecreateSwapChain env fuel s))) /\
    advances (device s) (device (final (RecreateSwapChain env fuel s))) /\
    Forall (advances (device s)) (history (RecreateSwapChain env fuel s)).
Proof.
  rewrite RecreateSwapChain_phases.
  destruct (teardown_phase_calls env fuel s) as [rest [Hc [Hcalm [Hsame [Hadv Hhist]]]]].
  assert (Hnf : Forall not_frame rest).
  { eapply Forall_impl; [|exact Hcalm]. apply calm_not_frame. }
  apply same_chain_slots in Hsame.
  unfold bind.
  destruct (outcome (teardown_phase env fuel s)) as [[]| | |];
    cbn [outcome final calls history]; try (exists rest; auto; fail).
  destruct (build_phase_quiet env (final (teardown_phase env fuel s)))
    as [Hc' [Hsame' [Hadv' Hhist']]].
  exists (rest ++ calls (build_phase env (final (teardown_phase env fuel s)))).
  split; [rewrite Hc; reflexivity|].
  split; [apply Forall_app; auto|].
  split; [eapply same_slots_trans; eauto|].
  split; [eapply advances_trans; eauto|].
  apply Forall_app. split; [exact Hhist|].
  eapply Forall_impl; [|exact Hhist']. intros d Hd. eapply advances_trans; eauto.
Qed.



Lemma unchanged_refl a : unchanged a a.
Proof. reflexivity. Qed.

Lemma unchanged_trans a b c : unchanged a b -> unchanged b c -> unchanged a c.
Proof. unfold unchanged. congruence. Qed.

Lemma CleanupSwapChain_last env :
  exists A : M unit,
    quiet (fun _ => True) unchanged A /\
    forall s,
      CleanupSwapChain env s =
      bind A (fun _ => currentSwapChain <- member m_currentSwapChain ;;
                       vkDestroy env Swapchain currentSwapChain) s.
Proof.
  exists (enter mCleanupSwapChain ;;
          framebuffers <- member m_vSwapChainFramebuffers ;;
          for_each framebuffers (fun framebuffer => vkDestroy env Framebuffer framebuffer) ;;
          commandPool <- member m_commandPool ;;
          buffers <- member m_vCommandBuffers ;;
          call env (EvFreeCommandBuffers commandPool (List.length buffers)) ;;
          graphicsPipeline <- member m_graphicsPipeline ;;
          vkDestroy env Pipeline graphicsPipeline ;;
          pipelineLayout <- member m_pipelineLayout ;;
          vkDestroy env PipelineLayout pipelineLayout ;;
          renderPass <- member m_renderPass ;;
          vkDestroy env RenderPass renderPass ;;
          views <- member m_vSwapChainImageViews ;;
          for_each views (fun view => vkDestroy env ImageView view) ;;
          oldSwapChain <- member m_oldSwapChain ;;
          vkDestroy env Swapchain oldSwapChain).
  split.
  - unfold enter, vkDestroy.
    repeat first
      [ apply quiet_bind; [ exact unchanged_trans | | intros ? ]
      | apply quiet_member; exact unchanged_refl
      | apply quiet_for_each; [ exact unchanged_refl | exact unchanged_trans | intros ? ]
      | apply quiet_log; [exact unchanged_refl | exact I]
      | apply quiet_call; [exact unchanged_refl | exact I] ].
  - intro s. unfold CleanupSwapChain.
    repeat (rewrite bind_assoc; apply bind_ext; intros ? ?).
    reflexivity.
Qed.

Lemma CleanupSwapChain_destroys env s :
  outcome (CleanupSwapChain env s) = Done tt ->
  In (EvDestroy Swapchain (m_currentSwapChain (app s))) (calls (CleanupSwapChain env s)).
Proof.
  destruct (CleanupSwapChain_last env) as [A [HqA Heq]]. rewrite Heq.
  intro Hd. apply bind_done in Hd. destruct Hd as [[] [HA _]].
  rewrite (bind_run _ _ _ tt HA). cbn [calls].
  apply in_or_app. right.
  destruct (HqA s) as [_ [Happ _]]. unfold unchanged in Happ.
  rewrite (bind_run (member m_currentSwapChain) _ _ _ eq_refl).
  cbn. rewrite Happ. left. reflexivity.
Qed.


Lemma before_cleanup_quiet env fuel :
  quiet is_calm same_chain
        ('(width, height) <- glfwGetFramebufferSize env ;;
         wait_while_minimised env fuel width height ;;
         vkDeviceWaitIdle env).
Proof.
  apply quiet_bind; [exact same_chain_trans| |intros [w h]].
  { unfold glfwGetFramebufferSize, is_calm.
    quiet_go same_chain_refl same_chain_trans. }
  apply quiet_bind; [exact same_chain_trans| |intros ?].
  { apply wait_while_minimised_quiet. }
  unfold is_calm. quiet_go same_chain_refl same_chain_trans.
Qed.

Lemma teardown_phase_destroys env fuel s :
  outcome (teardown_phase env fuel s) = Done tt ->
  In (EvDestroy Swapchain (m_currentSwapChain (app s))) (calls (teardown_phase env fuel s)).
Proof.
  assert (Heq : teardown_phase env fuel s =
                bind (enter mRecreateSwapChain)
                     (fun _ => bind ('(width, height) <- glfwGetFramebufferSize env ;;
                                     wait_while_minimised env fuel width height ;;
                                     vkDeviceWaitIdle env)
                                    (fun _ => CleanupSwapChain env)) s).
  { unfold teardown_phase. apply bind_ext. intros [] s1.
    rewrite bind_assoc. apply bind_ext. intros [w h] s2.
    rewrite bind_assoc. apply bind_ext. intros [] s3. reflexivity. }
  rewrite Heq. clear Heq.
  rewrite (bind_run (enter mRecreateSwapChain) _ s tt eq_refl).
  cbn [enter log outcome final calls history].
  intro Hd. apply bind_done in Hd. destruct Hd as [[] [HP Hc]].
  rewrite (bind_run _ _ _ tt HP). cbn [calls].
  destruct (before_cleanup_quiet env fuel s) as [_ [[_ Hcur] _]].
  pose proof (CleanupSwapChain_destroys env _ Hc) as Hin. rewrite Hcur in Hin.
  rewrite !in_app_iff. auto.
Qed.

Lemma calm_creates_nothing e : is_calm e -> creates_swapchain e = false.
Proof.
  unfold is_calm, calm. intro H. apply andb_true_iff in H.
  destruct H as [_ H]. now apply negb_true_iff.
Qed.

Lemma RecreateSwapChain_destroys_first env fuel s :
  forall pre e post,
    calls (RecreateSwapChain env fuel s) = pre ++ e :: post ->
    creates_swapchain e = true ->
    In (EvDestroy Swapchain (m_currentSwapChain (app s))) pre.
Proof.
  intros pre e post Heq He.
  rewrite RecreateSwapChain_phases, calls_bind in Heq.
  destruct (teardown_phase_calls env fuel s) as [rest [Hc [Hcalm _]]].
  assert (HT : Forall (fun x => negb (creates_swapchain x) = true)
                      (calls (teardown_phase env fuel s))).
  { rewrite Hc. constructor; [reflexivity|].
    eapply Forall_impl; [|exact Hcalm]. intros x Hx.
    rewrite (calm_creates_nothing x Hx). reflexivity. }
  assert (He' : negb (creates_swapchain e) = false) by (rewrite He; reflexivity).
  destruct (split_at_first _ _ _ pre post e HT (eq_sym Heq) He') as [pre' [-> HX]].
  apply in_or_app. left. apply teardown_phase_destroys.
  destruct (outcome (teardown_phase env fuel s)) as [[]| | |]; try reflexivity;
    destruct pre'; discriminate HX.
Qed.

(* ------------------------------------------------------------------ *)
(** ** The frame, stage by stage *)

Lemma DrawFrame_stages env fuel :
  DrawFrame env fuel =
  (enter mDrawFrame ;;
   currentFrame <- member m_currentFrame ;;
   vFences <- member m_vFences ;;
   fence <- at_index vFences currentFrame ;;
   vkWaitForFences env fence ;;
   semaphores <- member m_vImageAvailableSemaphores ;;
   imageAvailable <- at_index semaphores currentFrame ;;
   chain <- member m_currentSwapChain ;;
   answer <- vkAcquireNextImageKHR env chain imageAvailable ;;
   frame_on_acquired env fuel currentFrame fence chain answer).
Proof. reflexivity. Qed.

(* ------------------------------------------------------------------ *)
(** ** Walking through a computation *)

Lemma post_ret {A} (a : A) s Q : Q [] [] (Done a) s -> post (ret a s) Q.
Proof. exact (fun H => H). Qed.

Lemma post_member {A} (f : VulkanApp -> A) s Q :
  Q [] [] (Done (f (app s))) s -> post (member f s) Q.
Proof. exact (fun H => H). Qed.

Lemma post_store f s Q :
  Q [] [] (Done tt) (mkState (f (app s)) (device s) (clock s)) -> post (store f s) Q.
Proof. exact (fun H => H). Qed.

Lemma post_log e s Q : Q [e] [] (Done tt) s -> post (log e s) Q.
Proof. exact (fun H => H). Qed.

Lemma post_throw {A} w s (Q : list Event -> list Device -> Outcome A -> State -> Prop) :
  Q [] [] (Fatal w) s -> post (throw w s) Q.
Proof. exact (fun H => H). Qed.

Lemma post_lift {A} (o : Outcome A) s Q : Q [] [] o s -> post (lift o s) Q.
Proof. exact (fun H => H). Qed.

Lemma post_at_index {A} (v : list A) i s Q :
  match nth_error v i with
  | Some x => Q [] [] (Done x) s
  | None => Q [] [] OutOfBounds s
  end -> post (at_index v i s) Q.
Proof. unfold at_index. destruct (nth_error v i); exact (fun H => H). Qed.

Lemma consistent_not_pending d f :
  consistent d -> signalled d f = true -> is_pending d f = false.
Proof.
  intros [_ Hun] Hs. apply signalled_true in Hs.
  destruct (is_pending d f) eqn:E; [|reflexivity].
  unfold is_pending in E. apply existsb_exists in E. destruct E as [e [He Hf]].
  unfold signals in Hf. apply Nat.eqb_eq in Hf. subst f.
  rewrite (Hun e He) in Hs. discriminate.
Qed.

Lemma finish_signals d f :
  consistent d -> is_pending d f = true -> signalled (finish (signals f) d) f = true.
Proof.
  intros [_ Hun] Hp. unfold is_pending in Hp. apply existsb_exists in Hp.
  destruct Hp as [e [He Hf]].
  apply signalled_true. unfold finish. cbn [fences].
  apply finish_fences_hit.
  - exists e. split; [apply filter_In; auto|].
    unfold signals in Hf. now apply Nat.eqb_eq in Hf.
  - unfold signals in Hf. apply Nat.eqb_eq in Hf. subst f.
    apply nth_error_Some. rewrite (Hun e He). discriminate.
Qed.

Lemma post_wait env fence s Q :
  (forall s1 d0,
      app s1 = app s -> advances (device s) d0 -> advances (device s) (device s1) ->
      (consistent (device s) -> exists f, fence = Some f /\ signalled (device s1) f = true) ->
      Q [EvWaitForFences fence] [d0; device s1] (Done tt) s1) ->
  (forall s1 d0,
      app s1 = app s -> advances (device s) d0 -> advances (device s) (device s1) ->
      Q [EvWaitForFences fence] [d0; device s1] Blocked s1) ->
  post (vkWaitForFences env fence s) Q.
Proof.
  intros Hdone Hblocked. unfold vkWaitForFences. apply post_external.
  intros s1 Happ _ Hadv.
  destruct fence as [f|]; cbn [fst snd]; [|apply Hblocked; auto].
  destruct (signalled (device s1) f) eqn:Es; cbn [fst snd].
  - apply Hdone; auto. intros _. eauto.
  - destruct (is_pending (device s1) f) eqn:Ep; cbn [fst snd]; [|apply Hblocked; auto].
    assert (Hadv' : advances (device s) (finish (signals f) (device s1))).
    { eapply advances_trans; [exact Hadv|apply finish_advances]. }
    apply Hdone; [exact Happ|exact Hadv|exact Hadv'|].
    intro Hc. exists f. split; [reflexivity|]. cbn [with_device device].
    apply finish_signals; [|exact Ep]. destruct Hadv as [_ [_ [_ [Hk _]]]]. auto.
Qed.

Lemma post_acquire env chain sem s Q :
  (forall s1 h res idx,
      app s1 = app s -> advances (device s) (device s1) ->
      Forall (advances (device s)) h ->
      Q [EvAcquireNextImage chain sem res idx] h (Done (res, idx)) s1) ->
  post (vkAcquireNextImageKHR env chain sem s) Q.
Proof.
  intro H. unfold vkAcquireNextImageKHR. apply post_external. intros s1 Happ _ Hadv.
  destruct (acquire_answer env (clock s)) as [res idx]. cbn [fst snd].
  apply H; [exact Happ|exact Hadv|].
  constructor; [exact Hadv|]. constructor; [exact Hadv|constructor].
Qed.

Lemma post_present env queue chain idx s Q :
  (forall s1 h res,
      app s1 = app s -> advances (device s) (device s1) ->
      Forall (advances (device s)) h ->
      Q [EvQueuePresent queue chain idx res] h (Done res) s1) ->
  post (vkQueuePresentKHR env queue chain idx s) Q.
Proof.
  intro H. unfold vkQueuePresentKHR. apply post_external. intros s1 Happ _ Hadv.
  cbn [fst snd]. apply H; [exact Happ|exact Hadv|].
  constructor; [exact Hadv|]. constructor; [exact Hadv|constructor].
Qed.

Lemma post_queue_wait_idle env queue s Q :
  (forall s1 h,
      app s1 = app s -> advances (device s) (device s1) ->
      Forall (advances (device s)) h ->
      Q [EvQueueWaitIdle queue] h (Done tt) s1) ->
  post (vkQueueWaitIdle env queue s) Q.
Proof.
  intro H. unfold vkQueueWaitIdle. apply post_external. intros s1 Happ _ Hadv.
  cbn [fst snd].
  assert (Hadv' : advances (device s) (finish (on_queue queue) (device s1))).
  { eapply advances_trans; [exact Hadv|apply finish_advances]. }
  apply H; [exact Happ|exact Hadv'|].
  constructor; [exact Hadv|]. constructor; [exact Hadv'|constructor].
Qed.

Lemma post_reset env fence s Q :
  (forall s1 d1,
      app s1 = app s -> advances (device s) d1 ->
      device s1 = match fence with
                  | Some f => mkDevice (assign f false (fences d1)) (pending d1) (next_id d1)
                  | None => d1
                  end ->
      Q [EvResetFences fence] [d1; device s1] (Done tt) s1) ->
  post (vkResetFences env fence s) Q.
Proof.
  intro H. unfold vkResetFences. apply post_external. intros s1 Happ _ Hadv.
  destruct fence as [f|]; cbn [fst snd]; apply H; auto.
Qed.

Lemma post_submit env queue cmd fence s Q :
  (forall s1 d1 res,
      app s1 = app s -> advances (device s) d1 ->
      device s1 = match res, fence with
                  | VK_SUCCESS, Some f =>
                      mkDevice (fences d1) (pending d1 ++ [(queue, f)]) (next_id d1)
                  | _, _ => d1
                  end ->
      Q [EvQueueSubmit queue cmd fence res] [d1; device s1] (Done res) s1) ->
  post (vkQueueSubmit env queue cmd fence s) Q.
Proof.
  intro H. unfold vkQueueSubmit. apply post_external. intros s1 Happ _ Hadv.
  cbn [fst snd]. apply H; auto.
Qed.

Lemma post_recreate env fuel s Q :
  (forall rest,
      calls (RecreateSwapChain env fuel s) = EvMember mRecreateSwapChain :: rest ->
      Forall not_frame rest ->
      same_slots (app s) (app (final (RecreateSwapChain env fuel s))) ->
      advances (device s) (device (final (RecreateSwapChain env fuel s))) ->
      Forall (advances (device s)) (history (RecreateSwapChain env fuel s)) ->
      post (RecreateSwapChain env fuel s) Q) ->
  post (RecreateSwapChain env fuel s) Q.
Proof.
  intro H. destruct (RecreateSwapChain_spec env fuel s) as [rest [H1 [H2 [H3 [H4 H5]]]]].
  eapply H; eauto.
Qed.

Ltac walk1 :=
  lazymatch goal with
  | |- post (bind _ _ _) _ => apply post_bind
  | |- post (ret _ _) _ => apply post_ret
  | |- post (member _ _) _ => apply post_member
  | |- post (store _ _) _ => apply post_store
  | |- post (log _ _) _ => apply post_log
  | |- post (enter _ _) _ => apply post_log
  | |- post (throw _ _) _ => apply post_throw
  | |- post (lift _ _) _ => apply post_lift
  | |- post (at_index _ _ _) _ => apply post_at_index
  | |- post (vkWaitForFences _ _ _) _ =>
      apply post_wait; [intros ? ? ? ? ? ? | intros ? ? ? ? ?]
  | |- post (vkResetFences _ _ _) _ => apply post_reset; intros ? ? ? ? ?
  | |- post (vkQueueSubmit _ _ _ _ _) _ => apply post_submit; intros ? ? ? ? ? ?
  | |- post (vkQueueWaitIdle _ _ _) _ => apply post_queue_wait_idle; intros ? ? ? ? ?
  | |- post (vkAcquireNextImageKHR _ _ _ _) _ => apply post_acquire; intros ? ? ? ? ? ? ?
  | |- post (vkQueuePresentKHR _ _ _ _ _) _ => apply post_present; intros ? ? ? ? ? ?
  | |- post (RecreateSwapChain _ _ _) _ =>
      apply post_recreate; intros ? ? ? ? ? ?; unfold post at 1
  | |- post (frame_on_acquired _ _ _ _ _ _ _) _ => unfold frame_on_acquired
  | |- post (frame_after_acquire _ _ _ _ _ _ _) _ => unfold frame_after_acquire
  | |- post (frame_after_submit _ _ _ _ _ _) _ => unfold frame_after_submit
  | |- post (frame_after_present _ _ _ _ _ _) _ => unfold frame_after_present
  | |- post ((if ?b then _ else _) _) _ => destruct b eqn:?
  | |- post ((match ?x with _ => _ end) _) _ => destruct x eqn:?
  | |- match ?x with _ => _ end => destruct x eqn:?
  end;
  cbn beta iota zeta delta [Datatypes.app fst snd].

Ltac walk := repeat walk1.

Lemma count_app p l l' : count p (l ++ l') = count p l + count p l'.
Proof. unfold count. rewrite filter_app, length_app. reflexivity. Qed.

Lemma count_cons p e l : count p (e :: l) = (if p e then 1 else 0) + count p l.
Proof. unfold count. cbn. destruct (p e); reflexivity. Qed.

Lemma count_nil p : count p [] = 0.
Proof. reflexivity. Qed.

Lemma count_zero p l : Forall (fun e => p e = false) l -> count p l = 0.
Proof.
  induction 1 as [|e l He Hl IH]; [reflexivity|].
  rewrite count_cons, He, IH. reflexivity.
Qed.

Lemma not_frame_count p l :
  (forall e, p e = true -> is_frame_call e = true) ->
  Forall not_frame l -> count p l = 0.
Proof.
  intros Hp Hl. apply count_zero. eapply Forall_impl; [|exact Hl].
  intros e He. unfold not_frame in He. destruct (p e) eqn:E; [|reflexivity].
  rewrite (Hp e E) in He. discriminate.
Qed.

Lemma rebuild_is_frame_call e : is_rebuild e = true -> is_frame_call e = true.
Proof. destruct e as [[]| | | | | | | | | | | | | | | | | | | | | | | | |]; cbn; congruence. Qed.

Lemma submit_is_frame_call e : is_submit e = true -> is_frame_call e = true.
Proof. destruct e; cbn; congruence. Qed.

Lemma present_is_frame_call e : is_present e = true -> is_frame_call e = true.
Proof. destruct e; cbn; congruence. Qed.

Lemma acquire_is_frame_call e : is_acquire e = true -> is_frame_call e = true.
Proof. destruct e; cbn; congruence. Qed.

Lemma not_frame_In l e : Forall not_frame l -> In e l -> is_frame_call e = false.
Proof. intros H Hin. rewrite Forall_forall in H. exact (H e Hin). Qed.


Arguments RecreateSwapChain : simpl never.

(** Rewrites the calls of a rebuild and the counts over them. *)
Ltac count_norm :=
  repeat first
    [ rewrite count_app
    | rewrite count_cons
    | rewrite count_nil
    | match goal with
      | Hc : calls (RecreateSwapChain ?e ?f ?s) = _ |- context [calls (RecreateSwapChain ?e ?f ?s)] =>
          rewrite Hc
      | Hn : Forall not_frame ?rest |- context [count is_rebuild ?rest] =>
          rewrite (not_frame_count is_rebuild rest rebuild_is_frame_call Hn)
      | Hn : Forall not_frame ?rest |- context [count is_submit ?rest] =>
          rewrite (not_frame_count is_submit rest submit_is_frame_call Hn)
      | Hn : Forall not_frame ?rest |- context [count is_present ?rest] =>
          rewrite (not_frame_count is_present rest present_is_frame_call Hn)
      | Hn : Forall not_frame ?rest |- context [count is_acquire ?rest] =>
          rewrite (not_frame_count is_acquire rest acquire_is_frame_call Hn)
      end ];
  cbn [is_rebuild is_submit is_present is_acquire Nat.add].

(** Splits a membership in a list of calls into its cases. *)
Ltac in_cases H :=
  repeat first
    [ progress cbn [In] in H
    | rewrite in_app_iff in H
    | match type of H with
      | context [calls (RecreateSwapChain ?e ?f ?s)] =>
          match goal with
          | Hc : calls (RecreateSwapChain e f s) = _ |- _ => rewrite Hc in H
          end
      end ];
  repeat match type of H with
         | _ \/ _ => destruct H as [H|H]
         | False => destruct H
         end.


Ltac absurd_call H :=
  first
    [ discriminate H
    | inversion H; subst;
      match goal with
      | Hb : VkResult_eqb _ _ = false |- _ => cbv in Hb; discriminate Hb
      | Hb : VkResult_eqb _ _ = true |- _ => cbv in Hb; discriminate Hb
      end
    | match goal with
      | Hn : Forall not_frame ?rest |- _ =>
          let Hbad := fresh in
          pose proof (not_frame_In _ _ Hn H) as Hbad; discriminate Hbad
      end ].


Lemma DrawFrame_tracker_overrun env fuel s :
  post (DrawFrame env fuel s) (fun c h o s' =>
    forall chain sem res idx,
      In (EvAcquireNextImage chain sem res idx) c ->
      res = VK_SUCCESS \/ res = VK_SUBOPTIMAL_KHR ->
      List.length (m_vImagesInFlight (app s)) <= idx ->
      o = OutOfBounds /\
      exists fence, c = [EvMember mDrawFrame; EvWaitForFences fence;
                         EvAcquireNextImage chain sem res idx]).
Proof.
  rewrite DrawFrame_stages. walk; intros chain sem res' idx' Hin Hres Hlen.
  all: in_cases Hin; try (absurd_call Hin; fail).
  all: inversion Hin; subst; clear Hin.
  all: try (destruct Hres; subst;
            match goal with Hb : _ = true |- _ => cbv in Hb; discriminate Hb end).
  all: try (split; [reflexivity|eexists; reflexivity]).
  all: apply nth_error_None in Hlen;
    repeat match goal with
           | H : app _ = app _ |- _ => rewrite H in *
           end; congruence.
Qed.

(* ------------------------------------------------------------------ *)
(** ** The frame keeps the device sound *)

Lemma sound_advances d d' : sound d -> advances d d' -> sound d'.
Proof.
  intros [Hl Hc] [Hl' [_ [_ [Hk _]]]]. split; [congruence|auto].
Qed.

Lemma idle_advances d d' f : idle d f -> advances d d' -> idle d' f.
Proof.
  intros Hi [_ [_ [Hsub _]]]. unfold idle in *. eapply is_pending_subset; eauto.
Qed.

Lemma unsignalled_advances d d' f :
  idle d f -> nth_error (fences d) f = Some false -> advances d d' ->
  nth_error (fences d') f = Some false.
Proof.
  intros Hi Hu [_ [_ [_ [_ Hsame]]]]. rewrite Hsame; assumption.
Qed.

Lemma sound_signalled_idle d f : sound d -> signalled d f = true -> idle d f.
Proof. intros [_ Hc] Hs. unfold idle. now apply consistent_not_pending. Qed.

Lemma Forall_sound d h : sound d -> Forall (advances d) h -> Forall sound h.
Proof.
  intros Hs Hh. eapply Forall_impl; [|exact Hh]. intros d' Hd. eapply sound_advances; eauto.
Qed.

Lemma sound_reset d f n :
  sound d -> idle d f -> sound (mkDevice (assign f false (fences d)) (pending d) n).
Proof.
  intros [Hl [Hnd Hun]] Hi. split; cbn [fences pending].
  - rewrite length_assign. exact Hl.
  - split; cbn [fences pending]; [exact Hnd|].
    intros e He. rewrite nth_error_assign_ne; [apply Hun, He|].
    intro Heq. apply is_pending_false in Hi. apply Hi. subst f. now apply in_map.
Qed.

Lemma unsignalled_reset d f n :
  f < List.length (fences d) ->
  nth_error (fences (mkDevice (assign f false (fences d)) (pending d) n)) f = Some false.
Proof. intro H. cbn [fences]. now apply nth_error_assign_eq. Qed.

Lemma sound_submit d q f n :
  sound d -> idle d f -> nth_error (fences d) f = Some false ->
  sound (mkDevice (fences d) (pending d ++ [(q, f)]) n).
Proof.
  intros [Hl [Hnd Hun]] Hi Hu. split; cbn [fences pending]; [exact Hl|].
  split; cbn [fences pending].
  - rewrite map_app. cbn [map snd].
    apply NoDup_app; [exact Hnd|repeat constructor; intros []|].
    intros x Hx [<-|[]]. apply is_pending_false in Hi. contradiction.
  - intros e He. apply in_app_or in He. destruct He as [He|[<-|[]]]; [apply Hun, He|].
    exact Hu.
Qed.

Lemma NoDup_below n l :
  NoDup l -> (forall x, In x l -> x < n) -> List.length l <= n.
Proof.
  intros Hnd Hlt.
  assert (Hincl : incl l (seq 0 n)).
  { intros x Hx. apply in_seq. specialize (Hlt x Hx). lia. }
  pose proof (NoDup_incl_length Hnd Hincl) as H. rewrite length_seq in H. exact H.
Qed.

Lemma sound_bounded d : sound d -> bounded d.
Proof.
  intros [Hl [Hnd Hun]]. split.
  - unfold outstanding. rewrite <- (length_map snd).
    apply NoDup_below; [exact Hnd|].
    intros x Hx. apply in_map_iff in Hx. destruct Hx as [e [<- He]].
    rewrite <- Hl. apply nth_error_Some. rewrite (Hun e He). discriminate.
  - unfold unsignalled. rewrite <- Hl. apply filter_length_le.
Qed.

Ltac have H := lazymatch goal with | _ : H |- _ => fail | _ => idtac end.

Ltac sound_saturate :=
  repeat match goal with
    | Hs : sound ?d, Ha : advances ?d ?d' |- _ =>
        have (sound d'); pose proof (sound_advances _ _ Hs Ha)
    | Hi : idle ?d ?f, Ha : advances ?d ?d' |- _ =>
        have (idle d' f); pose proof (idle_advances _ _ _ Hi Ha)
    | Hu : nth_error (fences ?d) ?f = Some false, Hi : idle ?d ?f, Ha : advances ?d ?d' |- _ =>
        have (nth_error (fences d') f = Some false);
        pose proof (unsignalled_advances _ _ _ Hi Hu Ha)
    | Hs : sound ?d, Hh : Forall (advances ?d) ?h |- _ =>
        have (Forall sound h); pose proof (Forall_sound _ _ Hs Hh)
    | Hs : sound ?d, Hw : consistent ?d -> exists f, _ = Some f /\ _ |- _ =>
        let f := fresh "f" in
        let He := fresh in
        destruct (Hw (proj2 Hs)) as [f [He ?]]; clear Hw;
        first [ inversion He; subst f; clear He | subst ]
    | Hs : sound ?d, Hg : signalled ?d ?f = true |- _ =>
        have (idle d f); pose proof (sound_signalled_idle _ _ Hs Hg)
    | Hd : device ?s = mkDevice (assign ?f false (fences ?d1)) (pending ?d1) ?n,
      Hs : sound ?d1, Hi : idle ?d1 ?f |- _ =>
        have (sound (device s));
        assert (sound (device s)) by (rewrite Hd; apply sound_reset; assumption);
        assert (idle (device s) f) by (rewrite Hd; exact Hi);
        assert (nth_error (fences (device s)) f = Some false)
          by (rewrite Hd; apply unsignalled_reset; rewrite (proj1 Hs); unfold MAX_FRAMES_IN_FLIGHT, g_maxFramesInFlight; lia)
    | Hd : device ?s = mkDevice (fences ?d1) (pending ?d1 ++ [(?q, ?f)]) ?n,
      Hs : sound ?d1, Hi : idle ?d1 ?f, Hu : nth_error (fences ?d1) ?f = Some false |- _ =>
        have (sound (device s));
        assert (sound (device s)) by (rewrite Hd; apply sound_submit; assumption)
    | Hd : device ?s = ?d1, Hs : sound ?d1 |- _ =>
        have (sound (device s));
        assert (sound (device s)) by (rewrite Hd; exact Hs)
    end.

Ltac field_chain :=
  repeat first
    [ progress cbn [app device clock set_m_framebufferResized set_m_currentFrame
                    set_m_vImagesInFlight m_vFences m_currentFrame m_framebufferResized
                    m_vImagesInFlight]
    | match goal with
      | H : same_slots _ (app ?s) |- context [m_vFences (app ?s)] => rewrite (proj1 H)
      | H : same_slots _ (app ?s) |- context [m_currentFrame (app ?s)] =>
          rewrite (proj1 (proj2 (proj2 H)))
      | H : app ?s = _ |- context [app ?s] => rewrite H
      end ].

Ltac result_cases :=
  repeat match goal with
    | Hb : succeeded ?r = true |- _ =>
        apply VkResult_eqb_eq in Hb; subst r
    end;
  repeat match goal with
    | Hd : device _ = match ?r with VK_SUCCESS => _ | _ => _ end |- _ =>
        is_var r; destruct r; try discriminate
    end.

Ltac Forall_pieces :=
  repeat lazymatch goal with
    | |- Forall _ [] => apply Forall_nil
    | |- Forall _ (_ :: _) => apply Forall_cons
    | |- Forall _ (_ ++ _) => apply Forall_app; split
    | |- _ => assumption
    end.

Lemma follow_not_frame l f :
  Forall not_frame l -> fold_left follow l (Waited f) = Waited f.
Proof.
  induction 1 as [|e l He Hl IH]; [reflexivity|].
  cbn [fold_left]. replace (follow (Waited f) e) with (Waited f); [exact IH|].
  unfold not_frame in He.
  destruct e as [[]| | | | | | | | | | | | | | | | | | | | | | | | |];
    try reflexivity; discriminate He.
Qed.

Lemma follow_not_frame_none l :
  Forall not_frame l -> fold_left follow l NoFrame = NoFrame.
Proof.
  induction 1 as [|e l He Hl IH]; [reflexivity|].
  cbn [fold_left]. replace (follow NoFrame e) with NoFrame; [exact IH|].
  unfold not_frame in He.
  destruct e as [[]| | | | | | | | | | | | | | | | | | | | | | | | |];
    try reflexivity; discriminate He.
Qed.

(** Follows the calls of a frame through the phases. *)
Ltac follow_calls :=
  repeat first
    [ rewrite fold_left_app
    | match goal with
      | Hc : calls (RecreateSwapChain ?e ?f ?s) = _ |- context [calls (RecreateSwapChain ?e ?f ?s)] =>
          rewrite Hc
      | Hn : Forall not_frame ?rest |- context [fold_left follow ?rest (Waited ?f)] =>
          rewrite (follow_not_frame rest f Hn)
      end
    | progress cbn [fold_left follow Handle_eqb Nat.eqb settled] ].

(** A frame begun in a state of the frame loop keeps the device sound at
    every instant, keeps the order of the calls and ends in a state of the
    frame loop. *)
Lemma DrawFrame_sound env fuel s :
  frame_ready s ->
  post (DrawFrame env fuel s) (fun c h o s' =>
    Forall sound h /\ frame_ready s' /\
    (forall p, settled p = true -> settled (fold_left follow c p) = true) /\
    exists fence rest,
      nth_error (m_vFences (app s)) (m_currentFrame (app s)) = Some fence /\
      c = EvMember mDrawFrame :: EvWaitForFences fence :: rest).
Proof.
  intros [Hb [Hf [Hl Hc]]].
  assert (Hs : sound (device s)) by (split; assumption).
  rewrite DrawFrame_stages. walk.
  all: cbn [app device clock] in *.
  all: try (apply nth_error_None in Heqo; rewrite Hf in Heqo; cbn in Heqo;
            unfold MAX_FRAMES_IN_FLIGHT, g_maxFramesInFlight in Hb; lia).
  all: try (rewrite Hf in Heqo;
            destruct (m_currentFrame (app s)) as [|[|n]] eqn:Ecur;
            [ | | destruct n; discriminate Heqo ];
            cbn in Heqo; inversion Heqo; subst h; clear Heqo).
  all: result_cases; cbn beta iota in *; sound_saturate.
  all: split; [Forall_pieces|].
  all: split;
    [ split; [|split; [|assumption]]
    | split;
      [ intros p Hp; destruct p; try discriminate Hp; follow_calls; reflexivity
      | eexists; eexists; split; reflexivity ] ].
  all: field_chain; try assumption.
  all: try (rewrite Ecur); cbv; lia.
Qed.

(* ------------------------------------------------------------------ *)
(** ** The synchronisation objects and the loop *)

Lemma post_weaken {A} (r : Run A) (Q Q' : list Event -> list Device -> Outcome A -> State -> Prop) :
  post r Q -> (forall c h o s, Q c h o s -> Q' c h o s) -> post r Q'.
Proof. unfold post. auto. Qed.

Lemma at_rest_advances k d d' : at_rest k d -> advances d d' -> at_rest k d'.
Proof.
  intros [Hf Hp] [Hl [_ [Hsub [_ Hsame]]]]. split.
  - rewrite <- Hf. apply nth_error_ext. intro n. apply Hsame.
    unfold is_pending. rewrite Hp. reflexivity.
  - destruct (pending d') as [|e l]; [reflexivity|].
    specialize (Hsub e (or_introl eq_refl)). rewrite Hp in Hsub. destruct Hsub.
Qed.

Lemma at_rest_bounded k d : k <= MAX_FRAMES_IN_FLIGHT -> at_rest k d -> bounded d.
Proof.
  intros Hk [Hf Hp]. unfold bounded, outstanding, unsignalled. rewrite Hf, Hp. split.
  - cbn. lia.
  - etransitivity; [apply filter_length_le|]. rewrite repeat_length. exact Hk.
Qed.

Lemma at_rest_sound d : at_rest MAX_FRAMES_IN_FLIGHT d -> sound d.
Proof.
  intros [Hf Hp]. split.
  - rewrite Hf. apply repeat_length.
  - split; rewrite Hp; [constructor|intros e []].
Qed.

Lemma Forall_at_rest k d h : at_rest k d -> Forall (advances d) h -> Forall (at_rest k) h.
Proof.
  intros Hs Hh. eapply Forall_impl; [|exact Hh]. intros d' Hd. eapply at_rest_advances; eauto.
Qed.

Lemma post_create env kind old s Q :
  (forall s1 h res hd,
      app s1 = app s -> advances (device s) (device s1) ->
      Forall (advances (device s)) h ->
      Q [EvCreate kind old res hd] h (Done (res, hd)) s1) ->
  post (vkCreate env kind old s) Q.
Proof.
  intro H. unfold vkCreate. apply post_external. intros s1 Happ _ Hadv.
  assert (Hnext : advances (device s)
            (mkDevice (fences (device s1)) (pending (device s1)) (S (next_id (device s1))))).
  { eapply advances_trans; [exact Hadv|]. apply (next_id_advances _ (S (next_id (device s1)))). }
  destruct (create_answer env (clock s)); cbn [fst snd];
    (apply H; [exact Happ| |]);
    try exact Hadv; try exact Hnext;
    repeat (constructor; try exact Hadv; try exact Hnext).
Qed.

Lemma post_create_fence env s Q :
  (forall s1 d1 res hd,
      app s1 = app s -> advances (device s) d1 ->
      (if succeeded res
       then hd = Some (List.length (fences d1)) /\
            device s1 = mkDevice (fences d1 ++ [true]) (pending d1) (next_id d1)
       else device s1 = d1) ->
      Q [EvCreate Fence VK_NULL_HANDLE res hd] [d1; device s1] (Done (res, hd)) s1) ->
  post (vkCreateFence env s) Q.
Proof.
  intro H. unfold vkCreateFence. apply post_external. intros s1 Happ _ Hadv.
  destruct (create_answer env (clock s)); cbn [fst snd];
    (apply H; [exact Happ|exact Hadv|]); cbn; auto.
Qed.

Ltac walk2 :=
  first
    [ walk1
    | lazymatch goal with
      | |- post (vkCreate _ _ _ _) _ => apply post_create; intros ? ? ? ? ? ? ?
      | |- post (vkCreateFence _ _) _ => apply post_create_fence; intros ? ? ? ? ? ? ?
      | |- post (CreateSyncObjects _ _) _ => unfold CreateSyncObjects
      | |- post (for_range _ _ _ _) _ =>
          unfold MAX_FRAMES_IN_FLIGHT, g_maxFramesInFlight; cbn [for_range]
      end ];
  cbn beta iota zeta delta [Datatypes.app fst snd].

Ltac rest_saturate :=
  repeat match goal with
    | Hs : at_rest ?k ?d, Ha : advances ?d ?d' |- _ =>
        have (at_rest k d'); pose proof (at_rest_advances _ _ _ Hs Ha)
    | Hs : at_rest ?k ?d, Hh : Forall (advances ?d) ?h |- _ =>
        have (Forall (at_rest k) h); pose proof (Forall_at_rest _ _ _ Hs Hh)
    | Hd : _ /\ device ?s = mkDevice (fences ?d1 ++ [true]) (pending ?d1) ?n |- _ =>
        destruct Hd
    | Hd : device ?s = mkDevice (fences ?d1 ++ [true]) (pending ?d1) ?n,
      Hs : at_rest ?k ?d1 |- _ =>
        have (at_rest (S k) (device s));
        assert (at_rest (S k) (device s))
          by (rewrite Hd; split; cbn [fences pending];
              [rewrite (proj1 Hs); symmetry; apply repeat_cons|exact (proj2 Hs)])
    | Hd : device ?s = ?d1, Hs : at_rest ?k ?d1 |- _ =>
        have (at_rest k (device s));
        assert (at_rest k (device s)) by (rewrite Hd; exact Hs)
    end.

Lemma Forall_bounded_at_rest k h :
  k <= MAX_FRAMES_IN_FLIGHT -> Forall (at_rest k) h -> Forall bounded h.
Proof.
  intros Hk Hh. eapply Forall_impl; [|exact Hh]. intros d. now apply at_rest_bounded.
Qed.

Ltac bounded_pieces :=
  repeat lazymatch goal with
    | |- Forall _ [] => apply Forall_nil
    | |- Forall _ (_ :: _) => apply Forall_cons
    | |- Forall _ (_ ++ _) => apply Forall_app; split
    | |- bounded _ =>
        eapply at_rest_bounded; [|eassumption];
        unfold MAX_FRAMES_IN_FLIGHT, g_maxFramesInFlight; lia
    | |- Forall bounded _ =>
        eapply Forall_bounded_at_rest; [|eassumption];
        unfold MAX_FRAMES_IN_FLIGHT, g_maxFramesInFlight; lia
    end.

Ltac fields :=
  repeat first
    [ progress cbn [app device clock set_m_framebufferResized set_m_currentFrame
                    set_m_vImagesInFlight set_m_vFences set_m_vImageAvailableSemaphores
                    set_m_vRenderFinishedSemaphores m_vFences m_currentFrame
                    m_framebufferResized m_vImagesInFlight m_vSwapChainImageViews
                    m_vImageAvailableSemaphores m_vRenderFinishedSemaphores]
    | match goal with
      | H : app ?s = _ |- context [app ?s] => rewrite H
      end ].

Lemma CreateSyncObjects_ready env s :
  before_sync_objects s ->
  post (CreateSyncObjects env s) (fun c h o s' =>
    Forall bounded h /\ Forall not_frame c /\
    (forall a, o = Done a -> frame_ready s' /\ at_rest MAX_FRAMES_IN_FLIGHT (device s'))).
Proof.
  intros [Hf [Hp [Hv [_ [_ Hcur]]]]].
  assert (Hs : at_rest 0 (device s)) by (split; assumption).
  walk2. repeat walk2.
  all: cbn [app device clock] in *.
  all: rest_saturate.
  all: split; [bounded_pieces|].
  all: split; [repeat (apply Forall_cons; [reflexivity|]); apply Forall_nil|].
  all: intros a Ha; try discriminate Ha.
  all: try match goal with H : negb _ = _ |- _ => discriminate H end.
  all: repeat match goal with
         | H : ?hd = Some (List.length (fences ?d)), Hr : at_rest ?k ?d |- _ =>
             rewrite (proj1 Hr), repeat_length in H; subst hd
         end.
  all: match goal with
       | Hr : at_rest 2 (device ?s) |- _ /\ at_rest _ (device ?s) =>
           split; [|exact Hr];
           split; [|split; [|exact (at_rest_sound _ Hr)]]
       end.
  all: fields; rewrite ?Hv, ?Hcur; cbv; try reflexivity; lia.
Qed.

Lemma post_plain env {A} (answer : nat -> A) (e : A -> Event) s Q :
  (forall s1 h a,
      app s1 = app s -> advances (device s) (device s1) ->
      Forall (advances (device s)) h ->
      Q [e a] h (Done a) s1) ->
  post (plain env answer e s) Q.
Proof.
  intro H. unfold plain. apply post_external. intros s1 Happ _ Hadv.
  cbn [fst snd]. apply H; [exact Happ|exact Hadv|].
  constructor; [exact Hadv|]. constructor; [exact Hadv|constructor].
Qed.

Lemma post_device_wait_idle env s Q :
  (forall s1 h,
      app s1 = app s -> advances (device s) (device s1) ->
      Forall (advances (device s)) h ->
      Q [EvDeviceWaitIdle] h (Done tt) s1) ->
  post (vkDeviceWaitIdle env s) Q.
Proof.
  intro H. unfold vkDeviceWaitIdle. apply post_external. intros s1 Happ _ Hadv.
  cbn [fst snd].
  assert (Hadv' : advances (device s) (finish (fun _ => true) (device s1))).
  { eapply advances_trans; [exact Hadv|apply finish_advances]. }
  apply H; [exact Happ|exact Hadv'|].
  constructor; [exact Hadv|]. constructor; [exact Hadv'|constructor].
Qed.

Lemma post_process_events env e s Q :
  (forall s1 h c,
      same_slots (app s) (app s1) -> advances (device s) (device s1) ->
      Forall (advances (device s)) h ->
      c = [e] \/ c = [e; EvResizeCallBack] ->
      Q c h (Done tt) s1) ->
  post (process_events env e s) Q.
Proof.
  intro H. unfold process_events. apply post_external. intros s1 Happ _ Hadv.
  assert (Hh : Forall (advances (device s)) [device s1; device s1]).
  { constructor; [exact Hadv|]. constructor; [exact Hadv|constructor]. }
  destruct (resize_event env (clock s)); cbn [fst snd];
    (apply H; [|exact Hadv|exact Hh|auto]).
  - cbn [app]. rewrite Happ. unfold same_slots, FrameBufferResizeCallBack. cbn. tauto.
  - rewrite Happ. apply same_slots_refl.
Qed.

Lemma frame_ready_moved s s' :
  frame_ready s -> same_slots (app s) (app s') -> advances (device s) (device s') ->
  frame_ready s'.
Proof.
  intros [Hb [Hf Hs]] [Hf' [_ [Hc' _]]] Ha.
  split; [rewrite Hc'; exact Hb|]. split; [rewrite Hf'; exact Hf|].
  exact (sound_advances _ _ Hs Ha).
Qed.

(** The loop keeps the device sound at every instant and its calls in
    order. *)
Lemma MainLoop_sound env fuel n : forall s,
  frame_ready s ->
  post (MainLoop env fuel n s) (fun c h o s' =>
    Forall sound h /\
    forall p, settled p = true -> settled (fold_left follow c p) = true).
Proof.
  induction n as [|n IH]; intros s Hr.
  - split; [constructor|]. intros p Hp. exact Hp.
  - assert (Hs : sound (device s)) by (destruct Hr as [_ [_ Hs]]; exact Hs).
    cbn [MainLoop]. apply post_bind. unfold glfwWindowShouldClose.
    apply post_plain. intros s1 h close Happ Ha Hh.
    assert (Hr1 : frame_ready s1).
    { eapply frame_ready_moved; [exact Hr| |exact Ha]. rewrite Happ. apply same_slots_refl. }
    assert (Hs1 : sound (device s1)) by (destruct Hr1 as [_ [_ Hs1]]; exact Hs1).
    assert (Hh' : Forall sound h) by (eapply Forall_sound; [exact Hs|exact Hh]).
    destruct close.
    + apply post_device_wait_idle. intros s2 h2 _ Ha2 Hh2. split.
      * apply Forall_app. split; [exact Hh'|]. eapply Forall_sound; [exact Hs1|exact Hh2].
      * intros p Hp. destruct p; try discriminate Hp; reflexivity.
    + apply post_bind. unfold glfwPollEvents.
      apply post_process_events. intros s2 h2 c2 Happ2 Ha2 Hh2 Hc2.
      assert (Hr2 : frame_ready s2) by (eapply frame_ready_moved; eauto).
      apply post_bind.
      eapply post_weaken; [apply (DrawFrame_sound env fuel s2 Hr2)|].
      intros c3 h3 o3 s3 [Hh3 [Hr3 [Ho3 _]]].
      assert (Hpre : Forall sound (h ++ h2 ++ h3)).
      { apply Forall_app. split; [exact Hh'|].
        apply Forall_app. split; [|exact Hh3].
        eapply Forall_sound; [exact Hs1|exact Hh2]. }
      assert (Hord : forall p, settled p = true ->
                settled (fold_left follow ([EvWindowShouldClose false] ++ c2 ++ c3) p) = true).
      { intros p Hp. rewrite !fold_left_app. apply Ho3.
        destruct Hc2 as [-> | ->]; destruct p; try discriminate Hp; reflexivity. }
      destruct o3 as [[]| | |]; try (split; assumption).
      eapply post_weaken; [apply (IH s3 Hr3)|].
      intros c4 h4 o4 s4 [Hh4 Ho4]. split.
      * rewrite !app_assoc. apply Forall_app. split; [|exact Hh4].
        rewrite <- !app_assoc. exact Hpre.
      * intros p Hp. rewrite !app_assoc, fold_left_app. apply Ho4.
        rewrite <- !app_assoc. apply Hord, Hp.
Qed.

(** [CreateSyncObjects] gives the tracker of the images in flight the size
    of the swap chain. *)
Lemma CreateSyncObjects_sizes_tracker env s :
  post (CreateSyncObjects env s) (fun c h o s' =>
    forall a, o = Done a ->
      List.length (m_vImagesInFlight (app s')) = List.length (m_vSwapChainImageViews (app s)) /\
      m_vSwapChainImageViews (app s') = m_vSwapChainImageViews (app s)).
Proof.
  walk2. repeat walk2.
  all: cbn [app device clock] in *.
  all: intros a Ha; try discriminate Ha.
  all: try match goal with H : negb _ = _ |- _ => discriminate H end.
  all: fields; split; [apply length_resize|reflexivity].
Qed.

(* ------------------------------------------------------------------ *)
(** ** The frame loop *)

Lemma Forall_sound_bounded h : Forall sound h -> Forall bounded h.
Proof. intro H. eapply Forall_impl; [|exact H]. exact sound_bounded. Qed.

Lemma follow_settles l : Forall not_frame l -> fold_left follow l NoFrame = NoFrame.
Proof. exact (follow_not_frame_none l). Qed.

(** C1.  From the creation of the synchronisation objects on and through
    any number of rounds of the main loop, at every instant at most
    [MAX_FRAMES_IN_FLIGHT] submissions are executing and at most
    [MAX_FRAMES_IN_FLIGHT] fences are unsignalled; the calls keep the order
    of a frame (the first call of [DrawFrame] waits for a fence, only that
    fence is reset, and the call after the reset is the submission that
    signals it); and the fence a frame first waits for is the one of its
    slot. *)
Theorem frame_loop_bounds_work_in_flight env fuel n s0 :
  before_sync_objects s0 ->
  let r := (CreateSyncObjects env ;; MainLoop env fuel n) s0 in
  Forall bounded (history r) /\
  in_order (calls r) /\
  forall s, frame_ready s ->
    exists fence rest,
      nth_error (m_vFences (app s)) (m_currentFrame (app s)) = Some fence /\
      calls (DrawFrame env fuel s) = EvMember mDrawFrame :: EvWaitForFences fence :: rest.
Proof.
  intros H0 r.
  assert (Hloop : post r (fun c h _ _ => Forall bounded h /\ in_order c)).
  { subst r. apply post_bind.
    eapply post_weaken; [apply (CreateSyncObjects_ready env s0 H0)|].
    intros c h o s1 [Hh [Hc Hready]].
    assert (Hord : in_order c) by (unfold in_order; now rewrite follow_settles).
    destruct o as [[]| | |]; try (split; assumption).
    destruct (Hready tt eq_refl) as [Hr _].
    eapply post_weaken; [apply (MainLoop_sound env fuel n s1 Hr)|].
    intros c' h' o' s' [Hh' Hc']. split.
    - apply Forall_app. split; [exact Hh|]. now apply Forall_sound_bounded.
    - unfold in_order. rewrite fold_left_app. apply Hc'. exact Hord. }
  destruct Hloop as [Hb Ho]. split; [exact Hb|]. split; [exact Ho|].
  intros s Hs.
  destruct (DrawFrame_sound env fuel s Hs) as [_ [_ [_ Hw]]]. exact Hw.
Qed.

Lemma frame_loop_bounds_work_in_flight_witness :
  before_sync_objects sample_start /\
  Forall bounded (history ((CreateSyncObjects calm_env ;; MainLoop calm_env 0 3) sample_start)) /\
  in_order (calls ((CreateSyncObjects calm_env ;; MainLoop calm_env 0 3) sample_start)).
Proof.
  assert (H0 : before_sync_objects sample_start) by (repeat split; reflexivity).
  split; [exact H0|].
  destruct (frame_loop_bounds_work_in_flight calm_env 0 3 sample_start H0) as [Hb [Ho _]].
  split; [exact Hb|exact Ho].
Defined.

(* ------------------------------------------------------------------ *)
(** ** A stale chain at the acquisition *)




(* ------------------------------------------------------------------ *)
(** ** The order of a rebuild *)

(** C4 (as the code has it).  In every rebuild the chain that was current
    when the rebuild began is destroyed before any swap chain is created,
    and the member for the old chain is left as it was: nothing ever
    assigns it. *)
Theorem RecreateSwapChain_destroys_before_creating env fuel s pre e post :
  calls (RecreateSwapChain env fuel s) = pre ++ e :: post ->
  creates_swapchain e = true ->
  In (EvDestroy Swapchain (m_currentSwapChain (app s))) pre /\
  m_oldSwapChain (app (final (RecreateSwapChain env fuel s))) = m_oldSwapChain (app s).
Proof.
  intros Hsplit He. split.
  - exact (RecreateSwapChain_destroys_first env fuel s pre e post Hsplit He).
  - destruct (RecreateSwapChain_spec env fuel s) as [rest [_ [_ [Hsame _]]]].
    destruct Hsame as [_ [_ [_ [_ [_ [_ [_ Hold]]]]]]]. exact Hold.
Qed.

Lemma RecreateSwapChain_destroys_before_creating_witness :
  In (EvDestroy Swapchain (Some 100))
     (firstn 17 (calls (RecreateSwapChain calm_env 0 sample_ready))) /\
  m_oldSwapChain (app (final (RecreateSwapChain calm_env 0 sample_ready))) = VK_NULL_HANDLE.
Proof.
  apply (RecreateSwapChain_destroys_before_creating calm_env 0 sample_ready
           (firstn 17 (calls (RecreateSwapChain calm_env 0 sample_ready)))
           (EvCreate Swapchain VK_NULL_HANDLE VK_SUCCESS (Some 204))
           (skipn 18 (calls (RecreateSwapChain calm_env 0 sample_ready))));
    vm_compute; reflexivity.
Defined.

(** In the calm world the chain in use, handle 100, is destroyed at the
    fourteenth call of the rebuild, the only creation of a swap chain is
    the eighteenth, and the old chain handed to it is the null handle. *)
Lemma RecreateSwapChain_destroys_the_chain_first :
  m_currentSwapChain (app sample_ready) = Some 100 /\
  first_index (destroys_swapchain (Some 100))
              (calls (RecreateSwapChain calm_env 0 sample_ready)) = Some 13 /\
  last_index (destroys_swapchain (Some 100))
             (calls (RecreateSwapChain calm_env 0 sample_ready)) = Some 13 /\
  first_index creates_swapchain (calls (RecreateSwapChain calm_env 0 sample_ready)) = Some 17 /\
  nth_error (calls (RecreateSwapChain calm_env 0 sample_ready)) 17 =
    Some (EvCreate Swapchain VK_NULL_HANDLE VK_SUCCESS (Some 204)).
Proof. vm_compute. repeat split. Qed.

(* ------------------------------------------------------------------ *)
(** ** Queue families *)

(** C5 (as the code has it).  [FindQueueFamilies] looks at the families
    in index order up to and including the first one at which both roles
    have been seen, and stops there: what follows has no effect.  For each
    role it records the last family among those looked at that supports
    it, which is the first such family for the role seen last, and need
    not be for the other.  The result is complete exactly when each role
    has a supporting family. *)
Theorem FindQueueFamilies_records_last_scanned (device : PhysicalDevice) :
  let l := queueFamilies device in
  let found := FindQueueFamilies device in
  graphicsFamily found = last_index supports_graphics (firstn (scanned l) l) /\
  presentFamily found = last_index supports_present (firstn (scanned l) l) /\
  IsComplete found = existsb supports_graphics l && existsb supports_present l /\
  (forall rest,
      IsComplete found = true ->
      FindQueueFamilies (with_families (firstn (scanned l) l ++ rest) device) = found) /\
  (forall a b,
      first_index supports_graphics l = Some a ->
      first_index supports_present l = Some b ->
      (a <= b -> presentFamily found = Some b) /\
      (b <= a -> graphicsFamily found = Some a)).
Proof.
  intros l found.
  assert (Hspec : found = mkIndices (last_index supports_graphics (firstn (scanned l) l))
                                    (last_index supports_present (firstn (scanned l) l))).
  { exact (FindQueueFamilies_spec device). }
  split; [rewrite Hspec; reflexivity|].
  split; [rewrite Hspec; reflexivity|].
  split; [exact (FindQueueFamilies_complete device)|].
  split; [exact (fun rest => FindQueueFamilies_stops device rest)|].
  intros a b Ha Hb. rewrite Hspec. cbn [graphicsFamily presentFamily].
  unfold scanned. rewrite Ha, Hb. split; intro Hle.
  - rewrite Nat.max_r by exact Hle. now apply last_index_le_first.
  - rewrite Nat.max_l by exact Hle. now apply last_index_le_first.
Qed.

(** With two families that only present followed by one that only does
    graphics, the family recorded for presentation is the second, not the
    first. *)
Lemma FindQueueFamilies_records_a_later_family :
  first_index supports_present [present_only; present_only; graphics_only] = Some 0 /\
  FindQueueFamilies (with_families [present_only; present_only; graphics_only] device_A)
  = mkIndices (Some 2) (Some 1).
Proof. split; reflexivity. Qed.

(* ------------------------------------------------------------------ *)
(** ** A window without area *)

(** C8.  In a rebuild, every call that takes the swap chain down or
    builds it comes after a look at the framebuffer size that found an
    area; and a rebuild that never finds one does nothing but look and
    wait for events, and does not return. *)
Theorem RecreateSwapChain_waits_for_an_area env fuel s :
  let r := RecreateSwapChain env fuel s in
  (forall pre e post,
      calls r = pre ++ e :: post ->
      is_construction e = true \/ is_teardown e = true ->
      saw_area pre) /\
  (~ saw_area (calls r) ->
   outcome r = Blocked /\
   Forall (fun e => is_polling e = true) (calls r) /\
   count is_construction (calls r) = 0 /\ count is_teardown (calls r) = 0).
Proof.
  intro r.
  destruct (RecreateSwapChain_polls_first_aux env fuel s) as [Hfirst [_ Hnone]].
  fold r in Hfirst, Hnone. split.
  - intros pre e post Hsplit He. apply (Hfirst pre e post Hsplit).
    destruct (is_polling e) eqn:Ep; [|reflexivity].
    destruct (polling_is_neither e Ep) as [Hc Ht].
    destruct He as [He|He]; congruence.
  - intro Hno. destruct (Hnone Hno) as [Hout Hpoll].
    split; [exact Hout|]. split; [exact Hpoll|].
    split; apply count_zero; (eapply Forall_impl; [|exact Hpoll]);
      intros e Ep; destruct (polling_is_neither e Ep); assumption.
Qed.

Lemma RecreateSwapChain_waits_for_an_area_witness :
  saw_area (firstn 7 (calls (RecreateSwapChain minimised_env 10 sample_ready))).
Proof.
  apply (proj1 (RecreateSwapChain_waits_for_an_area minimised_env 10 sample_ready)
           (firstn 7 (calls (RecreateSwapChain minimised_env 10 sample_ready)))
           (EvMember mCleanupSwapChain)
           (skipn 8 (calls (RecreateSwapChain minimised_env 10 sample_ready)))).
  - vm_compute. reflexivity.
  - right. reflexivity.
Defined.

(* ------------------------------------------------------------------ *)
(** ** The tracker of the images in flight *)

Lemma RecreateSwapChain_keeps_tracker env fuel s :
  m_vImagesInFlight (app (final (RecreateSwapChain env fuel s))) = m_vImagesInFlight (app s).
Proof.
  destruct (RecreateSwapChain_spec env fuel s) as [rest [_ [_ [Hsame _]]]].
  destruct Hsame as [_ [Ht _]]. exact Ht.
Qed.

Lemma vkWaitForFences_signalled env f s :
  signalled (device s) f = true ->
  vkWaitForFences env (Some f) s =
  mkRun (Done tt) (gpu_step env s) [EvWaitForFences (Some f)]
        [device (gpu_step env s); device (gpu_step env s)].
Proof.
  intro Hs. unfold vkWaitForFences, external.
  destruct (gpu_step_advances env s) as [_ [Hkeep _]].
  rewrite (Hkeep f Hs). reflexivity.
Qed.

Lemma at_index_inside {A} (v : list A) i x s :
  nth_error v i = Some x -> at_index v i s = mkRun (Done x) s [] [].
Proof. intro H. unfold at_index. rewrite H. reflexivity. Qed.

(** One step of a run whose first part returns. *)
Lemma run_bind {A B} (m : M A) (k : A -> M B) s a s' c h o l l' :
  m s = mkRun (Done a) s' c h ->
  outcome (k a s') = o /\ calls (k a s') = l ->
  l' = c ++ l ->
  outcome (bind m k s) = o /\ calls (bind m k s) = l'.
Proof.
  intros Hm [Ho Hl] ->. unfold bind. rewrite Hm. cbn. rewrite Ho, Hl. split; reflexivity.
Qed.

Lemma DrawFrame_reads_outside_tracker env fuel s f sem res idx :
  nth_error (m_vFences (app s)) (m_currentFrame (app s)) = Some (Some f) ->
  signalled (device s) f = true ->
  nth_error (m_vImageAvailableSemaphores (app s)) (m_currentFrame (app s)) = Some sem ->
  acquire_answer env (S (clock s)) = (res, idx) ->
  res = VK_SUCCESS \/ res = VK_SUBOPTIMAL_KHR ->
  List.length (m_vImagesInFlight (app s)) <= idx ->
  outcome (DrawFrame env fuel s) = OutOfBounds /\
  calls (DrawFrame env fuel s) =
    [EvMember mDrawFrame; EvWaitForFences (Some f);
     EvAcquireNextImage (m_currentSwapChain (app s)) sem res idx].
Proof.
  intros Hfence Hsig Hsem Hacq Hres Hlen.
  rewrite DrawFrame_stages.
  eapply run_bind; [reflexivity| |reflexivity].
  eapply run_bind; [reflexivity| |reflexivity].
  eapply run_bind; [reflexivity| |reflexivity].
  eapply run_bind; [exact (at_index_inside _ _ _ _ Hfence)| |reflexivity].
  eapply run_bind; [exact (vkWaitForFences_signalled env f s Hsig)| |reflexivity].
  eapply run_bind; [reflexivity| |reflexivity].
  eapply run_bind; [exact (at_index_inside _ _ _ _ Hsem)| |reflexivity].
  eapply run_bind; [reflexivity| |reflexivity].
  assert (Hq : vkAcquireNextImageKHR env (m_currentSwapChain (app (gpu_step env s))) sem
                 (gpu_step env s) =
               mkRun (Done (res, idx)) (gpu_step env (gpu_step env s))
                 [EvAcquireNextImage (m_currentSwapChain (app s)) sem res idx]
                 [device (gpu_step env (gpu_step env s));
                  device (gpu_step env (gpu_step env s))]).
  { unfold vkAcquireNextImageKHR, external.
    change (clock (gpu_step env s)) with (S (clock s)). rewrite Hacq. reflexivity. }
  eapply run_bind; [exact Hq| |reflexivity].
  assert (E1 : VkResult_eqb res VK_ERROR_OUT_OF_DATE_KHR = false)
    by (destruct Hres; subst res; reflexivity).
  assert (E2 : negb (VkResult_eqb res VK_SUCCESS) && negb (VkResult_eqb res VK_SUBOPTIMAL_KHR)
               = false) by (destruct Hres; subst res; reflexivity).
  unfold frame_on_acquired. rewrite E1, E2. unfold frame_after_acquire.
  eapply run_bind; [reflexivity| |reflexivity].
  apply nth_error_None in Hlen.
  unfold bind at 1 2. unfold at_index. cbn [gpu_step app]. rewrite Hlen. split; reflexivity.
Qed.

(** After a rebuild the frame reads outside the tracker as soon as the
    index acquired is one the old chain did not have. *)
Lemma DrawFrame_after_rebuild_reads_outside env fuel s env' fuel' f sem res idx :
  let s' := final (RecreateSwapChain env fuel s) in
  nth_error (m_vFences (app s)) (m_currentFrame (app s)) = Some (Some f) ->
  signalled (device s) f = true ->
  nth_error (m_vImageAvailableSemaphores (app s)) (m_currentFrame (app s)) = Some sem ->
  acquire_answer env' (S (clock s')) = (res, idx) ->
  res = VK_SUCCESS \/ res = VK_SUBOPTIMAL_KHR ->
  List.length (m_vImagesInFlight (app s)) <= idx ->
  outcome (DrawFrame env' fuel' s') = OutOfBounds /\
  calls (DrawFrame env' fuel' s') =
    [EvMember mDrawFrame; EvWaitForFences (Some f);
     EvAcquireNextImage (m_currentSwapChain (app s')) sem res idx].
Proof.
  intros s' Hfence Hsig Hsem Hacq Hres Hlen.
  destruct (RecreateSwapChain_spec env fuel s) as [rest [_ [_ [Hsame [Hadv _]]]]].
  fold s' in Hsame, Hadv.
  destruct Hsame as [Hf [Ht [Hc [Hsem' _]]]].
  apply DrawFrame_reads_outside_tracker; try assumption.
  - rewrite Hf, Hc. exact Hfence.
  - destruct Hadv as [_ [Hkeep _]]. exact (Hkeep f Hsig).
  - rewrite Hsem', Hc. exact Hsem.
  - rewrite Ht. exact Hlen.
Qed.

(** C10.  [CreateSyncObjects] gives the tracker of the images in flight
    the length of the swap chain; a rebuild leaves the tracker as it is,
    whatever the number of images of the new chain, so that the two
    lengths can differ afterwards.  A frame whose slot is free and whose
    acquisition answers an index at or beyond the length of the tracker
    makes the acquisition and reads outside the vector right after it;
    and so does the first frame after any rebuild when the index acquired
    is one the tracker was not sized for. *)
Theorem tracker_is_sized_once env fuel :
  (forall s a,
      outcome (CreateSyncObjects env s) = Done a ->
      List.length (m_vImagesInFlight (app (final (CreateSyncObjects env s)))) =
      List.length (m_vSwapChainImageViews (app (final (CreateSyncObjects env s))))) /\
  (forall s,
      m_vImagesInFlight (app (final (RecreateSwapChain env fuel s))) =
      m_vImagesInFlight (app s)) /\
  (List.length (m_vImagesInFlight (app sample_ready)) = 2 /\
   List.length (m_vSwapChainImageViews (app sample_ready)) = 2 /\
   List.length (m_vImagesInFlight (app (final (RecreateSwapChain growing_env 1 sample_ready)))) = 2 /\
   List.length (m_vSwapChainImageViews
                  (app (final (RecreateSwapChain growing_env 1 sample_ready)))) = 3) /\
  (forall s chain sem res idx,
      In (EvAcquireNextImage chain sem res idx) (calls (DrawFrame env fuel s)) ->
      res = VK_SUCCESS \/ res = VK_SUBOPTIMAL_KHR ->
      List.length (m_vImagesInFlight (app s)) <= idx ->
      outcome (DrawFrame env fuel s) = OutOfBounds /\
      exists fence, calls (DrawFrame env fuel s) =
                    [EvMember mDrawFrame; EvWaitForFences fence;
                     EvAcquireNextImage chain sem res idx]) /\
  (forall s f sem res idx,
      nth_error (m_vFences (app s)) (m_currentFrame (app s)) = Some (Some f) ->
      signalled (device s) f = true ->
      nth_error (m_vImageAvailableSemaphores (app s)) (m_currentFrame (app s)) = Some sem ->
      acquire_answer env (S (clock s)) = (res, idx) ->
      res = VK_SUCCESS \/ res = VK_SUBOPTIMAL_KHR ->
      List.length (m_vImagesInFlight (app s)) <= idx ->
      outcome (DrawFrame env fuel s) = OutOfBounds /\
      calls (DrawFrame env fuel s) =
        [EvMember mDrawFrame; EvWaitForFences (Some f);
         EvAcquireNextImage (m_currentSwapChain (app s)) sem res idx]) /\
  (forall s env' fuel' f sem res idx,
      let s' := final (RecreateSwapChain env fuel s) in
      nth_error (m_vFences (app s)) (m_currentFrame (app s)) = Some (Some f) ->
      signalled (device s) f = true ->
      nth_error (m_vImageAvailableSemaphores (app s)) (m_currentFrame (app s)) = Some sem ->
      acquire_answer env' (S (clock s')) = (res, idx) ->
      res = VK_SUCCESS \/ res = VK_SUBOPTIMAL_KHR ->
      List.length (m_vImagesInFlight (app s)) <= idx ->
      outcome (DrawFrame env' fuel' s') = OutOfBounds /\
      calls (DrawFrame env' fuel' s') =
        [EvMember mDrawFrame; EvWaitForFences (Some f);
         EvAcquireNextImage (m_currentSwapChain (app s')) sem res idx]) /\
  outcome ((DrawFrame growing_env 1 ;; DrawFrame growing_env 1) sample_ready) = OutOfBounds.
Proof.
  split.
  { intros s a Ha.
    destruct (CreateSyncObjects_sizes_tracker env s a Ha) as [Hlen Hviews].
    rewrite Hviews. exact Hlen. }
  split; [exact (RecreateSwapChain_keeps_tracker env fuel)|].
  split; [vm_compute; repeat split|].
  split.
  { intros s chain sem res idx Hin Hres Hlen.
    exact (DrawFrame_tracker_overrun env fuel s chain sem res idx Hin Hres Hlen). }
  split; [exact (DrawFrame_reads_outside_tracker env fuel)|].
  split; [|vm_compute; reflexivity].
  intros s env' fuel'. exact (DrawFrame_after_rebuild_reads_outside env fuel s env' fuel').
Qed.

(** In the sample run the rebuilt chain has three images, the tracker has
    kept its two entries, and the frame after the rebuild acquires the
    third image. *)
Lemma tracker_is_sized_once_witness :
  List.length (m_vSwapChainImages (app (final (RecreateSwapChain growing_env 1 sample_ready)))) = 3 /\
  List.length (m_vImagesInFlight (app sample_ready)) = 2 /\
  outcome (DrawFrame growing_env 1 (final (RecreateSwapChain growing_env 1 sample_ready)))
  = OutOfBounds /\
  calls (DrawFrame growing_env 1 (final (RecreateSwapChain growing_env 1 sample_ready))) =
    [EvMember mDrawFrame; EvWaitForFences (Some 0);
     EvAcquireNextImage
       (m_currentSwapChain (app (final (RecreateSwapChain growing_env 1 sample_ready))))
       (Some 200) VK_SUCCESS 2].
Proof.
  split; [vm_compute; reflexivity|]. split; [vm_compute; reflexivity|].
  destruct (tracker_is_sized_once growing_env 1) as [_ [_ [_ [_ [_ [H _]]]]]].
  apply (H sample_ready growing_env 1 0 (Some 200) VK_SUCCESS 2).
  - vm_compute. reflexivity.
  - vm_compute. reflexivity.
  - vm_compute. reflexivity.
  - vm_compute. reflexivity.
  - left. reflexivity.
  - vm_compute. lia.
Defined.

(* ------------------------------------------------------------------ *)
(** ** After the presentation *)

(** *** The resize flag through a rebuild *)

Lemma same_flag_refl a : same_flag a a.
Proof. reflexivity. Qed.

Lemma same_flag_trans a b c : same_flag a b -> same_flag b c -> same_flag a c.
Proof. unfold same_flag. congruence. Qed.

Lemma no_callback_In l : Forall no_callback l -> ~ In EvResizeCallBack l.
Proof.
  intros H Hin. rewrite Forall_forall in H. specialize (H _ Hin). discriminate H.
Qed.

Lemma tracks_flag_quiet {A} (m : M A) : quiet no_callback same_flag m -> tracks_flag m.
Proof.
  intros H s. destruct (H s) as [Hc [Hk _]]. unfold same_flag in Hk. rewrite Hk.
  split; [auto|]. intros [Hf|Hin]; [exact Hf|]. exfalso. exact (no_callback_In _ Hc Hin).
Qed.

Lemma tracks_flag_bind {A B} (m : M A) (k : A -> M B) :
  tracks_flag m -> (forall a, tracks_flag (k a)) -> tracks_flag (bind m k).
Proof.
  intros Hm Hk s. specialize (Hm s). unfold bind.
  destruct (outcome (m s)) as [a| | |]; cbn [final calls]; try exact Hm.
  specialize (Hk a (final (m s))). rewrite Hk, Hm, in_app_iff. tauto.
Qed.

Lemma tracks_flag_process_events env e :
  e <> EvResizeCallBack -> tracks_flag (process_events env e).
Proof.
  intros He s. unfold process_events, external.
  destruct (resize_event env (clock s)); cbn.
  - split; [auto|reflexivity].
  - split; [auto|]. intros [H|[H|[]]]; [exact H|]. congruence.
Qed.

Ltac flag_side :=
  first [ reflexivity
        | intros; reflexivity
        | intros; unfold same_flag; reflexivity ].

Ltac flag_go :=
  repeat first
    [ apply quiet_bind; [ exact same_flag_trans | | intros ? ]
    | apply quiet_ret; exact same_flag_refl
    | apply quiet_throw; exact same_flag_refl
    | apply quiet_blocked; exact same_flag_refl
    | apply quiet_lift; exact same_flag_refl
    | apply quiet_member; exact same_flag_refl
    | apply quiet_at_index; exact same_flag_refl
    | apply quiet_value; exact same_flag_refl
    | apply quiet_for_each; [ exact same_flag_refl | exact same_flag_trans | intros ? ]
    | apply quiet_for_range; [ exact same_flag_refl | exact same_flag_trans | intros ? ]
    | first [ apply quiet_log | apply quiet_store | apply quiet_call | apply quiet_plain
            | apply quiet_vkCreate | apply quiet_vkDeviceWaitIdle | apply quiet_images_count
            | apply quiet_images | apply quiet_allocate ];
      first [ exact same_flag_refl | exact same_flag_trans | flag_side ]
    | match goal with
      | |- quiet _ _ (if ?b then _ else _) => destruct b
      | |- quiet _ _ (match ?x with _ => _ end) => destruct x
      end
    | progress cbv zeta ].

Lemma CleanupSwapChain_keeps_flag env : quiet no_callback same_flag (CleanupSwapChain env).
Proof. unfold CleanupSwapChain, enter, vkDestroy, no_callback. flag_go. Qed.

Lemma CreateSwapChain_keeps_flag env : quiet no_callback same_flag (CreateSwapChain env).
Proof.
  unfold CreateSwapChain, enter, QuerySwapChainSupport, glfwGetFramebufferSize, ASSERT,
    no_callback.
  flag_go.
Qed.

Lemma CreateImageViews_keeps_flag env : quiet no_callback same_flag (CreateImageViews env).
Proof. unfold CreateImageViews, enter, no_callback. flag_go. Qed.

Lemma CreateRenderPass_keeps_flag env : quiet no_callback same_flag (CreateRenderPass env).
Proof. unfold CreateRenderPass, enter, no_callback. flag_go. Qed.

Lemma CreateGraphicsPipeline_keeps_flag env :
  quiet no_callback same_flag (CreateGraphicsPipeline env).
Proof.
  unfold CreateGraphicsPipeline, ReadFile, CreateShaderModule, vkDestroy, enter, no_callback.
  flag_go.
Qed.

Lemma CreateFramebuffers_keeps_flag env : quiet no_callback same_flag (CreateFramebuffers env).
Proof. unfold CreateFramebuffers, enter, no_callback. flag_go. Qed.

Lemma CreateCommandBuffers_keeps_flag env :
  quiet no_callback same_flag (CreateCommandBuffers env).
Proof.
  unfold CreateCommandBuffers, vkBeginCommandBuffer, vkEndCommandBuffer, enter, no_callback.
  flag_go.
Qed.

Lemma wait_while_minimised_tracks_flag env fuel :
  forall w h, tracks_flag (wait_while_minimised env fuel w h).
Proof.
  induction fuel as [|fuel IH]; intros w h; cbn [wait_while_minimised];
    destruct ((w =? 0)%Z || (h =? 0)%Z).
  - apply tracks_flag_quiet. apply quiet_blocked. exact same_flag_refl.
  - apply tracks_flag_quiet. apply quiet_ret. exact same_flag_refl.
  - apply tracks_flag_bind.
    + apply tracks_flag_quiet. unfold glfwGetFramebufferSize.
      apply quiet_plain; [exact same_flag_refl|reflexivity].
    + intros [w' h']. apply tracks_flag_bind.
      * apply tracks_flag_process_events. discriminate.
      * intros _. apply IH.
  - apply tracks_flag_quiet. apply quiet_ret. exact same_flag_refl.
Qed.

Lemma RecreateSwapChain_tracks_flag env fuel : tracks_flag (RecreateSwapChain env fuel).
Proof.
  unfold RecreateSwapChain.
  apply tracks_flag_bind.
  { apply tracks_flag_quiet. apply quiet_log; [exact same_flag_refl|reflexivity]. }
  intros _. apply tracks_flag_bind.
  { apply tracks_flag_quiet. unfold glfwGetFramebufferSize.
    apply quiet_plain; [exact same_flag_refl|reflexivity]. }
  intros [w h]. apply tracks_flag_bind; [apply wait_while_minimised_tracks_flag|].
  intros _. apply tracks_flag_bind.
  { apply tracks_flag_quiet. apply quiet_vkDeviceWaitIdle; [exact same_flag_refl|reflexivity]. }
  intros _. apply tracks_flag_bind; [apply tracks_flag_quiet, CleanupSwapChain_keeps_flag|].
  intros _. apply tracks_flag_bind; [apply tracks_flag_quiet, CreateSwapChain_keeps_flag|].
  intros _. apply tracks_flag_bind; [apply tracks_flag_quiet, CreateImageViews_keeps_flag|].
  intros _. apply tracks_flag_bind; [apply tracks_flag_quiet, CreateRenderPass_keeps_flag|].
  intros _. apply tracks_flag_bind; [apply tracks_flag_quiet, CreateGraphicsPipeline_keeps_flag|].
  intros _. apply tracks_flag_bind; [apply tracks_flag_quiet, CreateFramebuffers_keeps_flag|].
  intros _. apply tracks_flag_quiet, CreateCommandBuffers_keeps_flag.
Qed.

(** *** The frame from the presentation on *)

Ltac flag_chain Hb :=
  repeat first
    [ progress cbn [app device clock set_m_framebufferResized set_m_currentFrame
                    set_m_vImagesInFlight m_framebufferResized] in Hb
    | match type of Hb with
      | context [app ?s] =>
          match goal with
          | H : app s = _ |- _ => rewrite H in Hb
          end
      end ].

Lemma decomp_cons {A} (e : A) l pre x mid tail :
  l = pre ++ x :: mid ++ tail -> e :: l = (e :: pre) ++ x :: mid ++ tail.
Proof. intros ->. reflexivity. Qed.

Lemma decomp_here {A} (x : A) mid tail : x :: mid ++ tail = [] ++ x :: mid ++ tail.
Proof. reflexivity. Qed.

Lemma decomp_here_nil {A} (x : A) mid : x :: mid = [] ++ x :: mid ++ [].
Proof. cbn. now rewrite app_nil_r. Qed.

Lemma post_recreate_flag env fuel s Q :
  (forall rest,
      calls (RecreateSwapChain env fuel s) = EvMember mRecreateSwapChain :: rest ->
      Forall not_frame rest ->
      same_slots (app s) (app (final (RecreateSwapChain env fuel s))) ->
      (m_framebufferResized (app (final (RecreateSwapChain env fuel s))) = true <->
       m_framebufferResized (app s) = true \/
       In EvResizeCallBack (calls (RecreateSwapChain env fuel s))) ->
      post (RecreateSwapChain env fuel s) Q) ->
  post (RecreateSwapChain env fuel s) Q.
Proof.
  intro H. destruct (RecreateSwapChain_spec env fuel s) as [rest [H1 [H2 [H3 _]]]].
  exact (H rest H1 H2 H3 (RecreateSwapChain_tracks_flag env fuel s)).
Qed.

Ltac walk6 :=
  first
    [ lazymatch goal with
      | |- post (RecreateSwapChain _ _ _) _ =>
          apply post_recreate_flag; intros ? ? ? ? ?; unfold post at 1
      end
    | walk1 ];
  cbn beta iota zeta delta [Datatypes.app fst snd].

Lemma DrawFrame_present_cases env fuel s :
  post (DrawFrame env fuel s) (fun c h o s' =>
    forall q chain idx res,
      In (EvQueuePresent q chain idx res) c ->
      count is_present c = 1 /\
      if VkResult_eqb res VK_ERROR_OUT_OF_DATE_KHR || VkResult_eqb res VK_SUBOPTIMAL_KHR
         || m_framebufferResized (app s)
      then count is_rebuild c = 1 /\
           exists pre s1 tail,
             c = pre ++ EvQueuePresent q chain idx res ::
                     calls (RecreateSwapChain env fuel s1) ++ tail /\
             m_framebufferResized (app s1) = false /\
             (forall fence,
                 nth_error (m_vFences (app s)) (m_currentFrame (app s)) = Some fence ->
                 app s1 = set_m_framebufferResized false
                            (set_m_vImagesInFlight
                               (assign idx fence (m_vImagesInFlight (app s))) (app s))) /\
             o = outcome (RecreateSwapChain env fuel s1) /\
             (m_framebufferResized (app s') = true <->
              In EvResizeCallBack (calls (RecreateSwapChain env fuel s1))) /\
             (tail = [] \/ tail = [EvQueueWaitIdle q]) /\
             (o = Done tt ->
              app s' = set_m_currentFrame
                         ((m_currentFrame (app s) + 1) mod MAX_FRAMES_IN_FLIGHT)
                         (app (final (RecreateSwapChain env fuel s1)))) /\
             (o <> Done tt -> s' = final (RecreateSwapChain env fuel s1))
      else if negb (succeeded res)
           then o = Fatal "Failed to present swap chain image!" /\ count is_rebuild c = 0
           else o = Done tt /\ count is_rebuild c = 0).
Proof.
  rewrite DrawFrame_stages. repeat walk6; intros q chain idx' res' Hin.
  all: try (in_cases Hin; absurd_call Hin; fail).
  all: in_cases Hin; try (absurd_call Hin; fail).
  all: inversion Hin; subst; clear Hin.
  all: split; [count_norm; reflexivity|].
  all: match goal with
       | Hb : _ || _ || m_framebufferResized _ = _ |- _ => flag_chain Hb; rewrite Hb
       end.
  all: try match goal with
           | Hb : negb (succeeded ?r) = _ |- context [negb (succeeded ?r)] => rewrite Hb
           end.
  all: try (split; [reflexivity|count_norm; reflexivity]).
  all: split; [count_norm; reflexivity|].
  all: match goal with
       | Hc : calls (RecreateSwapChain _ _ ?st) = _ |- _ => eexists; exists st; eexists
       end.
  all: split;
    [ repeat first [ apply decomp_here | apply decomp_here_nil | apply decomp_cons ] | ].
  all: split; [reflexivity|].
  all: split;
    [ intros fence Hfence;
      inversion Hfence; subst;
      repeat first
        [ progress cbn [app]
        | match goal with
          | H : app ?x = _ |- context [app ?x] => rewrite H
          end ];
      reflexivity
    | ].
  all: split;
    [ match goal with
      | Ho : outcome (RecreateSwapChain _ _ _) = Done ?a |- _ => destruct a
      | _ => idtac
      end; symmetry; assumption
    | ].
  all: split;
    [ | split; [first [left; reflexivity|right; reflexivity]|];
        split;
        [ intro Ho; try discriminate Ho;
          repeat first
            [ progress cbn [app]
            | match goal with
              | H : app ?x = app (final _) |- context [app ?x] => rewrite H
              end ];
          reflexivity
        | intro Ho; first [reflexivity|exfalso; apply Ho; reflexivity] ] ].
  all: match goal with
       | Hf : _ <-> _ \/ In EvResizeCallBack _ |- _ =>
           cbn [app m_framebufferResized set_m_framebufferResized] in Hf
       end.
  all: repeat first
         [ progress cbn [app m_framebufferResized set_m_currentFrame]
         | match goal with
           | H : app ?x = app (final _) |- context [app ?x] => rewrite H
           end ].
  all: match goal with
       | Hf : _ <-> _ \/ In EvResizeCallBack _ |- _ =>
           rewrite Hf; split; [intros [Hx|Hx]; [discriminate Hx|exact Hx]|auto]
       end.
Qed.

(** C7 (as the code has it).  A frame that reaches the presentation
    presents once.  When the result is out of date or suboptimal, or the
    resize flag is set, whatever the result, the frame clears the flag and
    runs the rebuild once, right after the presentation: the rebuild
    starts from the state of the frame with the flag down, the frame ends
    as the rebuild ends and in the state the rebuild leaves, but for the
    index of the frame slot when it returns, and the flag is up afterwards
    exactly when the resize callback ran during the rebuild.  Any other
    result than success is the fatal error of the presentation only when
    the flag is not set; and after a success with the flag not set the
    frame ends without rebuild and without error. *)
Theorem DrawFrame_after_present env fuel s q chain idx res :
  In (EvQueuePresent q chain idx res) (calls (DrawFrame env fuel s)) ->
  let r := DrawFrame env fuel s in
  let stale := VkResult_eqb res VK_ERROR_OUT_OF_DATE_KHR || VkResult_eqb res VK_SUBOPTIMAL_KHR in
  count is_present (calls r) = 1 /\
  (stale || m_framebufferResized (app s) = true ->
   count is_rebuild (calls r) = 1 /\
   exists pre s1 tail,
     calls r = pre ++ EvQueuePresent q chain idx res ::
                      calls (RecreateSwapChain env fuel s1) ++ tail /\
     m_framebufferResized (app s1) = false /\
     (forall fence,
         nth_error (m_vFences (app s)) (m_currentFrame (app s)) = Some fence ->
         app s1 = set_m_framebufferResized false
                    (set_m_vImagesInFlight
                       (assign idx fence (m_vImagesInFlight (app s))) (app s))) /\
     outcome r = outcome (RecreateSwapChain env fuel s1) /\
     (m_framebufferResized (app (final r)) = true <->
      In EvResizeCallBack (calls (RecreateSwapChain env fuel s1))) /\
     (tail = [] \/ tail = [EvQueueWaitIdle q]) /\
     (outcome r = Done tt ->
      app (final r) = set_m_currentFrame
                        ((m_currentFrame (app s) + 1) mod MAX_FRAMES_IN_FLIGHT)
                        (app (final (RecreateSwapChain env fuel s1)))) /\
     (outcome r <> Done tt -> final r = final (RecreateSwapChain env fuel s1))) /\
  (stale = false -> m_framebufferResized (app s) = false -> res <> VK_SUCCESS ->
   outcome r = Fatal "Failed to present swap chain image!" /\ count is_rebuild (calls r) = 0) /\
  (m_framebufferResized (app s) = false -> res = VK_SUCCESS ->
   outcome r = Done tt /\ count is_rebuild (calls r) = 0).
Proof.
  intros Hin r stale.
  destruct (DrawFrame_present_cases env fuel s q chain idx res Hin) as [Hone Hcases].
  fold r stale in Hone, Hcases.
  split; [exact Hone|]. split; [|split].
  - intro Hre. rewrite Hre in Hcases. exact Hcases.
  - intros Hstale Hflag Hres. rewrite Hstale, Hflag in Hcases. cbn [orb] in Hcases.
    destruct (succeeded res) eqn:Es; [|exact Hcases].
    apply VkResult_eqb_eq in Es. contradiction.
  - intros Hflag Hres. subst res stale. rewrite Hflag in Hcases. exact Hcases.
Qed.

Lemma DrawFrame_after_present_witness :
  In (EvQueuePresent (Some 0) (Some 100) 1 VK_ERROR_DEVICE_LOST)
     (calls (DrawFrame lost_env 0 sample_ready)) /\
  count is_present (calls (DrawFrame lost_env 0 sample_ready)) = 1 /\
  outcome (DrawFrame lost_env 0 sample_ready) = Fatal "Failed to present swap chain image!" /\
  count is_rebuild (calls (DrawFrame lost_env 0 sample_ready)) = 0 /\
  In (EvQueuePresent (Some 0) (Some 100) 1 VK_ERROR_DEVICE_LOST)
     (calls (DrawFrame lost_env 0 (resized sample_ready))) /\
  count is_rebuild (calls (DrawFrame lost_env 0 (resized sample_ready))) = 1.
Proof.
  assert (Hin : In (EvQueuePresent (Some 0) (Some 100) 1 VK_ERROR_DEVICE_LOST)
                   (calls (DrawFrame lost_env 0 sample_ready))).
  { vm_compute. do 6 right. left. reflexivity. }
  assert (Hin' : In (EvQueuePresent (Some 0) (Some 100) 1 VK_ERROR_DEVICE_LOST)
                    (calls (DrawFrame lost_env 0 (resized sample_ready)))).
  { vm_compute. do 6 right. left. reflexivity. }
  split; [exact Hin|].
  destruct (DrawFrame_after_present lost_env 0 sample_ready _ _ _ _ Hin) as [H1 [_ [H3 _]]].
  split; [exact H1|].
  destruct (H3 eq_refl eq_refl ltac:(discriminate)) as [Hfatal Hnone].
  split; [exact Hfatal|]. split; [exact Hnone|]. split; [exact Hin'|].
  destruct (DrawFrame_after_present lost_env 0 (resized sample_ready) _ _ _ _ Hin')
    as [_ [H2 _]].
  exact (proj1 (H2 eq_refl)).
Defined.

(** The device is lost at the presentation while the resize flag is set:
    the frame rebuilds the swap chain and ends without error, with the
    flag down. *)
Lemma DrawFrame_rebuilds_on_a_lost_device :
  m_framebufferResized (app (resized sample_ready)) = true /\
  In (EvQueuePresent (Some 0) (Some 100) 1 VK_ERROR_DEVICE_LOST)
     (calls (DrawFrame lost_env 0 (resized sample_ready))) /\
  count is_rebuild (calls (DrawFrame lost_env 0 (resized sample_ready))) = 1 /\
  outcome (DrawFrame lost_env 0 (resized sample_ready)) = Done tt /\
  m_framebufferResized (app (final (DrawFrame lost_env 0 (resized sample_ready)))) = false.
Proof.
  split; [reflexivity|]. split; [vm_compute; do 6 right; left; reflexivity|].
  split; [vm_compute; reflexivity|]. split; vm_compute; reflexivity.
Qed.

(* ================================================================== *)
(** * Further properties of the code *)

(* ------------------------------------------------------------------ *)
(** ** The surface format *)

Lemma find_preferred_format formats f :
  find is_preferred_format formats = Some f ->
  f = mkSurfaceFormat VK_FORMAT_B8G8R8A8_SRGB VK_COLOR_SPACE_SRGB_NONLINEAR_KHR.
Proof.
  intro H. apply find_some in H. destruct H as [_ Hp].
  unfold is_preferred_format in Hp. apply andb_true_iff in Hp.
  destruct Hp as [Hf Hc]. apply Z.eqb_eq in Hf, Hc. destruct f as [fm cs].
  cbn in Hf, Hc. subst. reflexivity.
Qed.

(** X1.  [ChooseSwapSurfaceFormat] reads outside the vector exactly when there
    is no format at all.  When the list holds the 8-bit BGRA sRGB format
    with the non-linear sRGB colour space, that is the answer; otherwise the
    answer is the first format of the list. *)
Theorem ChooseSwapSurfaceFormat_prefers_srgb (availableFormats : list VkSurfaceFormatKHR) :
  let preferred := mkSurfaceFormat VK_FORMAT_B8G8R8A8_SRGB VK_COLOR_SPACE_SRGB_NONLINEAR_KHR in
  (ChooseSwapSurfaceFormat availableFormats = None <-> availableFormats = []) /\
  (In preferred availableFormats ->
   ChooseSwapSurfaceFormat availableFormats = Some preferred) /\
  (~ In preferred availableFormats ->
   ChooseSwapSurfaceFormat availableFormats = nth_error availableFormats 0) /\
  (forall f, ChooseSwapSurfaceFormat availableFormats = Some f -> In f availableFormats).
Proof.
  intro preferred. unfold ChooseSwapSurfaceFormat.
  destruct (find is_preferred_format availableFormats) as [g|] eqn:E.
  - pose proof (find_preferred_format _ _ E) as Hg. fold preferred in Hg. subst g.
    apply find_some in E. destruct E as [Hin _].
    split; [split; [discriminate|intros ->; destruct Hin]|].
    split; [reflexivity|]. split; [intro Hno; contradiction|].
    intros f Hf. inversion Hf; subst. exact Hin.
  - split.
    { destruct availableFormats; split; try reflexivity; discriminate. }
    split.
    { intro Hin. pose proof (find_none _ _ E _ Hin) as Hp. discriminate Hp. }
    split; [reflexivity|].
    intros f Hf. destruct availableFormats as [|x r]; [discriminate|].
    inversion Hf; subst. left. reflexivity.
Qed.

(* ------------------------------------------------------------------ *)
(** ** The number of images asked for *)

(** X2.  The image count [CreateSwapChain] asks for is one more than the
    minimum of the surface, cut down to the maximum when the surface has
    one (a maximum of 0 means none); it never exceeds such a maximum.  At
    a minimum of [UINT32_MAX] the sum wraps and 0 images are asked for. *)
Theorem requested_image_count_bounds (c : VkSurfaceCapabilitiesKHR) :
  (0 <= minImageCount c <= UINT32_MAX)%Z ->
  (0 <= maxImageCount c <= UINT32_MAX)%Z ->
  ((0 < maxImageCount c)%Z -> (requested_image_count c <= maxImageCount c)%Z) /\
  ((minImageCount c < UINT32_MAX)%Z ->
   (maxImageCount c = 0 \/ minImageCount c < maxImageCount c)%Z ->
   requested_image_count c = (minImageCount c + 1)%Z) /\
  ((minImageCount c < UINT32_MAX)%Z ->
   (0 < maxImageCount c <= minImageCount c)%Z ->
   requested_image_count c = maxImageCount c) /\
  (minImageCount c = UINT32_MAX -> requested_image_count c = 0%Z).
Proof.
  unfold requested_image_count, uint32, UINT32_MAX. intros Hmin Hmax.
  assert (Hw : (minImageCount c < 4294967295 ->
               (minImageCount c + 1) mod 4294967296 = minImageCount c + 1)%Z).
  { intro. apply Z.mod_small. lia. }
  repeat split.
  - intro Hpos.
    destruct (0 <? maxImageCount c)%Z eqn:E1; [|apply Z.ltb_ge in E1; lia].
    destruct (maxImageCount c <? (minImageCount c + 1) mod 4294967296)%Z eqn:E2; cbn [andb].
    + lia.
    + apply Z.ltb_ge in E2. exact E2.
  - intros Hlt Hcase. rewrite (Hw Hlt).
    destruct (0 <? maxImageCount c)%Z eqn:E1; cbn [andb]; [|reflexivity].
    destruct (maxImageCount c <? minImageCount c + 1)%Z eqn:E2; [|reflexivity].
    apply Z.ltb_lt in E1, E2. lia.
  - intros Hlt Hcase. rewrite (Hw Hlt).
    destruct (0 <? maxImageCount c)%Z eqn:E1; cbn [andb]; [|apply Z.ltb_ge in E1; lia].
    destruct (maxImageCount c <? minImageCount c + 1)%Z eqn:E2; [reflexivity|].
    apply Z.ltb_ge in E2. lia.
  - intro Heq. rewrite Heq. change ((4294967295 + 1) mod 4294967296)%Z with 0%Z.
    destruct (0 <? maxImageCount c)%Z eqn:E1; cbn [andb]; [|reflexivity].
    destruct (maxImageCount c <? 0)%Z eqn:E2; [|reflexivity].
    apply Z.ltb_lt in E2. lia.
Qed.

Lemma requested_image_count_bounds_witness :
  (requested_image_count sample_caps <= 8)%Z /\
  requested_image_count sample_caps = 3%Z.
Proof.
  destruct (requested_image_count_bounds sample_caps) as [H1 [H2 _]];
    [cbn; unfold UINT32_MAX; lia|cbn; unfold UINT32_MAX; lia|].
  split.
  - apply H1. cbn. lia.
  - apply H2; [cbn; unfold UINT32_MAX; lia|right; cbn; lia].
Defined.

(* ------------------------------------------------------------------ *)
(** ** Extensions and suitability of a device *)

Lemma In_erase r e s : In r (erase e s) <-> In r s /\ r <> e.
Proof.
  unfold erase. rewrite filter_In. split; intros [H1 H2]; split; try exact H1.
  - intro Heq. subst. rewrite String.eqb_refl in H2. discriminate.
  - apply negb_true_iff. now apply String.eqb_neq.
Qed.

Lemma In_fold_erase available : forall s r,
  In r (fold_left (fun s e => erase e s) available s) <-> In r s /\ ~ In r available.
Proof.
  induction available as [|e rest IH]; intros s r; cbn [fold_left].
  - split; [intro H; split; [exact H|intros []]|intros [H _]; exact H].
  - rewrite IH, In_erase. cbn [In]. split.
    + intros [[H1 H2] H3]. split; [exact H1|]. intros [Heq|Hin]; [congruence|contradiction].
    + intros [H1 H2]. split; [split; [exact H1|]|]; intro; apply H2; auto.
Qed.

Lemma DeviceExtensionSupport_all (device : PhysicalDevice) :
  DeviceExtensionSupport device = true <->
  forall r, In r V_EXTENS -> In r (availableExtensions device).
Proof.
  unfold DeviceExtensionSupport.
  set (left_over := fold_left _ _ _).
  assert (Hin : forall r, In r left_over <->
                          In r V_EXTENS /\ ~ In r (availableExtensions device)).
  { intro r. unfold left_over. rewrite In_fold_erase, nodup_In. reflexivity. }
  split.
  - intros Hempty r Hr.
    destruct (in_dec string_dec r (availableExtensions device)) as [Hy|Hn]; [exact Hy|].
    destruct left_over as [|x l]; [|discriminate].
    exfalso. apply (proj2 (Hin r)). split; assumption.
  - intro Hall. destruct left_over as [|x l]; [reflexivity|].
    exfalso. destruct (proj1 (Hin x) (or_introl eq_refl)) as [Hx Hno]. auto.
Qed.

Lemma required_is_swapchain (available : list string) :
  (forall r, In r V_EXTENS -> In r available) <-> In VK_KHR_SWAPCHAIN_EXTENSION_NAME available.
Proof.
  unfold V_EXTENS, g_vDeviceExtensions. split.
  - intro Hall. apply Hall. left. reflexivity.
  - intros Hin r [<-|[]]. exact Hin.
Qed.

(** X3.  [DeviceExtensionSupport] answers [true] exactly when every required
    device extension, that is the swap chain extension, is among the
    extensions the device reports, wherever it stands in the list and
    however often. *)
Theorem DeviceExtensionSupport_iff_required_available (device : PhysicalDevice) :
  (DeviceExtensionSupport device = true <->
   forall r, In r V_EXTENS -> In r (availableExtensions device)) /\
  (DeviceExtensionSupport device = true <->
   In VK_KHR_SWAPCHAIN_EXTENSION_NAME (availableExtensions device)).
Proof.
  split; [exact (DeviceExtensionSupport_all device)|].
  rewrite DeviceExtensionSupport_all. apply required_is_swapchain.
Qed.

Lemma is_empty_false {A} (l : list A) : negb (is_empty l) = true <-> l <> [].
Proof. destruct l; cbn; split; congruence. Qed.

(** X4.  [DeviceSuitable] answers [true] exactly for a device with a queue
    family that does graphics, a queue family that can present to the
    surface, the swap chain extension, at least one surface format and at
    least one present mode. *)
Theorem DeviceSuitable_iff (device : PhysicalDevice) :
  DeviceSuitable device = true <->
  (exists q, In q (queueFamilies device) /\ supports_graphics q = true) /\
  (exists q, In q (queueFamilies device) /\ supports_present q = true) /\
  In VK_KHR_SWAPCHAIN_EXTENSION_NAME (availableExtensions device) /\
  formats (swapChainSupport device) <> [] /\
  presentModes (swapChainSupport device) <> [].
Proof.
  unfold DeviceSuitable. rewrite FindQueueFamilies_complete.
  rewrite <- !existsb_exists.
  rewrite <- required_is_swapchain, <- DeviceExtensionSupport_all.
  rewrite <- !is_empty_false.
  destruct (DeviceExtensionSupport device);
    destruct (existsb supports_graphics (queueFamilies device));
    destruct (existsb supports_present (queueFamilies device));
    destruct (negb (is_empty (formats (swapChainSupport device))));
    destruct (negb (is_empty (presentModes (swapChainSupport device))));
    cbn; split; try tauto; try discriminate; intuition discriminate.
Qed.

(* ------------------------------------------------------------------ *)
(** ** The families recorded by the scan *)

Lemma last_index_firstn_valid {A} (p : A -> bool) l n k :
  last_index p (firstn n l) = Some k ->
  exists x, nth_error l k = Some x /\ p x = true.
Proof.
  intro H. apply last_index_spec in H. destruct H as [[x [Hx Hp]] _].
  exists x. split; [|exact Hp].
  rewrite nth_error_firstn in Hx. destruct (k <? n)%nat; [exact Hx|discriminate].
Qed.

(** X5.  An index [FindQueueFamilies] records for a role is the position of a
    queue family of the device, and that family does support the role. *)
Theorem FindQueueFamilies_records_supporting_families (device : PhysicalDevice) :
  (forall i, graphicsFamily (FindQueueFamilies device) = Some i ->
             exists q, nth_error (queueFamilies device) i = Some q /\
                       supports_graphics q = true) /\
  (forall i, presentFamily (FindQueueFamilies device) = Some i ->
             exists q, nth_error (queueFamilies device) i = Some q /\
                       supports_present q = true).
Proof.
  rewrite FindQueueFamilies_spec. cbv zeta. cbn [graphicsFamily presentFamily].
  split; intros i Hi; eapply last_index_firstn_valid; exact Hi.
Qed.

(* ------------------------------------------------------------------ *)
(** ** Validation layers *)

Lemma layerFound_In layerName availableLayers :
  layerFound layerName availableLayers = true <-> In layerName availableLayers.
Proof.
  induction availableLayers as [|x r IH]; cbn [layerFound In].
  - split; [discriminate|intros []].
  - destruct (String.eqb_spec layerName x) as [->|Hne].
    + split; auto.
    + rewrite IH. split; [auto|]. intros [Heq|Hin]; [congruence|exact Hin].
Qed.

Lemma CheckValidationLayerSupport_loop_spec layers availableLayers :
  CheckValidationLayerSupport_loop layers availableLayers = true <->
  forall layer, In layer layers -> In layer availableLayers.
Proof.
  induction layers as [|x r IH]; cbn [CheckValidationLayerSupport_loop In].
  - split; [intros _ layer []|reflexivity].
  - destruct (layerFound x availableLayers) eqn:E; cbn [negb].
    + apply layerFound_In in E. rewrite IH. split.
      * intros Hall layer [<-|Hin]; auto.
      * intros Hall layer Hin. auto.
    + split; [discriminate|]. intro Hall.
      assert (Hx : In x availableLayers) by (apply Hall; left; reflexivity).
      apply layerFound_In in Hx. congruence.
Qed.

Lemma layerFound_unnamed layerName n :
  layerName <> EmptyString -> layerFound layerName (repeat EmptyString n) = false.
Proof.
  intro Hne. induction n as [|n IH]; [reflexivity|].
  cbn [repeat layerFound]. destruct (String.eqb_spec layerName EmptyString); [contradiction|exact IH].
Qed.

(** X6.  In a build with assertions, [CheckValidationLayerSupport] stops the
    program when the enumeration of the layers fails, and otherwise
    answers whether every requested layer, that is the Khronos validation
    layer, is among the layers enumerated.  In a build with [NDEBUG] the
    enumeration, being the argument of [assert], is not made: the names
    stay empty and the answer is [false] whatever layers are installed. *)
Theorem CheckValidationLayerSupport_finds_requested_layers :
  (forall instance,
      enumerate_layers instance = VK_SUCCESS ->
      exists found,
        CheckValidationLayerSupport false instance = Done found /\
        (found = true <-> forall layer, In layer V_LAYERS -> In layer (layers_written instance)) /\
        (found = true <-> In "VK_LAYER_KHRONOS_validation"%string (layers_written instance))) /\
  (forall instance,
      enumerate_layers instance <> VK_SUCCESS ->
      exists what, CheckValidationLayerSupport false instance = Fatal what) /\
  (forall instance, CheckValidationLayerSupport true instance = Done false).
Proof.
  split; [|split].
  - intros instance Hok. unfold CheckValidationLayerSupport. cbv zeta. rewrite Hok.
    cbn [VkResult_eqb negb]. eexists. split; [reflexivity|].
    rewrite CheckValidationLayerSupport_loop_spec. split; [reflexivity|].
    unfold V_LAYERS, g_vLayers. split.
    + intro Hall. apply Hall. left. reflexivity.
    + intros Hin layer [<-|[]]. exact Hin.
  - intros instance Hbad. unfold CheckValidationLayerSupport. cbv zeta.
    destruct (VkResult_eqb (enumerate_layers instance) VK_SUCCESS) eqn:E.
    + apply VkResult_eqb_eq in E. contradiction.
    + cbn [negb]. eexists. reflexivity.
  - intro instance. unfold CheckValidationLayerSupport, V_LAYERS, g_vLayers. cbv zeta.
    cbn [CheckValidationLayerSupport_loop]. rewrite layerFound_unnamed by discriminate.
    reflexivity.
Qed.

(* ------------------------------------------------------------------ *)
(** ** The device that was picked *)

Lemma PickPhysicalDevice_enumerated NDEBUG instance best :
  PickPhysicalDevice NDEBUG instance = Done best ->
  (NDEBUG = true \/ count_result instance = VK_SUCCESS) /\
  enumerate_result instance = VK_SUCCESS.
Proof.
  intro H. unfold PickPhysicalDevice in H. cbv zeta in H. split.
  - destruct NDEBUG; [left; reflexivity|right].
    destruct (VkResult_eqb (count_result instance) VK_SUCCESS) eqn:E;
      [now apply VkResult_eqb_eq|discriminate H].
  - destruct (negb NDEBUG && negb (VkResult_eqb (count_result instance) VK_SUCCESS));
      [discriminate H|].
    destruct (List.length (enumerated instance) =? 0)%nat; cbn in H; [discriminate H|].
    destruct (VkResult_eqb (enumerate_result instance) VK_SUCCESS) eqn:E;
      [now apply VkResult_eqb_eq|cbn in H; discriminate H].
Qed.

Lemma set_insert_pair g p :
  set_insert p (set_insert g []) =
  if (p <? g)%nat then [p; g] else if (p =? g)%nat then [g] else [g; p].
Proof. cbn. destruct (p <? g)%nat, (p =? g)%nat; reflexivity. Qed.

(** X7.  The device [PickPhysicalDevice] stores has a geometry shader and is
    suitable, so the accesses to the two optional family indices in
    [CreateLogicalDevice], [CreateSwapChain] and [CreateCommandPool] find
    a value, and a surface format can be chosen for it.  The families
    [CreateLogicalDevice] asks a queue from are the graphics and the
    present family, each once, in increasing order. *)
Theorem picked_device_has_its_queues NDEBUG instance best :
  PickPhysicalDevice NDEBUG instance = Done best ->
  geometryShader best = true /\ DeviceSuitable best = true /\
  ChooseSwapSurfaceFormat (formats (swapChainSupport best)) <> None /\
  exists g p families,
    graphicsFamily (FindQueueFamilies best) = Some g /\
    presentFamily (FindQueueFamilies best) = Some p /\
    uniqueQueueFamilies (FindQueueFamilies best) = Done families /\
    NoDup families /\ StronglySorted lt families /\
    (forall f, In f families <-> f = g \/ f = p).
Proof.
  intro Hpick.
  destruct (PickPhysicalDevice_enumerated _ _ _ Hpick) as [Hcount Hok].
  pose proof (PickPhysicalDevice_selects NDEBUG instance Hcount Hok) as Hsel.
  rewrite Hpick in Hsel. destruct Hsel as [_ [Hpos _]].
  assert (Hu : usable best = true).
  { destruct (usable best) eqn:E; [reflexivity|].
    rewrite (RateDevice_unusable best E) in Hpos. lia. }
  unfold usable in Hu. apply andb_true_iff in Hu. destruct Hu as [Hgeo Hsuit].
  split; [exact Hgeo|]. split; [exact Hsuit|].
  pose proof Hsuit as Hs. unfold DeviceSuitable in Hs.
  apply andb_true_iff in Hs. destruct Hs as [Hs Had].
  apply andb_true_iff in Hs. destruct Hs as [Hcomplete Hext].
  rewrite Hext in Had. apply andb_true_iff in Had. destruct Had as [Hformats _].
  split.
  { destruct (formats (swapChainSupport best)) as [|f r] eqn:Ef; [discriminate Hformats|].
    unfold ChooseSwapSurfaceFormat. destruct (find _ _); discriminate. }
  unfold IsComplete in Hcomplete. apply andb_true_iff in Hcomplete.
  destruct Hcomplete as [Hg Hp].
  destruct (graphicsFamily (FindQueueFamilies best)) as [g|] eqn:Eg; [|discriminate Hg].
  destruct (presentFamily (FindQueueFamilies best)) as [p|] eqn:Ep; [|discriminate Hp].
  exists g, p. eexists. split; [reflexivity|]. split; [reflexivity|].
  unfold uniqueQueueFamilies. rewrite Eg, Ep. split; [reflexivity|].
  rewrite set_insert_pair.
  destruct (Nat.ltb_spec p g); [|destruct (Nat.eqb_spec p g)].
  - split; [repeat constructor; cbn; intuition lia|].
    split; [repeat constructor; exact H|]. intro f. cbn. intuition.
  - subst p. split; [repeat constructor; cbn; intuition|].
    split; [repeat constructor|]. intro f. cbn. intuition.
  - split; [repeat constructor; cbn; intuition lia|].
    split; [repeat constructor; lia|]. intro f. cbn. intuition.
Qed.

Lemma picked_device_has_its_queues_witness :
  geometryShader device_A = true /\ DeviceSuitable device_A = true /\
  ChooseSwapSurfaceFormat (formats (swapChainSupport device_A)) <> None.
Proof.
  destruct (picked_device_has_its_queues true
              (mkPhysicalDevices VK_SUCCESS VK_SUCCESS [device_A; device_B]) device_A eq_refl)
    as [H1 [H2 [H3 _]]].
  split; [exact H1|]. split; [exact H2|exact H3].
Defined.

(** X20.  A device that is not usable scores 0.  A usable device scores its
    largest 2D image dimension plus 1000 when it is a discrete GPU and plus
    0 otherwise, taken modulo 2^32, which is the sum itself as long as it
    fits in 32 bits.  [PickPhysicalDevice] fails, each time with a message
    of its own, when the call for the count fails in a build that keeps
    [assert], when the count is zero, when the enumeration fails, and when
    the greatest score is 0; in every other case it stores an enumerated
    device of the greatest score.  An integrated device with dimension
    4096 is picked before a discrete one with dimension 2048. *)
Theorem RateDevice_and_PickPhysicalDevice :
  (forall d, usable d = false -> RateDevice d = 0%Z) /\
  (forall d, usable d = true -> RateDevice d = uint32 (maxImageDimension2D d + bonus d)) /\
  (forall d, usable d = true ->
             (0 <= maxImageDimension2D d)%Z ->
             (maxImageDimension2D d + bonus d <= UINT32_MAX)%Z ->
             RateDevice d = (maxImageDimension2D d + bonus d)%Z) /\
  (forall instance,
      count_result instance <> VK_SUCCESS ->
      PickPhysicalDevice false instance = Fatal "assert(retCode == VK_SUCCESS)") /\
  (forall NDEBUG instance,
      NDEBUG = true \/ count_result instance = VK_SUCCESS ->
      (enumerated instance = [] ->
       PickPhysicalDevice NDEBUG instance = Fatal "Failed to find GPU with Vulkan support") /\
      (enumerated instance <> [] -> enumerate_result instance <> VK_SUCCESS ->
       PickPhysicalDevice NDEBUG instance = Fatal "No physical devices available!") /\
      (enumerated instance <> [] -> enumerate_result instance = VK_SUCCESS ->
       match PickPhysicalDevice NDEBUG instance with
       | Done best =>
           In best (enumerated instance) /\ (0 < RateDevice best)%Z /\
           forall d, In d (enumerated instance) -> (RateDevice d <= RateDevice best)%Z
       | Fatal what =>
           what = "Failed to find suitable GPU!"%string /\
           forall d, In d (enumerated instance) -> RateDevice d = 0%Z
       | _ => False
       end)) /\
  (RateDevice device_A = 4096%Z /\ RateDevice device_B = 3048%Z /\
   forall NDEBUG,
     PickPhysicalDevice NDEBUG
       (mkPhysicalDevices VK_SUCCESS VK_SUCCESS [device_A; device_B]) = Done device_A /\
     PickPhysicalDevice NDEBUG
       (mkPhysicalDevices VK_SUCCESS VK_SUCCESS [device_B; device_A]) = Done device_A).
Proof.
  split; [exact RateDevice_unusable|].
  split; [exact RateDevice_usable|].
  split.
  { intros d Hu H0 Hmax. rewrite (RateDevice_usable d Hu). unfold uint32.
    apply Z.mod_small. unfold bonus, UINT32_MAX in *.
    destruct (is_discrete (deviceType d)); lia. }
  split.
  { intros instance Hbad. unfold PickPhysicalDevice. cbv zeta.
    destruct (VkResult_eqb (count_result instance) VK_SUCCESS) eqn:E; [|reflexivity].
    apply VkResult_eqb_eq in E. contradiction. }
  split.
  { intros NDEBUG instance Hcount.
    assert (Hfirst : negb NDEBUG && negb (VkResult_eqb (count_result instance) VK_SUCCESS)
                     = false)
      by (destruct Hcount as [-> | ->]; [reflexivity|now rewrite andb_false_r]).
    split; [|split].
    - intro Hnil. unfold PickPhysicalDevice. cbv zeta. rewrite Hfirst, Hnil. reflexivity.
    - intros Hne Hbad. unfold PickPhysicalDevice. cbv zeta. rewrite Hfirst.
      destruct (enumerated instance) as [|d0 r]; [contradiction|].
      cbn [List.length Nat.eqb negb ASSERT].
      destruct (VkResult_eqb (enumerate_result instance) VK_SUCCESS) eqn:E; [|reflexivity].
      apply VkResult_eqb_eq in E. contradiction.
    - intros Hne Hok.
      pose proof (PickPhysicalDevice_selects NDEBUG instance Hcount Hok) as Hsel.
      destruct (PickPhysicalDevice NDEBUG instance) as [best|what| |]; try exact Hsel.
      destruct Hsel as [Hzero Hwhat]. split; [|exact Hzero].
      destruct (enumerated instance); [contradiction|exact Hwhat]. }
  split; [reflexivity|]. split; [reflexivity|].
  intros [|]; split; reflexivity.
Qed.

Lemma RateDevice_and_PickPhysicalDevice_witness :
  RateDevice (sample_device VK_PHYSICAL_DEVICE_TYPE_CPU 0) = 0%Z /\
  RateDevice device_B = uint32 (2048 + 1000) /\
  RateDevice device_B = 3048%Z /\
  PickPhysicalDevice false (mkPhysicalDevices VK_NOT_READY VK_SUCCESS [device_B; device_A])
  = Fatal "assert(retCode == VK_SUCCESS)" /\
  PickPhysicalDevice true (mkPhysicalDevices VK_NOT_READY VK_INCOMPLETE [device_B; device_A])
  = Fatal "No physical devices available!" /\
  (In device_A [device_B; device_A] /\ (0 < RateDevice device_A)%Z /\
   forall d, In d [device_B; device_A] -> (RateDevice d <= RateDevice device_A)%Z).
Proof.
  destruct RateDevice_and_PickPhysicalDevice as [H1 [H2 [H3 [H4 [H5 _]]]]].
  split; [|split; [|split; [|split; [|split]]]].
  - reflexivity.
  - apply (H2 device_B). reflexivity.
  - apply (H3 device_B); [reflexivity|simpl; lia|unfold UINT32_MAX; simpl; lia].
  - apply H4. discriminate.
  - apply (H5 true (mkPhysicalDevices VK_NOT_READY VK_INCOMPLETE [device_B; device_A]));
      [left; reflexivity|discriminate|discriminate].
  - exact (proj2 (proj2 (H5 true (mkPhysicalDevices VK_NOT_READY VK_SUCCESS [device_B; device_A])
                            (or_introl eq_refl)))
                 ltac:(discriminate) eq_refl).
Defined.

(* ------------------------------------------------------------------ *)
(** ** More steps of a walk *)

Lemma post_call env e s Q :
  (forall s1 h,
      app s1 = app s -> advances (device s) (device s1) ->
      Forall (advances (device s)) h ->
      Q [e] h (Done tt) s1) ->
  post (call env e s) Q.
Proof.
  intro H. unfold call. apply post_external. intros s1 Happ _ Hadv.
  cbn [fst snd]. apply H; [exact Happ|exact Hadv|].
  constructor; [exact Hadv|]. constructor; [exact Hadv|constructor].
Qed.

Lemma Forall_advances_trans d d' h :
  advances d d' -> Forall (advances d') h -> Forall (advances d) h.
Proof.
  intros Ha Hh. eapply Forall_impl; [|exact Hh].
  intros d'' Hd. eapply advances_trans; eauto.
Qed.

Lemma post_for_each_destroy env kind : forall l s Q,
  (forall s1 h,
      app s1 = app s -> advances (device s) (device s1) ->
      Forall (advances (device s)) h ->
      Q (map (EvDestroy kind) l) h (Done tt) s1) ->
  post (for_each l (fun x => vkDestroy env kind x) s) Q.
Proof.
  induction l as [|x l IH]; intros s Q H; cbn [for_each map].
  - apply post_ret. apply H; [reflexivity|apply advances_refl|constructor].
  - apply post_bind. unfold vkDestroy at 1. apply post_call.
    intros s1 h Happ Ha Hh. apply IH. intros s2 h2 Happ2 Ha2 Hh2.
    cbn [Datatypes.app]. apply H.
    + congruence.
    + eapply advances_trans; eauto.
    + apply Forall_app. split; [exact Hh|]. eapply Forall_advances_trans; eauto.
Qed.

(** A loop keeps what each of its rounds keeps, however it ends. *)
Lemma post_for_range_keeps (I : State -> Prop) body : forall n from s Q,
  I s ->
  (forall i s', I s' -> post (body i s') (fun _ _ _ s'' => I s'')) ->
  (forall c h o s', I s' -> Q c h o s') ->
  post (for_range from n body s) Q.
Proof.
  induction n as [|n IH]; intros from s Q HI Hbody HQ; cbn [for_range].
  - apply post_ret. apply HQ, HI.
  - apply post_bind.
    eapply post_weaken; [apply (Hbody from s HI)|].
    intros c h o s' HI'. cbv beta.
    destruct o as [[]| | |]; try (apply HQ; exact HI').
    apply IH; [exact HI'|exact Hbody|]. intros c' h' o' s'' HI''. apply HQ, HI''.
Qed.

Ltac walk3 :=
  first
    [ walk2
    | lazymatch goal with
      | |- post (call _ _ _) _ => apply post_call; intros ? ? ? ? ?
      | |- post (vkDestroy _ _ _ _) _ => apply post_call; intros ? ? ? ? ?
      | |- post (plain _ _ _ _) _ => apply post_plain; intros ? ? ? ? ? ?
      | |- post (for_each _ _ _) _ => apply post_for_each_destroy; intros ? ? ? ? ?
      | |- post (vkDeviceWaitIdle _ _) _ => apply post_device_wait_idle; intros ? ? ? ? ?
      | |- post (value _ _) _ => unfold value
      end ];
  cbn beta iota zeta delta [Datatypes.app fst snd].

(** Rewrites what is read from a state into what is read from the first
    state. *)
Ltac members :=
  repeat first
    [ progress cbn [app device clock
                    set_m_currentSwapChain set_m_vSwapChainImages set_m_swapChainImageFormat
                    set_m_swapChainExtent set_m_vSwapChainImageViews set_m_renderPass
                    set_m_pipelineLayout set_m_graphicsPipeline set_m_vSwapChainFramebuffers
                    set_m_vCommandBuffers set_m_vImageAvailableSemaphores
                    set_m_vRenderFinishedSemaphores set_m_vFences set_m_vImagesInFlight
                    set_m_currentFrame set_m_framebufferResized
                    m_physicalDevice m_graphicsQueue m_presentQueue m_currentSwapChain
                    m_oldSwapChain m_vSwapChainImages m_swapChainImageFormat m_swapChainExtent
                    m_vSwapChainImageViews m_renderPass m_pipelineLayout m_graphicsPipeline
                    m_vSwapChainFramebuffers m_commandPool m_vCommandBuffers
                    m_vImageAvailableSemaphores m_vRenderFinishedSemaphores m_vFences
                    m_vImagesInFlight m_currentFrame m_framebufferResized]
    | match goal with
      | H : app ?s = _ |- context [app ?s] => rewrite H
      end ].

(* ------------------------------------------------------------------ *)
(** ** What the teardown of the swap chain calls *)

(** X9.  [CleanupSwapChain] always returns.  It destroys every framebuffer,
    frees the command buffers, destroys the pipeline, its layout, the
    render pass, every image view, the old chain and the chain in use, in
    this order and each once; and it changes no data member, so that the
    members keep the handles of what was destroyed. *)
Theorem CleanupSwapChain_destroys_everything_once env s :
  let a := app s in
  let r := CleanupSwapChain env s in
  outcome r = Done tt /\
  app (final r) = a /\
  calls r =
    EvMember mCleanupSwapChain
    :: map (EvDestroy Framebuffer) (m_vSwapChainFramebuffers a)
    ++ [EvFreeCommandBuffers (m_commandPool a) (List.length (m_vCommandBuffers a));
        EvDestroy Pipeline (m_graphicsPipeline a);
        EvDestroy PipelineLayout (m_pipelineLayout a);
        EvDestroy RenderPass (m_renderPass a)]
    ++ map (EvDestroy ImageView) (m_vSwapChainImageViews a)
    ++ [EvDestroy Swapchain (m_oldSwapChain a);
        EvDestroy Swapchain (m_currentSwapChain a)].
Proof.
  intros a r.
  assert (H : post r (fun c h o s' =>
    o = Done tt /\ app s' = a /\
    c = EvMember mCleanupSwapChain
        :: map (EvDestroy Framebuffer) (m_vSwapChainFramebuffers a)
        ++ [EvFreeCommandBuffers (m_commandPool a) (List.length (m_vCommandBuffers a));
            EvDestroy Pipeline (m_graphicsPipeline a);
            EvDestroy PipelineLayout (m_pipelineLayout a);
            EvDestroy RenderPass (m_renderPass a)]
        ++ map (EvDestroy ImageView) (m_vSwapChainImageViews a)
        ++ [EvDestroy Swapchain (m_oldSwapChain a);
            EvDestroy Swapchain (m_currentSwapChain a)])).
  { subst r a. unfold CleanupSwapChain. repeat walk3.
    split; [reflexivity|]. split; [members; reflexivity|].
    members. rewrite <- ?app_assoc. reflexivity. }
  exact H.
Qed.

(* ------------------------------------------------------------------ *)
(** ** The shader modules of the pipeline *)

Ltac in_list H :=
  cbn [In] in H;
  repeat match type of H with
         | _ \/ _ => destruct H as [H|H]
         | False => destruct H
         end.

(** X10.  [CreateGraphicsPipeline] either returns or throws.  A shader module
    it created is destroyed exactly when the function returns: when the
    second module, the pipeline layout or the pipeline cannot be created,
    the modules made so far are left alone.  When a shader file cannot be
    opened nothing has been created. *)
Theorem CreateGraphicsPipeline_shader_modules env s :
  let r := CreateGraphicsPipeline env s in
  (outcome r = Done tt \/ exists what, outcome r = Fatal what) /\
  (forall result h,
      In (EvCreate ShaderModule VK_NULL_HANDLE result h) (calls r) ->
      (In (EvDestroy ShaderModule h) (calls r) <-> outcome r = Done tt)) /\
  (forall name,
      In (EvReadFile name false) (calls r) ->
      outcome r = Fatal "Failed to open file!" /\ count is_create (calls r) = 0) /\
  (outcome r = Done tt ->
   count is_create (calls r) = 4 /\ count is_destroy (calls r) = 2).
Proof.
  intro r.
  assert (H : post r (fun c h o s' =>
    (o = Done tt \/ exists what, o = Fatal what) /\
    (forall result h,
        In (EvCreate ShaderModule VK_NULL_HANDLE result h) c ->
        (In (EvDestroy ShaderModule h) c <-> o = Done tt)) /\
    (forall name,
        In (EvReadFile name false) c ->
        o = Fatal "Failed to open file!" /\ count is_create c = 0) /\
    (o = Done tt -> count is_create c = 4 /\ count is_destroy c = 2))).
  { subst r. unfold CreateGraphicsPipeline, ReadFile, CreateShaderModule. repeat walk3.
    all: split; [first [left; reflexivity|right; eexists; reflexivity]|].
    all: split;
      [ intros result0 hmod Hin; in_list Hin; try discriminate Hin;
        inversion Hin; subst;
        (split; [intro Hd; in_list Hd; try discriminate Hd; try reflexivity
                |intro Ho; try discriminate Ho; cbn [In]; auto 20])
      | ].
    all: split;
      [ intros fname Hin; in_list Hin; try discriminate Hin;
        inversion Hin; subst; split; reflexivity
      | intro Ho; try discriminate Ho; split; reflexivity ]. }
  exact H.
Qed.

(* ------------------------------------------------------------------ *)
(** ** The vectors that hang on the swap chain *)

Lemma post_allocate env pool count s Q :
  (forall s1 h res buffers,
      app s1 = app s -> advances (device s) (device s1) ->
      Forall (advances (device s)) h ->
      (succeeded res = true -> List.length buffers = count) ->
      Q [EvAllocateCommandBuffers pool count res] h (Done (res, buffers)) s1) ->
  post (vkAllocateCommandBuffers env pool count s) Q.
Proof.
  intro H. unfold vkAllocateCommandBuffers. apply post_external. intros s1 Happ _ Hadv.
  assert (Htake : advances (device s) (take count (device s1))).
  { eapply advances_trans; [exact Hadv|apply take_advances]. }
  destruct (create_answer env (clock s)); cbn [fst snd];
    (apply H; [exact Happ| | |]);
    try exact Hadv; try exact Htake;
    try (intro Hs; discriminate Hs);
    try (intros _; unfold fresh; rewrite length_map, length_seq; reflexivity);
    repeat (constructor; try exact Hadv; try exact Htake).
Qed.

Ltac walk4 :=
  first
    [ walk3
    | lazymatch goal with
      | |- post (vkAllocateCommandBuffers _ _ _ _) _ =>
          apply post_allocate; intros ? ? ? ? ? ? ? ?
      | |- post (vkBeginCommandBuffer _ _ _) _ => apply post_plain; intros ? ? ? ? ? ?
      | |- post (vkEndCommandBuffer _ _ _) _ => apply post_plain; intros ? ? ? ? ? ?
      | |- post (CreateShaderModule _ _) _ => unfold CreateShaderModule
      | |- post (ReadFile _ _ _) _ => unfold ReadFile
      end ];
  cbn beta iota zeta delta [Datatypes.app fst snd].

Lemma CreateImageViews_keeps env s :
  post (CreateImageViews env s) (fun _ _ _ s' =>
    m_vSwapChainImages (app s') = m_vSwapChainImages (app s) /\
    List.length (m_vSwapChainImageViews (app s')) = List.length (m_vSwapChainImages (app s))).
Proof.
  unfold CreateImageViews. repeat walk4.
  apply (post_for_range_keeps (fun s' =>
    m_vSwapChainImages (app s') = m_vSwapChainImages (app s) /\
    List.length (m_vSwapChainImageViews (app s')) = List.length (m_vSwapChainImages (app s)))).
  - cbn. split; [reflexivity|apply length_resize].
  - intros i s' [Hi Hv]. repeat walk4.
    all: members; rewrite ?length_assign; split; assumption.
  - intros ? ? ? ? HI. exact HI.
Qed.

Lemma CreateFramebuffers_keeps env s :
  post (CreateFramebuffers env s) (fun _ _ _ s' =>
    m_vSwapChainImages (app s') = m_vSwapChainImages (app s) /\
    m_vSwapChainImageViews (app s') = m_vSwapChainImageViews (app s) /\
    List.length (m_vSwapChainFramebuffers (app s')) =
    List.length (m_vSwapChainImageViews (app s))).
Proof.
  unfold CreateFramebuffers. repeat walk4.
  apply (post_for_range_keeps (fun s' =>
    m_vSwapChainImages (app s') = m_vSwapChainImages (app s) /\
    m_vSwapChainImageViews (app s') = m_vSwapChainImageViews (app s) /\
    List.length (m_vSwapChainFramebuffers (app s')) =
    List.length (m_vSwapChainImageViews (app s)))).
  - cbn. split; [reflexivity|]. split; [reflexivity|apply length_resize].
  - intros i s' [Hi [Hv Hf]]. repeat walk4.
    all: members; rewrite ?length_assign; split; [|split]; assumption.
  - intros ? ? ? ? HI. exact HI.
Qed.

Lemma CreateCommandBuffers_keeps env s :
  post (CreateCommandBuffers env s) (fun _ _ _ s' =>
    m_vSwapChainImages (app s') = m_vSwapChainImages (app s) /\
    m_vSwapChainImageViews (app s') = m_vSwapChainImageViews (app s) /\
    m_vSwapChainFramebuffers (app s') = m_vSwapChainFramebuffers (app s) /\
    List.length (m_vCommandBuffers (app s')) =
    List.length (m_vSwapChainFramebuffers (app s))).
Proof.
  unfold CreateCommandBuffers. repeat walk4.
  all: try (members; rewrite ?length_resize; repeat split; reflexivity).
  apply (post_for_range_keeps (fun s' =>
    m_vSwapChainImages (app s') = m_vSwapChainImages (app s) /\
    m_vSwapChainImageViews (app s') = m_vSwapChainImageViews (app s) /\
    m_vSwapChainFramebuffers (app s') = m_vSwapChainFramebuffers (app s) /\
    List.length (m_vCommandBuffers (app s')) =
    List.length (m_vSwapChainFramebuffers (app s)))).
  - members. split; [reflexivity|]. split; [reflexivity|]. split; [reflexivity|].
    match goal with H : true = true -> _ |- _ => rewrite (H eq_refl) end.
    members. apply length_resize.
  - intros i s' HI. repeat walk4.
    all: members; exact HI.
  - intros ? ? ? ? HI. exact HI.
Qed.

Lemma CreateRenderPass_keeps env s :
  post (CreateRenderPass env s) (fun _ _ _ s' =>
    m_vSwapChainImages (app s') = m_vSwapChainImages (app s) /\
    m_vSwapChainImageViews (app s') = m_vSwapChainImageViews (app s)).
Proof.
  unfold CreateRenderPass. repeat walk4. all: members; split; reflexivity.
Qed.

Lemma CreateGraphicsPipeline_keeps env s :
  post (CreateGraphicsPipeline env s) (fun _ _ _ s' =>
    m_vSwapChainImages (app s') = m_vSwapChainImages (app s) /\
    m_vSwapChainImageViews (app s') = m_vSwapChainImageViews (app s)).
Proof.
  unfold CreateGraphicsPipeline. repeat walk4. all: members; split; reflexivity.
Qed.

Lemma build_phase_aligns env s :
  post (build_phase env s) (fun _ _ o s' => o = Done tt -> chain_aligned (app s')).
Proof.
  unfold build_phase. apply post_bind. unfold post at 1.
  destruct (outcome (CreateSwapChain env s)) as [[]| | |]; try discriminate.
  set (s1 := final (CreateSwapChain env s)).
  apply post_bind.
  eapply post_weaken; [apply CreateImageViews_keeps|]. intros _ _ o s2 [Hi2 Hv2]. cbv beta.
  destruct o as [[]| | |]; try discriminate.
  apply post_bind.
  eapply post_weaken; [apply CreateRenderPass_keeps|]. intros _ _ o s3 [Hi3 Hv3]. cbv beta.
  destruct o as [[]| | |]; try discriminate.
  apply post_bind.
  eapply post_weaken; [apply CreateGraphicsPipeline_keeps|]. intros _ _ o s4 [Hi4 Hv4]. cbv beta.
  destruct o as [[]| | |]; try discriminate.
  apply post_bind.
  eapply post_weaken; [apply CreateFramebuffers_keeps|]. intros _ _ o s5 [Hi5 [Hv5 Hf5]]. cbv beta.
  destruct o as [[]| | |]; try discriminate.
  eapply post_weaken; [apply CreateCommandBuffers_keeps|].
  intros _ _ o s6 [Hi6 [Hv6 [Hf6 Hc6]]] _.
  unfold chain_aligned. rewrite Hc6, Hf6, Hv6, Hi6, Hf5, Hv5, Hi5, Hv4, Hi4, Hv3, Hi3, Hv2, Hi2.
  repeat split; reflexivity.
Qed.

(** X12.  After a rebuild that returns, the image views, the framebuffers and
    the command buffers are as many as the images of the new chain. *)
Theorem RecreateSwapChain_aligns_the_chain env fuel s :
  outcome (RecreateSwapChain env fuel s) = Done tt ->
  chain_aligned (app (final (RecreateSwapChain env fuel s))).
Proof.
  rewrite RecreateSwapChain_phases.
  assert (H : post (bind (teardown_phase env fuel) (fun _ => build_phase env) s)
                   (fun _ _ o s' => o = Done tt -> chain_aligned (app s'))).
  { apply post_bind. unfold post at 1.
    destruct (outcome (teardown_phase env fuel s)) as [[]| | |]; try discriminate.
    apply build_phase_aligns. }
  exact H.
Qed.

Lemma RecreateSwapChain_aligns_the_chain_witness :
  chain_aligned (app (final (RecreateSwapChain growing_env 1 sample_ready))) /\
  List.length (m_vSwapChainImages (app (final (RecreateSwapChain growing_env 1 sample_ready)))) = 3.
Proof.
  split; [|vm_compute; reflexivity].
  apply (RecreateSwapChain_aligns_the_chain growing_env 1 sample_ready).
  vm_compute. reflexivity.
Defined.

(* ------------------------------------------------------------------ *)
(** ** One submission at a time *)

Lemma pending_none_advances d d' : pending d = [] -> advances d d' -> pending d' = [].
Proof.
  intros Hp [_ [_ [Hsub _]]].
  destruct (pending d') as [|e l]; [reflexivity|].
  specialize (Hsub e (or_introl eq_refl)). rewrite Hp in Hsub. destruct Hsub.
Qed.

Lemma single_none d : pending d = [] -> single d.
Proof. intro H. unfold single, outstanding. rewrite H. cbn. lia. Qed.

Lemma Forall_single_none d h : pending d = [] -> Forall (advances d) h -> Forall single h.
Proof.
  intros Hp Hh. eapply Forall_impl; [|exact Hh].
  intros d' Ha. apply single_none. eapply pending_none_advances; eauto.
Qed.

Lemma single_one d d' q f :
  pending d = [(q, f)] -> advances d d' -> sound d' -> single d'.
Proof.
  intros Hp [_ [_ [Hsub _]]] [_ [Hnd _]]. unfold single, outstanding.
  rewrite Hp in Hsub.
  destruct (pending d') as [|e [|e' l]]; cbn; try lia.
  exfalso.
  assert (He : e = (q, f)) by (destruct (Hsub e (or_introl eq_refl)) as [<-|[]]; reflexivity).
  assert (He' : e' = (q, f))
    by (destruct (Hsub e' (or_intror (or_introl eq_refl))) as [<-|[]]; reflexivity).
  subst. cbn in Hnd. inversion Hnd as [|? ? Hnot _]. apply Hnot. left. reflexivity.
Qed.

Lemma Forall_single_one d h q f :
  pending d = [(q, f)] -> Forall (advances d) h -> Forall sound h -> Forall single h.
Proof.
  intros Hp Hh Hs. induction Hh as [|d' h Ha Hh IH]; [constructor|].
  inversion Hs; subst. constructor; [eapply single_one; eauto|auto].
Qed.

Lemma pending_landed d d' q f :
  pending d = [(q, f)] -> advances d d' -> sound d' -> signalled d' f = true ->
  pending d' = [].
Proof.
  intros Hp [_ [_ [Hsub _]]] [_ [_ Hun]] Hg. rewrite Hp in Hsub.
  destruct (pending d') as [|e l] eqn:E; [reflexivity|]. exfalso.
  assert (He : e = (q, f)) by (destruct (Hsub e (or_introl eq_refl)) as [<-|[]]; reflexivity).
  specialize (Hun e (or_introl eq_refl)). subst e. cbn in Hun.
  apply signalled_true in Hg. congruence.
Qed.

Lemma single_submitted d e : pending d = [e] -> single d.
Proof. intro H. unfold single, outstanding. rewrite H. cbn. lia. Qed.

Ltac chain_in H :=
  repeat first
    [ progress cbn [app device clock set_m_framebufferResized set_m_currentFrame
                    set_m_vImagesInFlight m_framebufferResized m_vImagesInFlight
                    m_vFences m_currentFrame] in H
    | match type of H with
      | context [app ?s] =>
          match goal with
          | E : app s = _ |- _ => rewrite E in H
          end
      end ].

(** The fence read back from the tracker after the submission is the
    fence of the slot, written there before it. *)
Ltac tracker :=
  repeat match goal with
    | H : nth_error (m_vImagesInFlight (app _)) _ = Some _ |- _ =>
        progress chain_in H
    end;
  repeat match goal with
    | H1 : nth_error ?v ?i = Some _,
      H4 : nth_error (assign ?i ?x ?v) ?i = Some ?y |- _ =>
        rewrite nth_error_assign_eq in H4
          by (apply nth_error_Some; rewrite H1; discriminate);
        inversion H4; subst y; clear H4
    end.

Ltac flight_saturate :=
  repeat match goal with
    | Hp : pending ?d = [], Ha : advances ?d ?d' |- _ =>
        have (pending d' = []); pose proof (pending_none_advances _ _ Hp Ha)
    | Hp : pending ?d = [], Hh : Forall (advances ?d) ?h |- _ =>
        have (Forall single h); pose proof (Forall_single_none _ _ Hp Hh)
    | Hd : device ?s = mkDevice (assign ?f false (fences ?d1)) (pending ?d1) ?n,
      Hp : pending ?d1 = [] |- _ =>
        have (pending (device s) = []);
        assert (pending (device s) = []) by (rewrite Hd; exact Hp)
    | Hd : device ?s = mkDevice (fences ?d1) (pending ?d1 ++ [(?q, ?f)]) ?n,
      Hp : pending ?d1 = [] |- _ =>
        have (pending (device s) = [(q, f)]);
        assert (pending (device s) = [(q, f)])
          by (rewrite Hd; cbn [pending]; rewrite Hp; reflexivity)
    | Hd : device ?s = ?d1, Hp : pending ?d1 = [] |- _ =>
        have (pending (device s) = []);
        assert (pending (device s) = []) by (rewrite Hd; exact Hp)
    | Hf : pending ?d = [(?q, ?f)], Ha : advances ?d ?d', Hs : sound ?d',
      Hg : signalled ?d' ?f = true |- _ =>
        have (pending d' = []); pose proof (pending_landed _ _ _ _ Hf Ha Hs Hg)
    | Hf : pending ?d = [(?q, ?f)], Ha : advances ?d ?d', Hs : sound ?d' |- _ =>
        have (single d'); pose proof (single_one _ _ _ _ Hf Ha Hs)
    | Hf : pending ?d = [(?q, ?f)], Hh : Forall (advances ?d) ?h, Hs : Forall sound ?h |- _ =>
        have (Forall single h); pose proof (Forall_single_one _ _ _ _ Hf Hh Hs)
    | Hp : pending ?d = [] |- _ =>
        have (single d); pose proof (single_none _ Hp)
    | Hp : pending ?d = [_] |- _ =>
        have (single d); pose proof (single_submitted _ _ Hp)
    end.

Lemma DrawFrame_single env fuel s :
  frame_ready s -> pending (device s) = [] ->
  post (DrawFrame env fuel s) (fun c h o s' =>
    Forall single h /\ (o = Done tt -> pending (device s') = [])).
Proof.
  intros [Hb [Hf [Hl Hc]]] Hp.
  assert (Hs : sound (device s)) by (split; assumption).
  rewrite DrawFrame_stages. walk.
  all: cbn [app device clock] in *.
  all: try (apply nth_error_None in Heqo; rewrite Hf in Heqo; cbn in Heqo;
            unfold MAX_FRAMES_IN_FLIGHT, g_maxFramesInFlight in Hb; lia).
  all: try (rewrite Hf in Heqo;
            destruct (m_currentFrame (app s)) as [|[|n]] eqn:Ecur;
            [ | | destruct n; discriminate Heqo ];
            cbn in Heqo; inversion Heqo; subst h; clear Heqo).
  all: tracker.
  all: try match goal with Hn : negb (is_null (Some _)) = false |- _ => discriminate Hn end.
  all: result_cases; cbn beta iota in *; sound_saturate; flight_saturate.
  all: split; [Forall_pieces|].
  all: intro Ho; try discriminate Ho; assumption.
Qed.

Lemma at_rest_single k d : at_rest k d -> single d.
Proof. intros [_ Hp]. now apply single_none. Qed.

Lemma Forall_at_rest_single k h : Forall (at_rest k) h -> Forall single h.
Proof. intro H. eapply Forall_impl; [|exact H]. intro d. apply at_rest_single. Qed.

Ltac single_pieces :=
  repeat lazymatch goal with
    | |- Forall _ [] => apply Forall_nil
    | |- Forall _ (_ :: _) => apply Forall_cons
    | |- Forall _ (_ ++ _) => apply Forall_app; split
    | |- single _ => eapply at_rest_single; eassumption
    | |- Forall single _ => eapply Forall_at_rest_single; eassumption
    end.

Lemma CreateSyncObjects_single env s :
  before_sync_objects s ->
  post (CreateSyncObjects env s) (fun c h o s' => Forall single h).
Proof.
  intros [Hf [Hp _]].
  assert (Hs : at_rest 0 (device s)) by (split; assumption).
  walk2. repeat walk2.
  all: cbn [app device clock] in *.
  all: rest_saturate.
  all: single_pieces.
Qed.

Lemma MainLoop_single env fuel n : forall s,
  frame_ready s -> pending (device s) = [] ->
  post (MainLoop env fuel n s) (fun c h o s' =>
    Forall single h /\ (o = Done tt -> pending (device s') = [])).
Proof.
  induction n as [|n IH]; intros s Hr Hp.
  - split; [constructor|discriminate].
  - cbn [MainLoop]. apply post_bind. unfold glfwWindowShouldClose.
    apply post_plain. intros s1 h close Happ Ha Hh.
    assert (Hr1 : frame_ready s1).
    { eapply frame_ready_moved; [exact Hr| |exact Ha]. rewrite Happ. apply same_slots_refl. }
    assert (Hp1 : pending (device s1) = []) by exact (pending_none_advances _ _ Hp Ha).
    assert (Hh' : Forall single h) by exact (Forall_single_none _ _ Hp Hh).
    destruct close.
    + apply post_device_wait_idle. intros s2 h2 _ Ha2 Hh2. split.
      * apply Forall_app. split; [exact Hh'|]. exact (Forall_single_none _ _ Hp1 Hh2).
      * intros _. exact (pending_none_advances _ _ Hp1 Ha2).
    + apply post_bind. unfold glfwPollEvents.
      apply post_process_events. intros s2 h2 c2 Happ2 Ha2 Hh2 Hc2.
      assert (Hr2 : frame_ready s2) by (eapply frame_ready_moved; eauto).
      assert (Hp2 : pending (device s2) = []) by exact (pending_none_advances _ _ Hp1 Ha2).
      assert (Hh2' : Forall single h2) by exact (Forall_single_none _ _ Hp1 Hh2).
      apply post_bind.
      pose proof (DrawFrame_sound env fuel s2 Hr2) as [_ [Hr3 _]].
      pose proof (DrawFrame_single env fuel s2 Hr2 Hp2) as [Hh3 Hp3].
      unfold post at 1.
      assert (Hpre : Forall single (h ++ h2 ++ history (DrawFrame env fuel s2))).
      { apply Forall_app. split; [exact Hh'|]. apply Forall_app. split; assumption. }
      destruct (outcome (DrawFrame env fuel s2)) as [[]| | |];
        try (split; [exact Hpre|discriminate]).
      eapply post_weaken; [apply (IH _ Hr3 (Hp3 eq_refl))|].
      intros c4 h4 o4 s4 [Hh4 Ho4]. split; [|exact Ho4].
      rewrite !app_assoc. apply Forall_app. split; [|exact Hh4].
      rewrite <- !app_assoc. exact Hpre.
Qed.

Lemma post_wait_some env fence s Q :
  (forall s1 d0 f,
      fence = Some f ->
      app s1 = app s -> advances (device s) d0 -> advances (device s) (device s1) ->
      Q [EvWaitForFences fence] [d0; device s1] (Done tt) s1) ->
  (forall s1 d0,
      app s1 = app s -> advances (device s) d0 -> advances (device s) (device s1) ->
      Q [EvWaitForFences fence] [d0; device s1] Blocked s1) ->
  post (vkWaitForFences env fence s) Q.
Proof.
  intros Hdone Hblocked. unfold vkWaitForFences. apply post_external.
  intros s1 Happ _ Hadv.
  destruct fence as [f|]; cbn [fst snd]; [|apply Hblocked; auto].
  destruct (signalled (device s1) f) eqn:Es; cbn [fst snd].
  - eapply Hdone; eauto.
  - destruct (is_pending (device s1) f) eqn:Ep; cbn [fst snd]; [|apply Hblocked; auto].
    eapply Hdone; eauto. cbn [with_device device].
    eapply advances_trans; [exact Hadv|apply finish_advances].
Qed.

Ltac walk7 :=
  first
    [ lazymatch goal with
      | |- post (vkWaitForFences _ _ _) _ =>
          apply post_wait_some; [intros ? ? ? ? ? ? ? | intros ? ? ? ? ?]
      end
    | walk1 ];
  cbn beta iota zeta delta [Datatypes.app fst snd].

Lemma split_cons {A} (e : A) l pre rest :
  l = pre ++ rest -> e :: l = (e :: pre) ++ rest.
Proof. intros ->. reflexivity. Qed.

Lemma split_here3 {A} (x y z : A) post : x :: y :: z :: post = [] ++ x :: y :: z :: post.
Proof. reflexivity. Qed.

(** A frame presents right after the wait for the fence its submission
    signals. *)
Lemma DrawFrame_waits_before_present env fuel s :
  post (DrawFrame env fuel s) (fun c h o s' =>
    forall q chain idx res,
      In (EvQueuePresent q chain idx res) c ->
      exists pre post gq cb f,
        nth_error (m_vFences (app s)) (m_currentFrame (app s)) = Some (Some f) /\
        c = pre ++ [EvQueueSubmit gq cb (Some f) VK_SUCCESS; EvWaitForFences (Some f);
                    EvQueuePresent q chain idx res] ++ post /\
        count is_submit pre = 0 /\ count is_present pre = 0 /\ count is_present post = 0).
Proof.
  rewrite DrawFrame_stages. repeat walk7; intros q chain idx' res' Hin.
  all: try (in_cases Hin; absurd_call Hin; fail).
  all: in_cases Hin; try (absurd_call Hin; fail).
  all: inversion Hin; subst; clear Hin.
  all: repeat match goal with
         | H : nth_error (m_vImagesInFlight (app _)) _ = Some _ |- _ => progress chain_in H
         end.
  all: repeat match goal with
         | H1 : nth_error ?v ?i = Some _,
           H4 : nth_error (assign ?i ?x ?v) ?i = Some _ |- _ =>
             rewrite nth_error_assign_eq in H4
               by (apply nth_error_Some; rewrite H1; discriminate);
             inversion H4; subst; clear H4
         end.
  all: try match goal with Hn : negb (is_null (Some _)) = false |- _ => discriminate Hn end.
  all: result_cases.
  all: do 5 eexists.
  all: split; [reflexivity|].
  all: split;
    [ repeat first [ apply split_here3 | apply split_cons ]
    | split; [reflexivity|split; [reflexivity|count_norm; reflexivity]] ].
Qed.

Lemma count_present_split pre e post :
  is_present e = true -> 0 < count is_present (pre ++ e :: post).
Proof. intro He. rewrite count_app, count_cons, He. lia. Qed.

Lemma present_split_unique a x b a' y b' :
  a ++ x :: b = a' ++ y :: b' ->
  is_present y = true -> count is_present a = 0 -> count is_present b = 0 ->
  a' = a.
Proof.
  revert a'. induction a as [|z a IH]; intros [|z' a'] Heq Hy Ha Hb; cbn in Heq.
  - reflexivity.
  - inversion Heq; subst. pose proof (count_present_split a' y b' Hy). lia.
  - inversion Heq; subst. rewrite count_cons, Hy in Ha. lia.
  - inversion Heq; subst. f_equal. apply (IH a' H1 Hy); [|exact Hb].
    rewrite count_cons in Ha. lia.
Qed.

Lemma presents_after_wait_none l : count is_present l = 0 -> presents_after_wait l.
Proof.
  intros H pre e post -> He. pose proof (count_present_split pre e post He). lia.
Qed.

Lemma presents_after_wait_app l l' :
  presents_after_wait l -> presents_after_wait l' -> presents_after_wait (l ++ l').
Proof.
  intros Hl Hl' pre e post Heq He.
  assert (Hcase : (exists post1, l = pre ++ e :: post1) \/
                  (exists pre2, pre = l ++ pre2 /\ l' = pre2 ++ e :: post)).
  { clear Hl Hl' He. revert pre Heq. induction l as [|x l IH]; intros pre Heq.
    - right. exists pre. auto.
    - destruct pre as [|y pre]; cbn in Heq; inversion Heq; subst.
      + left. eexists. reflexivity.
      + destruct (IH pre H1) as [[post1 ->]|[pre2 [-> ->]]].
        * left. eexists. reflexivity.
        * right. exists pre2. auto. }
  destruct Hcase as [[post1 H1]|[pre2 [Hpre H2]]].
  - exact (Hl pre e post1 H1 He).
  - destruct (Hl' pre2 e post H2 He) as [pre' [q [cb [f Hp]]]].
    exists (l ++ pre'), q, cb, f. rewrite Hpre, Hp, app_assoc. reflexivity.
Qed.

Lemma DrawFrame_presents_after_wait env fuel s :
  presents_after_wait (calls (DrawFrame env fuel s)).
Proof.
  intros pre e post Heq He.
  destruct e as [| | | | | | | | | | | |q chain idx res| | | | | | | | | | | | |];
    try discriminate He.
  assert (Hin : In (EvQueuePresent q chain idx res) (calls (DrawFrame env fuel s))).
  { rewrite Heq. apply in_or_app. right. left. reflexivity. }
  destruct (DrawFrame_waits_before_present env fuel s q chain idx res Hin)
    as [pre0 [post0 [gq [cb [f [_ [Hc [_ [Hpre Hpost]]]]]]]]].
  rewrite Heq in Hc.
  assert (Hsame : pre = pre0 ++ [EvQueueSubmit gq cb (Some f) VK_SUCCESS;
                                  EvWaitForFences (Some f)]).
  { apply (present_split_unique _ (EvQueuePresent q chain idx res) post0 pre
             (EvQueuePresent q chain idx res) post).
    - rewrite Hc, <- app_assoc. reflexivity.
    - reflexivity.
    - rewrite count_app, Hpre. reflexivity.
    - exact Hpost. }
  exists pre0, gq, cb, f. exact Hsame.
Qed.

Lemma MainLoop_presents_after_wait env fuel n :
  forall s, presents_after_wait (calls (MainLoop env fuel n s)).
Proof.
  induction n as [|n IH]; intro s; cbn [MainLoop].
  - apply presents_after_wait_none. reflexivity.
  - rewrite calls_bind.
    apply presents_after_wait_app; [apply presents_after_wait_none; reflexivity|].
    cbn [glfwWindowShouldClose plain external outcome final].
    destruct (should_close env (clock s)).
    + apply presents_after_wait_none. reflexivity.
    + rewrite calls_bind. apply presents_after_wait_app.
      * apply presents_after_wait_none.
        destruct (process_events_calls env EvPollEvents (gpu_step env s)) as [Hc|Hc];
          unfold glfwPollEvents; rewrite Hc; reflexivity.
      * unfold glfwPollEvents. rewrite process_events_done.
        rewrite calls_bind. apply presents_after_wait_app.
        -- apply DrawFrame_presents_after_wait.
        -- destruct (outcome (DrawFrame env fuel _));
             first [apply IH|apply presents_after_wait_none; reflexivity].
Qed.

Lemma CreateSyncObjects_presents_nothing env s :
  count is_present (calls (CreateSyncObjects env s)) = 0.
Proof.
  assert (H : post (CreateSyncObjects env s) (fun c _ _ _ => count is_present c = 0)).
  { walk2. repeat walk2. all: reflexivity. }
  exact H.
Qed.

(** X15.  From the creation of the synchronisation objects on and through any
    number of rounds of the main loop, at every instant at most one
    submission is executing, and none is when the loop returns.  Every
    presentation of the run comes right after the wait for a fence, which
    comes right after the successful submission that signals that fence;
    in a frame that fence is the one of the slot, and nothing else was
    submitted or presented before in the frame. *)
Theorem frame_loop_runs_one_submission_at_a_time env fuel n s0 :
  before_sync_objects s0 ->
  let r := (CreateSyncObjects env ;; MainLoop env fuel n) s0 in
  Forall single (history r) /\
  (outcome r = Done tt -> pending (device (final r)) = []) /\
  presents_after_wait (calls r) /\
  (forall s q chain idx res,
      In (EvQueuePresent q chain idx res) (calls (DrawFrame env fuel s)) ->
      exists pre post gq cb f,
        nth_error (m_vFences (app s)) (m_currentFrame (app s)) = Some (Some f) /\
        calls (DrawFrame env fuel s) =
          pre ++ [EvQueueSubmit gq cb (Some f) VK_SUCCESS; EvWaitForFences (Some f);
                  EvQueuePresent q chain idx res] ++ post /\
        count is_submit pre = 0 /\ count is_present pre = 0 /\ count is_present post = 0).
Proof.
  intros H0 r.
  assert (H : post r (fun _ h o s' =>
                        Forall single h /\ (o = Done tt -> pending (device s') = []))).
  { subst r. apply post_bind.
    pose proof (CreateSyncObjects_ready env s0 H0) as [_ [_ Hready]].
    pose proof (CreateSyncObjects_single env s0 H0) as Hh.
    unfold post at 1.
    destruct (outcome (CreateSyncObjects env s0)) as [[]| | |];
      try (split; [exact Hh|discriminate]).
    destruct (Hready tt eq_refl) as [Hr [_ Hp]].
    eapply post_weaken; [apply (MainLoop_single env fuel n _ Hr Hp)|].
    intros c h o s' [Hh' Ho]. split; [|exact Ho].
    apply Forall_app. split; assumption. }
  destruct H as [Hsingle Hidle].
  split; [exact Hsingle|]. split; [exact Hidle|]. split.
  - subst r. rewrite calls_bind. apply presents_after_wait_app.
    + apply presents_after_wait_none. apply CreateSyncObjects_presents_nothing.
    + destruct (outcome (CreateSyncObjects env s0));
        first [apply MainLoop_presents_after_wait|apply presents_after_wait_none; reflexivity].
  - intros s q chain idx res Hin.
    exact (DrawFrame_waits_before_present env fuel s q chain idx res Hin).
Qed.

Lemma frame_loop_runs_one_submission_at_a_time_witness :
  before_sync_objects sample_start /\
  Forall single (history ((CreateSyncObjects calm_env ;; MainLoop calm_env 0 3) sample_start)) /\
  exists pre' queue commandBuffer f,
    firstn 15 (calls ((CreateSyncObjects calm_env ;; MainLoop calm_env 0 3) sample_start)) =
    pre' ++ [EvQueueSubmit queue commandBuffer (Some f) VK_SUCCESS; EvWaitForFences (Some f)].
Proof.
  assert (H0 : before_sync_objects sample_start) by (repeat split; reflexivity).
  split; [exact H0|].
  destruct (frame_loop_runs_one_submission_at_a_time calm_env 0 3 sample_start H0)
    as [Hs [_ [Hw _]]].
  split; [exact Hs|].
  apply (Hw (firstn 15 (calls ((CreateSyncObjects calm_env ;; MainLoop calm_env 0 3)
                                 sample_start)))
            (EvQueuePresent (Some 0) (Some 100) 1 VK_SUCCESS)
            (skipn 16 (calls ((CreateSyncObjects calm_env ;; MainLoop calm_env 0 3)
                                sample_start)))).
  - vm_compute. reflexivity.
  - reflexivity.
Defined.

(* ------------------------------------------------------------------ *)
(** ** How a frame ends *)

Ltac slot_chain :=
  repeat first
    [ progress cbn [app device clock set_m_framebufferResized set_m_currentFrame
                    set_m_vImagesInFlight m_vFences m_currentFrame m_framebufferResized
                    m_vImagesInFlight]
    | match goal with
      | H : same_slots _ (app ?s) |- context [m_vImagesInFlight (app ?s)] =>
          rewrite (proj1 (proj2 H))
      | H : same_slots _ (app ?s) |- context [m_currentFrame (app ?s)] =>
          rewrite (proj1 (proj2 (proj2 H)))
      | H : app ?s = _ |- context [app ?s] => rewrite H
      end ].

Ltac result_is r :=
  repeat match goal with
         | Hb : context [succeeded _] |- _ => unfold succeeded in Hb
         end;
  destruct r; try contradiction; try congruence;
  repeat match goal with
         | Hb : context [VkResult_eqb _ _] |- _ => cbv in Hb; try discriminate Hb
         end.

Ltac tracker_bound :=
  match goal with
  | H : nth_error (m_vImagesInFlight (app _)) ?i = Some _ |- ?i < _ =>
      chain_in H; apply nth_error_Some; rewrite H; discriminate
  end.

Lemma DrawFrame_endings env fuel s :
  post (DrawFrame env fuel s) (fun c h o s' =>
    (forall chain sem res idx,
        In (EvAcquireNextImage chain sem res idx) c ->
        res <> VK_SUCCESS -> res <> VK_SUBOPTIMAL_KHR -> res <> VK_ERROR_OUT_OF_DATE_KHR ->
        o = Fatal "Failed to acquire swap chain image!" /\ app s' = app s /\
        exists fence, c = [EvMember mDrawFrame; EvWaitForFences fence;
                           EvAcquireNextImage chain sem res idx]) /\
    (forall q cb f res,
        In (EvQueueSubmit q cb f res) c -> res <> VK_SUCCESS ->
        o = Fatal "Failed to submit draw command buffer!" /\
        count is_reset c = 1 /\ count is_present c = 0 /\ count is_rebuild c = 0) /\
    (o = Done tt ->
     (exists chain sem idx, In (EvAcquireNextImage chain sem VK_ERROR_OUT_OF_DATE_KHR idx) c) \/
     (m_currentFrame (app s') = (m_currentFrame (app s) + 1) mod MAX_FRAMES_IN_FLIGHT /\
      count is_submit c = 1 /\ count is_present c = 1 /\
      forall fence,
        nth_error (m_vFences (app s)) (m_currentFrame (app s)) = Some fence ->
        exists chain sem res idx,
          In (EvAcquireNextImage chain sem res idx) c /\
          nth_error (m_vImagesInFlight (app s')) idx = Some fence))).
Proof.
  rewrite DrawFrame_stages. walk.
  all: split;
    [ intros chain' sem' res' idx' Hin Hn1 Hn2 Hn3;
      in_cases Hin; try (absurd_call Hin; fail);
      inversion Hin; subst; clear Hin;
      first [ solve [result_is res']
            | split; [reflexivity|split; [members; reflexivity|eexists; reflexivity]] ]
    | split;
      [ intros q' cb' f' res' Hin Hn;
        in_cases Hin; try (absurd_call Hin; fail);
        inversion Hin; subst; clear Hin;
        first [ solve [result_is res']
              | split; [reflexivity|repeat split; reflexivity] ]
      | intro Ho; try discriminate Ho;
        first
          [ solve [ left;
                    match goal with
                    | Hb : VkResult_eqb ?r VK_ERROR_OUT_OF_DATE_KHR = true |- _ =>
                        apply VkResult_eqb_eq in Hb; subst r
                    end;
                    do 3 eexists; right; right; left; reflexivity ]
          | right;
            split; [slot_chain; reflexivity|];
            split; [count_norm; reflexivity|];
            split; [count_norm; reflexivity|];
            intros fence Hfe; inversion Hfe; subst;
            do 4 eexists;
            split; [right; right; left; reflexivity|];
            slot_chain; apply nth_error_assign_eq; tracker_bound ] ] ].
Qed.

(** X16.  A frame whose acquisition fails with anything but an out-of-date or
    suboptimal chain throws right after the acquisition: nothing was
    reset, submitted or rebuilt, and no data member has changed. *)
Theorem DrawFrame_acquisition_failure env fuel s chain sem res idx :
  In (EvAcquireNextImage chain sem res idx) (calls (DrawFrame env fuel s)) ->
  res <> VK_SUCCESS -> res <> VK_SUBOPTIMAL_KHR -> res <> VK_ERROR_OUT_OF_DATE_KHR ->
  outcome (DrawFrame env fuel s) = Fatal "Failed to acquire swap chain image!" /\
  app (final (DrawFrame env fuel s)) = app s /\
  exists fence,
    calls (DrawFrame env fuel s) =
    [EvMember mDrawFrame; EvWaitForFences fence; EvAcquireNextImage chain sem res idx].
Proof.
  intros Hin H1 H2 H3.
  destruct (DrawFrame_endings env fuel s) as [Hacq _].
  exact (Hacq chain sem res idx Hin H1 H2 H3).
Qed.

Lemma DrawFrame_acquisition_failure_witness :
  outcome (DrawFrame (with_acquire (fun _ => (VK_ERROR_DEVICE_LOST, 0)) calm_env) 0 sample_ready)
  = Fatal "Failed to acquire swap chain image!" /\
  app (final (DrawFrame (with_acquire (fun _ => (VK_ERROR_DEVICE_LOST, 0)) calm_env) 0
                        sample_ready)) = app sample_ready.
Proof.
  destruct (DrawFrame_acquisition_failure
              (with_acquire (fun _ => (VK_ERROR_DEVICE_LOST, 0)) calm_env) 0 sample_ready
              (Some 100) (Some 200) VK_ERROR_DEVICE_LOST 0) as [H1 [H2 _]].
  - vm_compute. right. right. left. reflexivity.
  - discriminate.
  - discriminate.
  - discriminate.
  - split; [exact H1|exact H2].
Defined.

(** X17.  A frame whose submission is rejected throws after it: the fence of
    the slot has been reset, nothing is presented and nothing rebuilt. *)
Theorem DrawFrame_submission_failure env fuel s queue commandBuffer fence res :
  In (EvQueueSubmit queue commandBuffer fence res) (calls (DrawFrame env fuel s)) ->
  res <> VK_SUCCESS ->
  outcome (DrawFrame env fuel s) = Fatal "Failed to submit draw command buffer!" /\
  count is_reset (calls (DrawFrame env fuel s)) = 1 /\
  count is_present (calls (DrawFrame env fuel s)) = 0 /\
  count is_rebuild (calls (DrawFrame env fuel s)) = 0.
Proof.
  intros Hin Hres.
  destruct (DrawFrame_endings env fuel s) as [_ [Hsub _]].
  exact (Hsub queue commandBuffer fence res Hin Hres).
Qed.

Lemma DrawFrame_submission_failure_witness :
  outcome (DrawFrame (with_submit (fun _ => VK_ERROR_DEVICE_LOST) calm_env) 0 sample_ready)
  = Fatal "Failed to submit draw command buffer!" /\
  count is_present
    (calls (DrawFrame (with_submit (fun _ => VK_ERROR_DEVICE_LOST) calm_env) 0 sample_ready)) = 0.
Proof.
  destruct (DrawFrame_submission_failure
              (with_submit (fun _ => VK_ERROR_DEVICE_LOST) calm_env) 0 sample_ready
              (Some 0) (Some 112) (Some 0) VK_ERROR_DEVICE_LOST) as [H1 [_ [H3 _]]].
  - vm_compute. do 4 right. left. reflexivity.
  - discriminate.
  - split; [exact H1|exact H3].
Defined.

(** X18.  A frame that returns either found the chain out of date at the
    acquisition, or has submitted once, presented once, moved on to the
    next frame slot, and left the fence of its slot in the tracker at the
    index of the image it acquired. *)
Theorem DrawFrame_returns_on_the_next_slot env fuel s :
  outcome (DrawFrame env fuel s) = Done tt ->
  let r := DrawFrame env fuel s in
  (exists chain sem idx,
      In (EvAcquireNextImage chain sem VK_ERROR_OUT_OF_DATE_KHR idx) (calls r)) \/
  (m_currentFrame (app (final r)) = (m_currentFrame (app s) + 1) mod MAX_FRAMES_IN_FLIGHT /\
   count is_submit (calls r) = 1 /\ count is_present (calls r) = 1 /\
   forall fence,
     nth_error (m_vFences (app s)) (m_currentFrame (app s)) = Some fence ->
     exists chain sem res idx,
       In (EvAcquireNextImage chain sem res idx) (calls r) /\
       nth_error (m_vImagesInFlight (app (final r))) idx = Some fence).
Proof.
  intros Hdone r.
  destruct (DrawFrame_endings env fuel s) as [_ [_ Hret]].
  exact (Hret Hdone).
Qed.

Lemma DrawFrame_returns_on_the_next_slot_witness :
  outcome (DrawFrame calm_env 0 sample_ready) = Done tt /\
  m_currentFrame (app (final (DrawFrame calm_env 0 sample_ready))) = 1 /\
  nth_error (m_vImagesInFlight (app (final (DrawFrame calm_env 0 sample_ready)))) 1 = Some (Some 0).
Proof.
  assert (Hd : outcome (DrawFrame calm_env 0 sample_ready) = Done tt) by (vm_compute; reflexivity).
  split; [exact Hd|].
  destruct (DrawFrame_returns_on_the_next_slot calm_env 0 sample_ready Hd) as [_|[H1 _]].
  - vm_compute. split; reflexivity.
  - split; [exact H1|vm_compute; reflexivity].
Defined.

(* ------------------------------------------------------------------ *)
(** ** Leaving the main loop *)

Lemma post_device_idle env s Q :
  (forall s1 h, app s1 = app s -> pending (device s1) = [] ->
                Q [EvDeviceWaitIdle] h (Done tt) s1) ->
  post (vkDeviceWaitIdle env s) Q.
Proof.
  intro H. unfold vkDeviceWaitIdle. apply post_external. intros s1 Happ _ _.
  cbn [fst snd]. apply H; [exact Happ|].
  cbn [with_device device finish pending].
  induction (pending (device s1)) as [|e l IH]; [reflexivity|exact IH].
Qed.

Lemma MainLoop_exit env fuel n : forall s,
  post (MainLoop env fuel n s) (fun c h o s' =>
    o = Done tt ->
    pending (device s') = [] /\
    exists pre, c = pre ++ [EvWindowShouldClose true; EvDeviceWaitIdle]).
Proof.
  induction n as [|n IH]; intro s.
  - intro Ho. discriminate Ho.
  - cbn [MainLoop]. apply post_bind. unfold glfwWindowShouldClose.
    apply post_plain. intros s1 h close Happ Ha Hh. destruct close.
    + apply post_device_idle. intros s2 h2 _ Hp _.
      split; [exact Hp|]. exists []. reflexivity.
    + apply post_bind. unfold post at 1.
      destruct (outcome (glfwPollEvents env s1)) as [[]| | |]; try discriminate.
      apply post_bind. unfold post at 1.
      destruct (outcome (DrawFrame env fuel (final (glfwPollEvents env s1)))) as [[]| | |];
        try discriminate.
      eapply post_weaken; [apply IH|].
      intros c4 h4 o4 s4 H4 Ho. destruct (H4 Ho) as [Hp [pre Hpre]].
      split; [exact Hp|]. rewrite Hpre.
      eexists. rewrite !app_assoc. reflexivity.
Qed.

(** X19.  The main loop returns only after the window was asked to close, and
    its last call waits for the device to be idle: no submission is
    executing when it returns. *)
Theorem MainLoop_returns_idle env fuel n s :
  outcome (MainLoop env fuel n s) = Done tt ->
  pending (device (final (MainLoop env fuel n s))) = [] /\
  exists pre,
    calls (MainLoop env fuel n s) = pre ++ [EvWindowShouldClose true; EvDeviceWaitIdle].
Proof.
  intro Hdone. exact (MainLoop_exit env fuel n s Hdone).
Qed.

Lemma MainLoop_returns_idle_witness :
  outcome (MainLoop (with_should_close (fun t => 10 <? t) calm_env) 0 2 sample_ready) = Done tt /\
  count is_present
    (calls (MainLoop (with_should_close (fun t => 10 <? t) calm_env) 0 2 sample_ready)) = 1 /\
  pending (device (final (MainLoop (with_should_close (fun t => 10 <? t) calm_env) 0 2
                                   sample_ready))) = [].
Proof.
  assert (Hd : outcome (MainLoop (with_should_close (fun t => 10 <? t) calm_env) 0 2
                                 sample_ready) = Done tt) by (vm_compute; reflexivity).
  split; [exact Hd|]. split; [vm_compute; reflexivity|].
  exact (proj1 (MainLoop_returns_idle _ 0 2 sample_ready Hd)).
Defined.

(* ------------------------------------------------------------------ *)
(** ** What a rebuild leaves alone *)

Lemma reset_is_frame e : is_reset e = true -> is_frame_call e = true.
Proof. destruct e; cbn; congruence. Qed.

(** X13.  A rebuild acquires, resets, submits and presents nothing.  It leaves
    the fences, the semaphores, the tracker, the index of the frame slot
    and the two queues as they were, and on the device no fence is created
    or reset and nothing is submitted. *)
Theorem RecreateSwapChain_is_no_frame env fuel s :
  let r := RecreateSwapChain env fuel s in
  count is_acquire (calls r) = 0 /\ count is_reset (calls r) = 0 /\
  count is_submit (calls r) = 0 /\ count is_present (calls r) = 0 /\
  same_slots (app s) (app (final r)) /\
  advances (device s) (device (final r)).
Proof.
  intro r.
  destruct (RecreateSwapChain_spec env fuel s) as [rest [Hc [Hn [Hsame [Hadv _]]]]].
  fold r in Hc, Hsame, Hadv. rewrite Hc.
  rewrite !count_cons. cbn [is_acquire is_reset is_submit is_present Nat.add].
  rewrite (not_frame_count is_acquire rest acquire_is_frame_call Hn).
  rewrite (not_frame_count is_reset rest reset_is_frame Hn).
  rewrite (not_frame_count is_submit rest submit_is_frame_call Hn).
  rewrite (not_frame_count is_present rest present_is_frame_call Hn).
  split; [reflexivity|]. split; [reflexivity|]. split; [reflexivity|].
  split; [reflexivity|]. split; [exact Hsame|exact Hadv].
Qed.

(* ------------------------------------------------------------------ *)
(** ** Creating the swap chain *)

Lemma post_plain_at env {A} (answer : nat -> A) (e : A -> Event) s Q :
  (forall s1 h,
      app s1 = app s -> clock s1 = S (clock s) -> advances (device s) (device s1) ->
      Forall (advances (device s)) h ->
      Q [e (answer (clock s))] h (Done (answer (clock s))) s1) ->
  post (plain env answer e s) Q.
Proof.
  intro H. unfold plain. apply post_external. intros s1 Happ Hclock Hadv.
  cbn [fst snd]. apply H; [exact Happ|exact Hclock|exact Hadv|].
  constructor; [exact Hadv|]. constructor; [exact Hadv|constructor].
Qed.

Lemma ChooseSwapSurfaceFormat_none availableFormats :
  ChooseSwapSurfaceFormat availableFormats = None -> availableFormats = [].
Proof.
  unfold ChooseSwapSurfaceFormat. destruct availableFormats as [|f r]; [reflexivity|].
  destruct (find _ _); discriminate.
Qed.

Ltac walk5 :=
  first
    [ lazymatch goal with
      | |- post (QuerySwapChainSupport _ _) _ =>
          unfold QuerySwapChainSupport; apply post_plain_at; intros ? ? ? ? ? ?
      | |- post (glfwGetFramebufferSize _ _) _ =>
          unfold glfwGetFramebufferSize; apply post_plain_at; intros ? ? ? ? ? ?
      | |- post (vkGetSwapchainImagesKHR_count _ _ _) _ =>
          apply post_external; intros ? ? ? ?
      | |- post (vkGetSwapchainImagesKHR _ _ _ _) _ =>
          apply post_external; intros ? ? ? ?
      end
    | walk4 ];
  cbn beta iota zeta delta [Datatypes.app fst snd].

(** X11.  [CreateSwapChain] reads the first of an empty vector exactly when the
    surface reports no format at the time of the call, and has then
    created nothing and changed no data member.  Otherwise it asks the
    window for its framebuffer size, right after the query of the surface
    and only then, exactly when the current extent of the surface is the
    sentinel.  When it returns, the chain was created with the member for
    the old chain as its old chain, its handle is the chain in use, the
    format stored is the one [ChooseSwapSurfaceFormat] chooses, and the
    extent stored is the one [ChooseSwapExtent] chooses from the
    capabilities the surface reported and the size the window answered. *)
Theorem CreateSwapChain_stores_what_was_chosen env s :
  let support := surface_support env (clock s) in
  let framebufferSize := framebuffer_size env (S (clock s)) in
  let sentinel := (width (currentExtent (capabilities support)) =? UINT32_MAX)%Z in
  let r := CreateSwapChain env s in
  (outcome r = OutOfBounds <-> formats support = []) /\
  (formats support = [] ->
   calls r = [EvMember mCreateSwapChain; EvQuerySwapChainSupport] /\
   app (final r) = app s) /\
  (formats support <> [] ->
   exists rest,
     calls r = EvMember mCreateSwapChain :: EvQuerySwapChainSupport ::
               (if sentinel
                then [EvGetFramebufferSize (fst framebufferSize) (snd framebufferSize)]
                else []) ++ rest /\
     count is_size_query rest = 0) /\
  (outcome r = Done tt ->
   exists surfaceFormat chain,
     ChooseSwapSurfaceFormat (formats support) = Some surfaceFormat /\
     m_swapChainImageFormat (app (final r)) = format surfaceFormat /\
     m_swapChainExtent (app (final r)) =
       ChooseSwapExtent framebufferSize (capabilities support) /\
     In (EvCreate Swapchain (m_oldSwapChain (app s)) VK_SUCCESS chain) (calls r) /\
     m_currentSwapChain (app (final r)) = chain /\
     m_oldSwapChain (app (final r)) = m_oldSwapChain (app s)).
Proof.
  intros support framebufferSize sentinel r.
  assert (H : post r (fun c h o s' =>
    (o = OutOfBounds <-> formats support = []) /\
    (formats support = [] ->
     c = [EvMember mCreateSwapChain; EvQuerySwapChainSupport] /\ app s' = app s) /\
    (formats support <> [] ->
     exists rest,
       c = EvMember mCreateSwapChain :: EvQuerySwapChainSupport ::
           (if sentinel
            then [EvGetFramebufferSize (fst framebufferSize) (snd framebufferSize)]
            else []) ++ rest /\
       count is_size_query rest = 0) /\
    (o = Done tt ->
     exists surfaceFormat chain,
       ChooseSwapSurfaceFormat (formats support) = Some surfaceFormat /\
       m_swapChainImageFormat (app s') = format surfaceFormat /\
       m_swapChainExtent (app s') =
         ChooseSwapExtent framebufferSize (capabilities support) /\
       In (EvCreate Swapchain (m_oldSwapChain (app s)) VK_SUCCESS chain) c /\
       m_currentSwapChain (app s') = chain /\
       m_oldSwapChain (app s') = m_oldSwapChain (app s)))).
  { subst r. unfold CreateSwapChain. repeat walk5.
    all: subst support framebufferSize sentinel; cbn [with_device app device clock] in *.
    all: try match goal with H : ASSERT _ _ = _ |- _ => cbv in H; discriminate H end.
    all: repeat match goal with
           | Hb : succeeded ?x = true |- _ => apply VkResult_eqb_eq in Hb; subst x
           end.
    all: repeat match goal with
           | Hc : clock ?x = S _ |- _ => rewrite Hc in *
           end.
    all: split;
      [ split;
        [ intro Ho; try discriminate Ho; apply ChooseSwapSurfaceFormat_none; assumption
        | intro Hf;
          first [ reflexivity
                | exfalso;
                  match goal with
                  | Hc : ChooseSwapSurfaceFormat _ = Some _ |- _ =>
                      rewrite Hf in Hc; discriminate Hc
                  end ] ]
      | ].
    all: split;
      [ intro Hf;
        first [ split; [reflexivity|members; reflexivity]
              | exfalso;
                match goal with
                | Hc : ChooseSwapSurfaceFormat _ = Some _ |- _ =>
                    rewrite Hf in Hc; discriminate Hc
                end ]
      | ].
    all: split;
      [ intros Hne;
        match goal with
        | Hb : (_ =? UINT32_MAX)%Z = _ |- _ => rewrite Hb
        | _ => idtac
        end;
        first [ eexists; split; reflexivity
              | exfalso; apply Hne; apply ChooseSwapSurfaceFormat_none; assumption ]
      | ].
    all: intro Ho; try discriminate Ho.
    all: do 2 eexists.
    all: split; [eassumption|].
    all: split; [members; reflexivity|].
    all: split;
      [ members;
        first [ reflexivity
              | unfold ChooseSwapExtent;
                match goal with
                | Hb : (_ =? UINT32_MAX)%Z = false |- _ => rewrite Hb
                end; reflexivity ]
      | ].
    all: split; [members; repeat (first [left; reflexivity|right])|].
    all: split; members; reflexivity. }
  exact H.
Qed.

(* ------------------------------------------------------------------ *)
(** ** Devices of equal score *)

Lemma rbegin_cons {V} (x y : Z * V) r : rbegin (x :: y :: r) = rbegin (y :: r).
Proof. reflexivity. Qed.

Lemma rbegin_insert {V} (k : Z) (v : V) m :
  StronglySorted key_le m ->
  rbegin (multimap_insert k v m) =
  match rbegin m with
  | None => Some (k, v)
  | Some (k', v') => if (k <? k')%Z then Some (k', v') else Some (k, v)
  end.
Proof.
  induction 1 as [|[k1 v1] r Hs IH Hall]; [reflexivity|].
  cbn [multimap_insert]. destruct (Z.ltb_spec k k1) as [Hlt|Hge].
  - rewrite rbegin_cons.
    pose proof (rbegin_sorted ((k1, v1) :: r) (SSorted_cons _ Hs Hall)) as Hr.
    destruct (rbegin ((k1, v1) :: r)) as [[kl vl]|]; [|discriminate Hr].
    destruct Hr as [_ Hmax]. specialize (Hmax (k1, v1) (or_introl eq_refl)).
    unfold key_le in Hmax. cbn in Hmax.
    destruct (Z.ltb_spec k kl); [reflexivity|lia].
  - destruct r as [|y r'].
    + cbn. destruct (Z.ltb_spec k k1); [lia|reflexivity].
    + assert (Hne : exists z r'', multimap_insert k v (y :: r') = z :: r'').
      { cbn. destruct y as [ky vy]. destruct (k <? ky)%Z; eauto. }
      destruct Hne as [z [r'' Hz]]. rewrite Hz, rbegin_cons, <- Hz, IH.
      rewrite rbegin_cons. reflexivity.
Qed.

Lemma candidates_last (devices : list PhysicalDevice) :
  devices <> [] ->
  exists pre best post,
    devices = pre ++ best :: post /\
    rbegin (fold_left (fun c device => multimap_insert (RateDevice device) device c)
                      devices []) = Some (RateDevice best, best) /\
    (forall d, In d pre -> (RateDevice d <= RateDevice best)%Z) /\
    (forall d, In d post -> (RateDevice d < RateDevice best)%Z).
Proof.
  induction devices as [|d l IH] using rev_ind; [congruence|]. intros _.
  rewrite fold_left_app. cbn [fold_left].
  destruct (candidates_spec l [] (SSorted_nil _)) as [Hsorted _]. cbv zeta in Hsorted.
  rewrite (rbegin_insert _ _ _ Hsorted).
  destruct l as [|d0 l0].
  - exists [], d, []. cbn. repeat split; intros ? [].
  - destruct (IH ltac:(discriminate)) as [pre [best [post [Hl [Hr [Hpre Hpost]]]]]].
    rewrite Hr. destruct (Z.ltb_spec (RateDevice d) (RateDevice best)) as [Hlt|Hge].
    + exists pre, best, (post ++ [d]). split; [rewrite Hl, <- app_assoc; reflexivity|].
      split; [reflexivity|]. split; [exact Hpre|].
      intros x Hx. apply in_app_or in Hx. destruct Hx as [Hx|[<-|[]]]; auto.
    + exists (d0 :: l0), d, []. split; [reflexivity|]. split; [reflexivity|].
      split; [|intros ? []].
      intros x Hx. rewrite Hl in Hx. apply in_app_or in Hx.
      destruct Hx as [Hx|[<-|Hx]].
      * specialize (Hpre x Hx). lia.
      * exact Hge.
      * specialize (Hpost x Hx). lia.
Qed.

(** X8.  Among the devices of the greatest score, [PickPhysicalDevice] stores
    the one enumerated last: every device enumerated after the one it
    stores has a smaller score. *)
Theorem PickPhysicalDevice_takes_the_last_of_the_best NDEBUG instance best :
  PickPhysicalDevice NDEBUG instance = Done best ->
  exists pre post,
    enumerated instance = pre ++ best :: post /\
    (forall d, In d pre -> (RateDevice d <= RateDevice best)%Z) /\
    (forall d, In d post -> (RateDevice d < RateDevice best)%Z).
Proof.
  intro Hpick. destruct (PickPhysicalDevice_enumerated _ _ _ Hpick) as [Hcount Hok].
  unfold PickPhysicalDevice in Hpick. cbv zeta in Hpick. rewrite Hok in Hpick.
  replace (negb NDEBUG && negb (VkResult_eqb (count_result instance) VK_SUCCESS)) with false
    in Hpick by (destruct Hcount as [-> | ->]; [reflexivity|now rewrite andb_false_r]).
  cbn [VkResult_eqb] in Hpick.
  destruct (enumerated instance) as [|d0 l0] eqn:El; [cbn in Hpick; discriminate Hpick|].
  cbn [List.length Nat.eqb negb ASSERT] in Hpick.
  destruct (candidates_last (d0 :: l0) ltac:(discriminate))
    as [pre [b [post [Hl [Hr [Hpre Hpost]]]]]].
  rewrite Hr in Hpick.
  destruct (0 <? RateDevice b)%Z; cbn in Hpick; [|discriminate Hpick].
  inversion Hpick; subst b. exists pre, post. auto.
Qed.

Lemma PickPhysicalDevice_takes_the_last_of_the_best_witness :
  exists pre post,
    [sample_device VK_PHYSICAL_DEVICE_TYPE_VIRTUAL_GPU 4096%Z; device_A] = pre ++ device_A :: post /\
    (forall d, In d pre -> (RateDevice d <= RateDevice device_A)%Z) /\
    (forall d, In d post -> (RateDevice d < RateDevice device_A)%Z).
Proof.
  exact (PickPhysicalDevice_takes_the_last_of_the_best true
           (mkPhysicalDevices VK_SUCCESS VK_SUCCESS
              [sample_device VK_PHYSICAL_DEVICE_TYPE_VIRTUAL_GPU 4096%Z; device_A])
           device_A eq_refl).
Defined.

(* ------------------------------------------------------------------ *)
(** ** The device is idle before the teardown *)

(** X14.  In a rebuild, every call that takes the swap chain down or builds it
    comes after [vkDeviceWaitIdle]. *)
Theorem RecreateSwapChain_idles_before_teardown env fuel s pre e post :
  calls (RecreateSwapChain env fuel s) = pre ++ e :: post ->
  is_teardown e = true \/ is_construction e = true ->
  In EvDeviceWaitIdle pre.
Proof.
  intros Hsplit He.
  destruct (RecreateSwapChain_run env fuel s) as [X [Hcalls [Hblocked Hdone]]].
  set (w0 := fst (framebuffer_size env (clock s))) in *.
  set (h0 := snd (framebuffer_size env (clock s))) in *.
  set (L := wait_while_minimised env fuel w0 h0 (gpu_step env s)) in *.
  destruct (wait_while_minimised_polls env fuel w0 h0 (gpu_step env s))
    as [Hpoll [Hout _]]. fold L in Hpoll, Hout.
  assert (Hnp : is_polling e = false).
  { destruct (is_polling e) eqn:Ep; [|reflexivity].
    destruct (polling_is_neither e Ep) as [Hc Ht]. destruct He; congruence. }
  assert (HP : Forall (fun x => is_polling x = true)
                      (EvMember mRecreateSwapChain :: EvGetFramebufferSize w0 h0 :: calls L)).
  { constructor; [reflexivity|]. constructor; [reflexivity|exact Hpoll]. }
  rewrite Hsplit in Hcalls.
  change (EvMember mRecreateSwapChain :: EvGetFramebufferSize w0 h0 :: calls L ++ X)
    with ((EvMember mRecreateSwapChain :: EvGetFramebufferSize w0 h0 :: calls L) ++ X)
    in Hcalls.
  destruct (split_at_first _ _ _ _ _ _ HP Hcalls Hnp) as [pre' [Hpre HX]].
  destruct Hout as [Hd|Hb].
  - destruct (Hdone Hd) as [X' HX']. rewrite HX' in HX.
    destruct pre' as [|y pre'']; cbn in HX; inversion HX; subst.
    + destruct He as [He|He]; discriminate He.
    + apply in_or_app. right. left. reflexivity.
  - destruct (Hblocked Hb) as [HX' _]. rewrite HX' in HX.
    destruct pre'; discriminate HX.
Qed.

Lemma RecreateSwapChain_idles_before_teardown_witness :
  In EvDeviceWaitIdle (firstn 7 (calls (RecreateSwapChain minimised_env 10 sample_ready))).
Proof.
  apply (RecreateSwapChain_idles_before_teardown minimised_env 10 sample_ready
           (firstn 7 (calls (RecreateSwapChain minimised_env 10 sample_ready)))
           (EvMember mCleanupSwapChain)
           (skipn 8 (calls (RecreateSwapChain minimised_env 10 sample_ready)))).
  - vm_compute. reflexivity.
  - left. reflexivity.
Defined.
